(** * The Query class of src/src/query.js: a shallow embedding

    The class builds MongoDB-style filters through a fluent interface and
    evaluates them against cached records.  Its methods mutate JavaScript
    objects that are shared by reference (the filter of a sub-query is
    stored, not copied, into the filter of the query it is joined with), so
    the embedding keeps an explicit store of objects and threads it through
    every method together with the exceptions the methods throw. *)

From Stdlib Require Import ZArith QArith String Ascii List Bool Lia DecimalString.
From stdpp Require Import base list.
Import ListNotations.
#[local] Set Warnings "-register-all".
Local Open Scope string_scope.
Local Open Scope list_scope.
Local Open Scope nat_scope.

(** ** JavaScript values *)

(** A JavaScript number.  The finite ones are rationals here, standing
    for the binary64 numbers of that value: the code's checks depend on the
    distinction between finite numbers, the infinities and NaN, and its one
    sum ([skip + limit] in [process]) is modelled where it is exact. *)
Inductive number :=
| NaN
| Infinity (negative : bool)
| Finite (q : Q).

Definition isFinite (n : number) : bool :=
  match n with Finite _ => true | _ => false end.

Definition number_truthy (n : number) : bool :=
  match n with
  | NaN => false
  | Infinity _ => true
  | Finite q => negb (Qeq_bool q 0)
  end.

(** [n1 === n2] on numbers: NaN differs from everything. *)
Definition number_eqb (n1 n2 : number) : bool :=
  match n1, n2 with
  | Finite q1, Finite q2 => Qeq_bool q1 q2
  | Infinity b1, Infinity b2 => Bool.eqb b1 b2
  | _, _ => false
  end.

Definition number_neg (n : number) : number :=
  match n with
  | NaN => NaN
  | Infinity b => Infinity (negb b)
  | Finite q => Finite (Qopp q)
  end.

(** An integer of magnitude at most 2^53: binary64 has it exactly. *)
Definition safe_integer (q : Q) : bool :=
  (Z.rem (Qnum q) (Z.pos (Qden q)) =? 0)%Z
  && (Z.abs (Z.quot (Qnum q) (Z.pos (Qden q))) <=? 2 ^ 53)%Z.

(** [n1 + n2], where the sum of binary64 is the exact one: with an
    infinity or NaN, and on safe integers whose sum is a safe integer.  The
    sums that binary64 rounds are outside the model. *)
Definition number_add (n1 n2 : number) : option number :=
  match n1, n2 with
  | Finite q1, Finite q2 =>
      if safe_integer q1 && safe_integer q2 && safe_integer (q1 + q2)
      then Some (Finite (Qred (q1 + q2)))
      else None
  | Infinity b1, Infinity b2 =>
      Some (if Bool.eqb b1 b2 then Infinity b1 else NaN)
  | Infinity b, Finite _ | Finite _, Infinity b => Some (Infinity b)
  | _, _ => Some NaN
  end.

Definition number_sign_negative (n : number) : bool :=
  match n with
  | NaN => false
  | Infinity b => b
  | Finite q => (Qnum q <? 0)%Z
  end.

(** [n1 * n2]; the code multiplies by 1 and -1 only, which binary64
    does exactly. *)
Definition number_mul (n1 n2 : number) : number :=
  match n1, n2 with
  | Finite q1, Finite q2 => Finite (Qred (q1 * q2))
  | NaN, _ | _, NaN => NaN
  | _, _ =>
      if number_truthy n1 && number_truthy n2
      then Infinity (xorb (number_sign_negative n1) (number_sign_negative n2))
      else NaN
  end.

Abbreviation loc := nat.

Inductive value :=
| VUndefined
| VNull
| VBool (b : bool)
| VNum (n : number)
| VStr (s : string)
| VRef (l : loc).

Definition num (z : Z) : value := VNum (Finite (inject_Z z)).

(** The own data properties of a [Query] instance.  The accessors
    [fields], [filter], [sort], [limit] and [skip] of the class read and
    write the underscored properties; [parent] is the property that [join]
    assigns on the query it creates. *)
Record query := mkQuery {
  _fields : value;
  _filter : value;
  _sort : value;
  _limit : value;
  _skip : value;
  _parent : value;
  parent : value
}.

(** Objects of the store: plain objects with their properties in
    enumeration order, arrays, and instances of [Query]. *)
Inductive object :=
| OObject (props : list (string * value))
| OArray (elems : list value)
| OQuery (q : query).

Abbreviation heap := (list object).

(** ** Exceptions and the method monad *)

Inductive error :=
| QueryError (message : string)
| TypeError (message : string)
| OtherError (name : string).

(** Runs that leave the fragment of JavaScript modelled here: a call
    chain deeper than the fuel given, or an operation that the model does
    not describe: a property of a [Query] instance read or written through
    a computed key (the instance used as plain data), a property that an
    object inherits from a built-in prototype, a non-index property or a
    hole in an array, arithmetic on non-numbers or with a rounded result.
    Nothing is said about the code where the model is stuck. *)
Inductive stuck := OutOfFuel | Unmodelled.

Inductive outcome (A : Type) :=
| Ret (a : A)
| Throw (e : error)
| Stuck (s : stuck).
Arguments Ret {A} a.
Arguments Throw {A} e.
Arguments Stuck {A} s.

(** A method reads and writes the store; the store survives a throw. *)
Definition M (A : Type) : Type := heap -> outcome A * heap.

Definition ret {A} (a : A) : M A := fun h => (Ret a, h).
Definition throw {A} (e : error) : M A := fun h => (Throw e, h).
Definition stuck_at {A} (s : stuck) : M A := fun h => (Stuck s, h).
Definition lift {A} (o : outcome A) : M A := fun h => (o, h).

Definition bind {A B} (m : M A) (f : A -> M B) : M B :=
  fun h =>
    match m h with
    | (Ret a, h') => f a h'
    | (Throw e, h') => (Throw e, h')
    | (Stuck s, h') => (Stuck s, h')
    end.

Declare Scope js_scope.
Delimit Scope js_scope with js.
Notation "x <- m ;; k" := (bind m (fun x => k))
  (at level 100, m at next level, right associativity) : js_scope.
Notation "m ;;; k" := (bind m (fun _ => k))
  (at level 100, right associativity) : js_scope.
Local Open Scope js_scope.

Definition get_heap : M heap := fun h => (Ret h, h).

Definition alloc (o : object) : M loc := fun h => (Ret (length h), h ++ [o]).

Definition read (l : loc) : M object :=
  fun h => match h !! l with
           | Some o => (Ret o, h)
           | None => (Stuck Unmodelled, h)
           end.

Definition write (l : loc) (o : object) : M unit :=
  fun h => (Ret tt, <[l := o]> h).

Fixpoint mapM {A B} (f : A -> M B) (l : list A) : M (list B) :=
  match l with
  | [] => ret []
  | x :: l' => y <- f x ;; ys <- mapM f l' ;; ret (y :: ys)
  end.

(** ** Runtime predicates (lodash) and truthiness *)

Definition truthy (v : value) : bool :=
  match v with
  | VUndefined | VNull => false
  | VBool b => b
  | VNum n => number_truthy n
  | VStr s => negb (String.eqb s "")
  | VRef _ => true
  end.

Definition isNumber (v : value) : bool :=
  match v with VNum _ => true | _ => false end.

Definition isString (v : value) : bool :=
  match v with VStr _ => true | _ => false end.

Definition isObject (v : value) : bool :=
  match v with VRef _ => true | _ => false end.

Definition isArray (v : value) : M bool :=
  match v with
  | VRef l => o <- read l ;;
              ret (match o with OArray _ => true | _ => false end)
  | _ => ret false
  end.

Definition instanceof_Query (v : value) : M bool :=
  match v with
  | VRef l => o <- read l ;;
              ret (match o with OQuery _ => true | _ => false end)
  | _ => ret false
  end.

(** [v1 === v2]: references are compared by identity. *)
Definition strict_eqb (v1 v2 : value) : bool :=
  match v1, v2 with
  | VUndefined, VUndefined | VNull, VNull => true
  | VBool b1, VBool b2 => Bool.eqb b1 b2
  | VNum n1, VNum n2 => number_eqb n1 n2
  | VStr s1, VStr s2 => String.eqb s1 s2
  | VRef l1, VRef l2 => Nat.eqb l1 l2
  | _, _ => false
  end.

(** ** Properties of objects *)

Definition digit_of (c : ascii) : option N :=
  let n := N_of_ascii c in
  if ((48 <=? n) && (n <=? 57))%N then Some (n - 48)%N else None.

Fixpoint digits_value (s : string) (acc : N) : option N :=
  match s with
  | EmptyString => Some acc
  | String c s' =>
      match digit_of c with
      | Some d => digits_value s' (acc * 10 + d)%N
      | None => None
      end
  end.

(** A property key that is an array index: the canonical decimal form of
    an integer below 2^32 - 1. *)
Definition parse_index (k : string) : option nat :=
  match k with
  | EmptyString => None
  | String "0" EmptyString => Some 0
  | String "0" _ => None
  | _ =>
      match digits_value k 0 with
      | Some n => if (n <? 4294967295)%N then Some (N.to_nat n) else None
      | None => None
      end
  end.

Definition index_key (i : nat) : string :=
  NilZero.string_of_uint (Nat.to_uint i).

Definition index_keys (n : nat) : list string := map index_key (seq 0 n).

Fixpoint lookup_own (k : string) (ps : list (string * value)) : option value :=
  match ps with
  | [] => None
  | (k', v) :: ps' => if String.eqb k k' then Some v else lookup_own k ps'
  end.

Fixpoint replace_own (k : string) (v : value) (ps : list (string * value))
  : list (string * value) :=
  match ps with
  | [] => []
  | (k', v') :: ps' =>
      if String.eqb k k' then (k', v) :: ps' else (k', v') :: replace_own k v ps'
  end.

(** Where a new key goes in the enumeration order: index keys come first,
    by value; the other keys follow in the order they were created. *)
Fixpoint insert_index (i : nat) (k : string) (v : value)
  (ps : list (string * value)) : list (string * value) :=
  match ps with
  | [] => [(k, v)]
  | (k', v') :: ps' =>
      match parse_index k' with
      | Some j => if j <? i then (k', v') :: insert_index i k v ps'
                  else (k, v) :: ps
      | None => (k, v) :: ps
      end
  end.

Definition set_own (k : string) (v : value) (ps : list (string * value))
  : list (string * value) :=
  match lookup_own k ps with
  | Some _ => replace_own k v ps
  | None =>
      match parse_index k with
      | Some i => insert_index i k v ps
      | None => ps ++ [(k, v)]
      end
  end.

Fixpoint remove_own (k : string) (ps : list (string * value))
  : list (string * value) :=
  match ps with
  | [] => []
  | (k', v') :: ps' =>
      if String.eqb k k' then ps' else (k', v') :: remove_own k ps'
  end.

Definition or_undefined (o : option value) : value :=
  match o with Some v => v | None => VUndefined end.

Definition array_own (es : list value) (k : string) : option value :=
  if String.eqb k "length" then Some (num (Z.of_nat (length es)))
  else match parse_index k with
       | Some i => es !! i
       | None => None
       end.

Definition string_own (s : string) (k : string) : option value :=
  if String.eqb k "length" then Some (num (Z.of_nat (String.length s)))
  else match parse_index k with
       | Some i => match String.get i s with
                   | Some c => Some (VStr (String c EmptyString))
                   | None => None
                   end
       | None => None
       end.

(** The members of [Object.prototype], which every plain object
    inherits: those of the language standard and of its annex for web
    browsers. *)
Definition Object_prototype : list string :=
  ["constructor"; "hasOwnProperty"; "isPrototypeOf"; "propertyIsEnumerable";
   "toLocaleString"; "toString"; "valueOf"; "__proto__";
   "__defineGetter__"; "__defineSetter__"; "__lookupGetter__";
   "__lookupSetter__"].

Definition inherited (k : string) : bool :=
  existsb (String.eqb k) Object_prototype.

(** The names of the operators of a filter start with a dollar sign; no
    member of a built-in prototype does. *)
Definition operator_name (k : string) : bool :=
  match k with
  | String "$" _ => true
  | _ => false
  end.

(** A property that a plain object does not own: [undefined], unless the
    name is that of a member of [Object.prototype], whose value (a built-in
    function, or the prototype for [__proto__]) is outside the model. *)
Definition absent_from_object (k : string) : M value :=
  if inherited k then stuck_at Unmodelled else ret VUndefined.

(** The same for an array, a string, a number or a boolean.  Their
    prototypes have many members, which are not listed here: only an index
    and the name of an operator are known to be absent. *)
Definition absent_from_builtin (k : string) : M value :=
  match parse_index k with
  | Some _ => ret VUndefined
  | None => if operator_name k then ret VUndefined else stuck_at Unmodelled
  end.

(** [v[k]]. *)
Definition get_prop (v : value) (k : string) : M value :=
  match v with
  | VUndefined | VNull =>
      throw (TypeError "Cannot read property of undefined or null")
  | VBool _ | VNum _ => absent_from_builtin k
  | VStr s =>
      match string_own s k with
      | Some x => ret x
      | None => absent_from_builtin k
      end
  | VRef l =>
      o <- read l ;;
      match o with
      | OObject ps =>
          match lookup_own k ps with
          | Some x => ret x
          | None => absent_from_object k
          end
      | OArray es =>
          match array_own es k with
          | Some x => ret x
          | None => absent_from_builtin k
          end
      | OQuery _ => stuck_at Unmodelled
      end
  end.

(** [v[k] = x].  The module is strict code: assigning to a property of a
    primitive throws.  On a plain object the assignment writes an own
    property; the setter that plain objects inherit under the name
    [__proto__] is not modelled, and the statements about names that a
    caller chooses leave that name out. *)
Definition set_prop (v : value) (k : string) (x : value) : M unit :=
  match v with
  | VUndefined | VNull =>
      throw (TypeError "Cannot set property of undefined or null")
  | VBool _ | VNum _ | VStr _ =>
      throw (TypeError "Cannot create property on a primitive")
  | VRef l =>
      o <- read l ;;
      match o with
      | OObject ps => write l (OObject (set_own k x ps))
      | OArray es =>
          match parse_index k with
          | Some i =>
              if i <? length es then write l (OArray (<[i := x]> es))
              else if i =? length es then write l (OArray (es ++ [x]))
              else stuck_at Unmodelled
          | None => stuck_at Unmodelled
          end
      | OQuery _ => stuck_at Unmodelled
      end
  end.

(** [delete v[k]]. *)
Definition delete_prop (v : value) (k : string) : M unit :=
  match v with
  | VUndefined | VNull =>
      throw (TypeError "Cannot convert undefined or null to object")
  | VBool _ | VNum _ => ret tt
  | VStr s =>
      match string_own s k with
      | Some _ => throw (TypeError "Cannot delete property of a string")
      | None => ret tt
      end
  | VRef l =>
      o <- read l ;;
      match o with
      | OObject ps => write l (OObject (remove_own k ps))
      | OArray es =>
          match array_own es k with
          | Some _ => stuck_at Unmodelled
          | None => ret tt
          end
      | OQuery _ => stuck_at Unmodelled
      end
  end.

(** The own enumerable keys of a value that is not null or undefined. *)
Definition keys_of (v : value) : M (list string) :=
  match v with
  | VStr s => ret (index_keys (String.length s))
  | VRef l =>
      o <- read l ;;
      match o with
      | OObject ps => ret (map fst ps)
      | OArray es => ret (index_keys (length es))
      | OQuery _ => stuck_at Unmodelled
      end
  | _ => ret []
  end.

(** [Object.keys(v)] *)
Definition Object_keys (v : value) : M (list string) :=
  match v with
  | VUndefined | VNull =>
      throw (TypeError "Cannot convert undefined or null to object")
  | _ => keys_of v
  end.

(** lodash [keys(v)]: null and undefined have none. *)
Definition lodash_keys (v : value) : M (list string) := keys_of v.

(** lodash [forEach(array, iteratee)].  The iteratee may update the local
    variables it closes over, passed here as the state [s]; what it returns
    is looked at only to stop the loop, when it is [false]. *)
Fixpoint forEach {A S} (l : list A) (s : S) (iteratee : S -> A -> M (S * value))
  : M S :=
  match l with
  | [] => ret s
  | x :: l' =>
      r <- iteratee s x ;;
      match snd r with
      | VBool false => ret (fst r)
      | _ => forEach l' (fst r) iteratee
      end
  end.

(** lodash [assign(target, source)] for one source. *)
Definition assign (target source : value) : M value :=
  ks <- lodash_keys source ;;
  forEach ks tt (fun _ k =>
    x <- get_prop source k ;;
    set_prop target k x ;;;
    ret (tt, VUndefined)) ;;;
  ret target.

(** lodash [property(p)]: [o == null ? undefined : o[p]]. *)
Definition property (p : string) (o : value) : M value :=
  match o with
  | VUndefined | VNull => ret VUndefined
  | _ => get_prop o p
  end.

Fixpoint find_first (o : value) (p : string) (ks : list string) : M value :=
  match ks with
  | [] => ret VUndefined
  | k :: ks' =>
      x <- get_prop o k ;;
      y <- property p x ;;
      if truthy y then ret (VStr k) else find_first o p ks'
  end.

(** lodash [findKey(o, p)] with the property shorthand [p]: the first key
    of [o] whose value has a truthy property [p]. *)
Definition findKey (o : value) (p : string) : M value :=
  ks <- lodash_keys o ;;
  find_first o p ks.

(** ** The Query class *)

Definition blank : query :=
  mkQuery VUndefined VUndefined VUndefined VUndefined VUndefined VUndefined
    VUndefined.

Definition with_fields (v : value) (q : query) : query :=
  mkQuery v (_filter q) (_sort q) (_limit q) (_skip q) (_parent q) (parent q).
Definition with_filter (v : value) (q : query) : query :=
  mkQuery (_fields q) v (_sort q) (_limit q) (_skip q) (_parent q) (parent q).
Definition with_sort (v : value) (q : query) : query :=
  mkQuery (_fields q) (_filter q) v (_limit q) (_skip q) (_parent q) (parent q).
Definition with_limit (v : value) (q : query) : query :=
  mkQuery (_fields q) (_filter q) (_sort q) v (_skip q) (_parent q) (parent q).
Definition with_skip (v : value) (q : query) : query :=
  mkQuery (_fields q) (_filter q) (_sort q) (_limit q) v (_parent q) (parent q).
Definition with__parent (v : value) (q : query) : query :=
  mkQuery (_fields q) (_filter q) (_sort q) (_limit q) (_skip q) v (parent q).
Definition with_parent (v : value) (q : query) : query :=
  mkQuery (_fields q) (_filter q) (_sort q) (_limit q) (_skip q) (_parent q) v.

(** [this], which must be an instance of the class. *)
Definition this_query (this : loc) : M query :=
  o <- read this ;;
  match o with
  | OQuery q => ret q
  | _ => stuck_at Unmodelled
  end.

Definition update_query (this : loc) (f : query -> query) : M unit :=
  q <- this_query this ;;
  write this (OQuery (f q)).

(** The receiver of a method call or of an accessor [v.m]. *)
Definition callee (v : value) : M loc :=
  match v with
  | VRef l => ret l
  | _ => throw (TypeError "not a function")
  end.

Definition get_fields (this : loc) : M value :=
  q <- this_query this ;; ret (_fields q).
Definition get_filter (this : loc) : M value :=
  q <- this_query this ;; ret (_filter q).
Definition get_sort (this : loc) : M value :=
  q <- this_query this ;; ret (_sort q).
Definition get_limit (this : loc) : M value :=
  q <- this_query this ;; ret (_limit q).
Definition get_skip (this : loc) : M value :=
  q <- this_query this ;; ret (_skip q).
Definition get__parent (this : loc) : M value :=
  q <- this_query this ;; ret (_parent q).

Definition unsupportedFilters : list string := ["$nearSphere"].

Record regexp := mkRegExp {
  source : string;
  ignoreCase : bool;
  multiline : bool
}.

(** The [regExp] argument of [matches]: a regular expression, or a value
    that [matches] hands to the [RegExp] constructor. *)
Inductive pattern :=
| PRegExp (r : regexp)
| PValue (v : value).

Definition starts_with_caret (s : string) : bool :=
  match s with
  | String "^" _ => true
  | _ => false
  end.

(** [flags.join('')] *)
Definition join_flags (flags : list string) : string :=
  fold_right String.append "" flags.

Section Query.

(** What the class takes from the JavaScript runtime and from the
    modules it imports, none of which is part of this file: the global
    [parseFloat], the [RegExp] constructor, the [<] operator and the
    conversion to a number that [*] applies, the matcher [sift] and the
    helper [nested] of ./utils. *)
Variable parseFloat : heap -> value -> number.
Variable RegExp : heap -> value -> outcome regexp.
Variable less_than : heap -> value -> value -> bool.
Variable toNumber : heap -> value -> number.
Variable sift : heap -> value -> list value -> outcome (list value).
Variable nested : heap -> value -> string -> value.

Definition parse_float (v : value) : M value :=
  h <- get_heap ;; ret (VNum (parseFloat h v)).

(** *** Accessors *)

Fixpoint set_fields (fuel : nat) (this : loc) (fields : value) : M unit :=
  match fuel with
  | O => stuck_at OutOfFuel
  | S fuel' =>
      fields <- (if truthy fields then ret fields
                 else l <- alloc (OArray []) ;; ret (VRef l)) ;;
      is_array <- isArray fields ;;
      if negb is_array then throw (QueryError "fields must be an Array")
      else
        p <- get__parent this ;;
        if truthy p then
          owner <- callee p ;; set_fields fuel' owner fields
        else update_query this (with_fields fields)
  end.

Definition set_filter (this : loc) (filter : value) : M unit :=
  update_query this (with_filter filter).

Definition set_sort (this : loc) (sort : value) : M unit :=
  if truthy sort && negb (isObject sort)
  then throw (QueryError "sort must an Object")
  else
    p <- get__parent this ;;
    if truthy p then
      (* this._parent.sort(sort): the getter yields the owner's sort
         object, which is not callable *)
      owner <- callee p ;;
      get_sort owner ;;;
      throw (TypeError "this._parent.sort is not a function")
    else
      sort <- (if truthy sort then ret sort
               else l <- alloc (OObject []) ;; ret (VRef l)) ;;
      update_query this (with_sort sort).

Fixpoint set_limit (fuel : nat) (this : loc) (limit : value) : M unit :=
  match fuel with
  | O => stuck_at OutOfFuel
  | S fuel' =>
      limit <- (if isString limit then parse_float limit else ret limit) ;;
      if truthy limit && negb (isNumber limit)
      then throw (QueryError "limit must be a number")
      else
        p <- get__parent this ;;
        if truthy p then
          owner <- callee p ;; set_limit fuel' owner limit
        else update_query this (with_limit limit)
  end.

Definition set_skip (this : loc) (skip : value) : M unit :=
  let skip := match skip with VUndefined => num 0 | _ => skip end in
  skip <- (if isString skip then parse_float skip else ret skip) ;;
  if negb (isNumber skip)
  then throw (QueryError "skip must be a number")
  else
    p <- get__parent this ;;
    if truthy p then
      (* this._parent.skip(skip): the getter yields a number *)
      owner <- callee p ;;
      get_skip owner ;;;
      throw (TypeError "this._parent.skip is not a function")
    else update_query this (with_skip skip).

(** *** The constructor *)

Definition Query_new (fuel : nat) (options : value) : M loc :=
  this <- alloc (OQuery blank) ;;
  d_fields <- alloc (OArray []) ;;
  d_filter <- alloc (OObject []) ;;
  d_sort <- alloc (OObject []) ;;
  defaults <- alloc (OObject [("fields", VRef d_fields);
                              ("filter", VRef d_filter);
                              ("sort", VRef d_sort);
                              ("limit", VNull);
                              ("skip", num 0)]) ;;
  options <- assign (VRef defaults) options ;;
  v <- get_prop options "fields" ;; set_fields fuel this v ;;;
  v <- get_prop options "filter" ;; set_filter this v ;;;
  v <- get_prop options "sort" ;; set_sort this v ;;;
  v <- get_prop options "limit" ;; set_limit fuel this v ;;;
  v <- get_prop options "skip" ;; set_skip this v ;;;
  update_query this (with__parent VNull) ;;;
  ret this.

(** *** Serialisation *)

Fixpoint toPlainObject (fuel : nat) (this : loc) : M value :=
  match fuel with
  | O => stuck_at OutOfFuel
  | S fuel' =>
      p <- get__parent this ;;
      if truthy p then
        owner <- callee p ;; toPlainObject fuel' owner
      else
        fields <- get_fields this ;;
        filter <- get_filter this ;;
        sort <- get_sort this ;;
        skip <- get_skip this ;;
        limit <- get_limit this ;;
        json <- alloc (OObject [("fields", fields);
                                ("filter", filter);
                                ("sort", sort);
                                ("skip", skip);
                                ("limit", limit)]) ;;
        ret (VRef json)
  end.

Definition toJSON (fuel : nat) (this : loc) : M value :=
  toPlainObject fuel this.

(** *** Filters *)

Definition isSupportedOffline (this : loc) : M bool :=
  forEach unsupportedFilters true (fun _ filter =>
    f <- get_filter this ;;
    k <- findKey f filter ;;
    let supported := negb (truthy k) in
    ret (supported, VBool supported)).

Definition addFilter (this : loc) (field condition : string) (values : value)
  : M value :=
  f <- get_filter this ;;
  cur <- get_prop f field ;;
  (if negb (isObject cur) then
     o <- alloc (OObject []) ;;
     f <- get_filter this ;;
     set_prop f field (VRef o)
   else ret tt) ;;;
  f <- get_filter this ;;
  cur <- get_prop f field ;;
  set_prop cur condition values ;;;
  ret (VRef this).

Definition equalTo (this : loc) (field : string) (v : value) : M value :=
  addFilter this field "$eq" v.

(** [if (!isArray(values)) values = [values]] *)
Definition wrap_array (values : value) : M value :=
  is_array <- isArray values ;;
  if negb is_array then l <- alloc (OArray [values]) ;; ret (VRef l)
  else ret values.

Definition contains (this : loc) (field : string) (values : value) : M value :=
  values <- wrap_array values ;;
  addFilter this field "$in" values.

Definition containsAll (this : loc) (field : string) (values : value)
  : M value :=
  values <- wrap_array values ;;
  addFilter this field "$all" values.

Definition greaterThan (this : loc) (field : string) (v : value) : M value :=
  if negb (isNumber v) && negb (isString v)
  then throw (QueryError "You must supply a number or string.")
  else addFilter this field "$gt" v.

Definition greaterThanOrEqualTo (this : loc) (field : string) (v : value)
  : M value :=
  if negb (isNumber v) && negb (isString v)
  then throw (QueryError "You must supply a number or string.")
  else addFilter this field "$gte" v.

Definition lessThan (this : loc) (field : string) (v : value) : M value :=
  if negb (isNumber v) && negb (isString v)
  then throw (QueryError "You must supply a number or string.")
  else addFilter this field "$lt" v.

Definition lessThanOrEqualTo (this : loc) (field : string) (v : value)
  : M value :=
  if negb (isNumber v) && negb (isString v)
  then throw (QueryError "You must supply a number or string.")
  else addFilter this field "$lte" v.

Definition notEqualTo (this : loc) (field : string) (v : value) : M value :=
  addFilter this field "$ne" v.

Definition notContainedIn (this : loc) (field : string) (values : value)
  : M value :=
  values <- wrap_array values ;;
  addFilter this field "$nin" values.

Definition Query_exists (this : loc) (field : string) (flag : value)
  : M value :=
  let flag := match flag with
              | VUndefined => VBool true
              | _ => if truthy flag then flag else VBool false
              end in
  addFilter this field "$exists" flag.

Definition Query_mod (this : loc) (field : string) (divisor remainder : value)
  : M value :=
  let remainder := match remainder with VUndefined => num 0 | _ => remainder end in
  divisor <- (if isString divisor then parse_float divisor else ret divisor) ;;
  remainder <- (if isString remainder then parse_float remainder
                else ret remainder) ;;
  if negb (isNumber divisor)
  then throw (QueryError "divisor must be a number")
  else if negb (isNumber remainder)
  then throw (QueryError "remainder must be a number")
  else
    l <- alloc (OArray [divisor; remainder]) ;;
    addFilter this field "$mod" (VRef l).

(** [new RegExp(regExp)] unless [regExp] is a regular expression. *)
Definition to_regexp (regExp : pattern) : M regexp :=
  match regExp with
  | PRegExp r => ret r
  | PValue v => h <- get_heap ;; lift (RegExp h v)
  end.

Definition matches (this : loc) (field : string) (regExp : pattern)
  (options : value) : M value :=
  options <- (match options with
              | VUndefined => l <- alloc (OObject []) ;; ret (VRef l)
              | _ => ret options
              end) ;;
  regExp <- to_regexp regExp ;;
  o_ignoreCase <- get_prop options "ignoreCase" ;;
  o_ignoreCase' <- get_prop options "ignoreCase" ;;
  if (ignoreCase regExp || truthy o_ignoreCase)
     && negb (strict_eqb o_ignoreCase' (VBool false))
  then throw (QueryError "ignoreCase glag is not supported.")
  else if negb (starts_with_caret (source regExp))
  then throw (QueryError
    "regExp must have `^` at the beginning of the expression to make it an anchored expression.")
  else
    o_multiline <- get_prop options "multiline" ;;
    o_multiline' <- get_prop options "multiline" ;;
    let flags :=
      if (multiline regExp || truthy o_multiline)
         && negb (strict_eqb o_multiline' (VBool false))
      then ["m"] else [] in
    o_extended <- get_prop options "extended" ;;
    let flags := if truthy o_extended then flags ++ ["x"] else flags in
    o_dotMatchesAll <- get_prop options "dotMatchesAll" ;;
    let flags := if truthy o_dotMatchesAll then flags ++ ["s"] else flags in
    result <- addFilter this field "$regex" (VStr (source regExp)) ;;
    (if 0 <? length flags
     then addFilter this field "$options" (VStr (join_flags flags))
     else ret result) ;;;
    ret result.

Definition near (this : loc) (field : string) (coord maxDistance : value)
  : M value :=
  is_array <- isArray coord ;;
  c0 <- (if is_array then get_prop coord "0" else ret VUndefined) ;;
  c1 <- (if is_array then get_prop coord "1" else ret VUndefined) ;;
  if negb is_array || negb (isNumber c0) || negb (isNumber c1)
  then throw (QueryError "coord must be a [number, number]")
  else
    c0 <- get_prop coord "0" ;;
    c1 <- get_prop coord "1" ;;
    l <- alloc (OArray [c0; c1]) ;;
    result <- addFilter this field "$nearSphere" (VRef l) ;;
    (if truthy maxDistance
     then addFilter this field "$maxDistance" maxDistance
     else ret result) ;;;
    ret result.

(** [!isArray(c) || !c[0] || !c[1]] *)
Definition bad_pair (c : value) : M bool :=
  is_array <- isArray c ;;
  if negb is_array then ret true
  else
    c0 <- get_prop c "0" ;;
    if negb (truthy c0) then ret true
    else c1 <- get_prop c "1" ;; ret (negb (truthy c1)).

Definition withinBox (this : loc) (field : string)
  (bottomLeftCoord upperRightCoord : value) : M value :=
  bad <- bad_pair bottomLeftCoord ;;
  if bad then throw (QueryError "bottomLeftCoord must be a [number, number]")
  else
    bad <- bad_pair upperRightCoord ;;
    if bad then throw (QueryError "upperRightCoord must be a [number, number]")
    else
      v <- get_prop bottomLeftCoord "0" ;; v <- parse_float v ;;
      set_prop bottomLeftCoord "0" v ;;;
      v <- get_prop bottomLeftCoord "1" ;; v <- parse_float v ;;
      set_prop bottomLeftCoord "1" v ;;;
      v <- get_prop upperRightCoord "0" ;; v <- parse_float v ;;
      set_prop upperRightCoord "0" v ;;;
      v <- get_prop upperRightCoord "1" ;; v <- parse_float v ;;
      set_prop upperRightCoord "1" v ;;;
      b0 <- get_prop bottomLeftCoord "0" ;;
      b1 <- get_prop bottomLeftCoord "1" ;;
      bl <- alloc (OArray [b0; b1]) ;;
      u0 <- get_prop upperRightCoord "0" ;;
      u1 <- get_prop upperRightCoord "1" ;;
      ur <- alloc (OArray [u0; u1]) ;;
      coords <- alloc (OArray [VRef bl; VRef ur]) ;;
      box <- alloc (OObject [("$box", VRef coords)]) ;;
      addFilter this field "$within" (VRef box).

Definition array_elems (v : value) : M (list value) :=
  l <- callee v ;;
  o <- read l ;;
  match o with
  | OArray es => ret es
  | _ => stuck_at Unmodelled
  end.

Definition withinPolygon (this : loc) (field : string) (coords : value)
  : M value :=
  is_array <- isArray coords ;;
  es <- (if is_array then array_elems coords else ret []) ;;
  if negb is_array || (3 <? length es)
  then throw (QueryError "coords must be [[number, number]]")
  else
    pairs <- mapM (fun coord =>
      c0 <- get_prop coord "0" ;;
      c1 <- (if truthy c0 then get_prop coord "1" else ret VUndefined) ;;
      if negb (truthy c0) || negb (truthy c1)
      then throw (QueryError "coords argument must be [number, number]")
      else
        c0 <- get_prop coord "0" ;; p0 <- parse_float c0 ;;
        c1 <- get_prop coord "1" ;; p1 <- parse_float c1 ;;
        l <- alloc (OArray [p0; p1]) ;;
        ret (VRef l)) es ;;
    coords <- alloc (OArray pairs) ;;
    polygon <- alloc (OObject [("$polygon", VRef coords)]) ;;
    addFilter this field "$within" (VRef polygon).

Definition Query_size (this : loc) (field : string) (size : value) : M value :=
  size <- (if isString size then parse_float size else ret size) ;;
  if negb (isNumber size)
  then throw (QueryError "size must be a number")
  else addFilter this field "$size" size.

(** *** Sort modifiers *)

Fixpoint ascending (fuel : nat) (this : loc) (field : string) : M value :=
  match fuel with
  | O => stuck_at OutOfFuel
  | S fuel' =>
      p <- get__parent this ;;
      (if truthy p then
         owner <- callee p ;; ascending fuel' owner field ;;; ret tt
       else
         s <- get_sort this ;; set_prop s field (num 1)) ;;;
      ret (VRef this)
  end.

Fixpoint descending (fuel : nat) (this : loc) (field : string) : M value :=
  match fuel with
  | O => stuck_at OutOfFuel
  | S fuel' =>
      p <- get__parent this ;;
      (if truthy p then
         owner <- callee p ;; descending fuel' owner field ;;; ret tt
       else
         s <- get_sort this ;; set_prop s field (num (-1))) ;;;
      ret (VRef this)
  end.

(** *** Joins *)

(** The callback of [queries.map] in [join]. *)
Definition join_operand (fuel : nat) (query : value) : M value :=
  is_query <- instanceof_Query query ;;
  query <- (if is_query then ret query
            else if isObject query then
              l <- Query_new fuel query ;; ret (VRef l)
            else throw (QueryError
              "query argument must be of type: Kinvey.Query[] or Object[].")) ;;
  l <- callee query ;;
  json <- toJSON fuel l ;;
  get_prop json "filter".

(** [join] returns [that]: the receiver, or the query it created when it
    was given no operand.  The array built by [map] and the one-element
    array of the empty case are temporaries that only [concat] reads;
    they are not given a place in the store. *)
Definition join (fuel : nat) (this : loc) (operator : string)
  (queries : list value) : M value :=
  currentQuery <- alloc (OObject []) ;;
  queries <- mapM (join_operand fuel) queries ;;
  r <- (if length queries =? 0 then
          that <- Query_new fuel VUndefined ;;
          json <- toJSON fuel that ;;
          f <- get_prop json "filter" ;;
          update_query that (with_parent (VRef this)) ;;;
          ret (that, [f])
        else ret (this, queries)) ;;
  let that := fst r in
  let queries := snd r in
  f <- get_filter this ;;
  members <- Object_keys f ;;
  forEach members tt (fun _ member =>
    f <- get_filter this ;;
    x <- get_prop f member ;;
    set_prop (VRef currentQuery) member x ;;;
    f <- get_filter this ;;
    delete_prop f member ;;;
    ret (tt, VUndefined)) ;;;
  joined <- alloc (OArray (VRef currentQuery :: queries)) ;;
  f <- get_filter this ;;
  set_prop f operator (VRef joined) ;;;
  ret (VRef that).

Definition Query_and (fuel : nat) (this : loc) (args : list value) : M value :=
  join fuel this "$and" args.

Fixpoint Query_nor (fuel : nat) (this : loc) (args : list value) : M value :=
  match fuel with
  | O => stuck_at OutOfFuel
  | S fuel' =>
      p <- get__parent this ;;
      redirect <- (if truthy p then
                     owner <- callee p ;;
                     f <- get_filter owner ;;
                     x <- get_prop f "$and" ;;
                     ret (truthy x)
                   else ret false) ;;
      if redirect then owner <- callee p ;; Query_nor fuel' owner args
      else join fuel this "$nor" args
  end.

Fixpoint Query_or (fuel : nat) (this : loc) (args : list value) : M value :=
  match fuel with
  | O => stuck_at OutOfFuel
  | S fuel' =>
      p <- get__parent this ;;
      if truthy p then owner <- callee p ;; Query_or fuel' owner args
      else join fuel this "$or" args
  end.

(** *** Local evaluation *)

Definition unsupported_message : M string :=
  forEach unsupportedFilters
    "This query is not able to run locally. The following filters are not supported locally:"
    (fun message filter =>
       ret (String.append message (String.append " " filter), VUndefined)).

(** The callback that the comparator of [process] hands to [forEach],
    with the value it returns for [field]. *)
Definition compare_field (json a b : value) (field : string) : M value :=
  h <- get_heap ;;
  let aField := nested h a field in
  let bField := nested h b field in
  if truthy aField && negb (truthy bField) then ret (num (-1))
  else if truthy bField && negb (truthy aField) then ret (num 1)
  else if negb (strict_eqb aField bField) then
    s <- get_prop json "sort" ;;
    modifier <- get_prop s field ;;
    h <- get_heap ;;
    ret (VNum (number_mul
                 (if less_than h aField bField then Finite (-1) else Finite 1)
                 (toNumber h modifier)))
  else ret (num 0).

(** The comparator [(a, b) => { ...; return 0; }] given to [data.sort]. *)
Definition comparator (json a b : value) : M number :=
  s <- get_prop json "sort" ;;
  fields <- Object_keys s ;;
  forEach fields tt (fun _ field =>
    r <- compare_field json a b field ;; ret (tt, r)) ;;;
  ret (Finite 0).

Definition number_positive (n : number) : bool :=
  match n with
  | NaN => false
  | Infinity negative => negb negative
  | Finite q => negb (Qle_bool q 0)
  end.

(** [Array.prototype.sort] as a stable insertion sort: an element moves
    behind the ones the comparator puts before it; [undefined] elements
    go last without being compared. *)
Fixpoint insert_sorted (cmp : value -> value -> M number) (x : value)
  (l : list value) : M (list value) :=
  match l with
  | [] => ret [x]
  | y :: l' =>
      c <- cmp x y ;;
      if number_positive c then r <- insert_sorted cmp x l' ;; ret (y :: r)
      else ret (x :: l)
  end.

Fixpoint sort_list (cmp : value -> value -> M number) (l : list value)
  : M (list value) :=
  match l with
  | [] => ret []
  | x :: l' => r <- sort_list cmp l' ;; insert_sorted cmp x r
  end.

Definition is_undefined (v : value) : bool :=
  match v with VUndefined => true | _ => false end.

Definition Array_sort (cmp : value -> value -> M number) (data : value)
  : M value :=
  es <- array_elems data ;;
  sorted <- sort_list cmp (List.filter (fun v => negb (is_undefined v)) es) ;;
  l <- callee data ;;
  write l (OArray (sorted ++ List.filter is_undefined es)) ;;;
  ret data.

Definition truncate (q : Q) : Z := Z.quot (Qnum q) (Z.pos (Qden q)).

Definition relative_index (len : nat) (n : number) : nat :=
  match n with
  | NaN => 0
  | Infinity negative => if negative then 0 else len
  | Finite q =>
      let z := truncate q in
      if (z <? 0)%Z then Z.to_nat (Z.max (Z.of_nat len + z) 0)
      else Nat.min (Z.to_nat z) len
  end.

(** [data.slice(start, end)] for numeric or absent bounds. *)
Definition Array_slice (data start end_ : value) : M value :=
  es <- array_elems data ;;
  let len := length es in
  from <- (match start with
           | VNum n => ret (relative_index len n)
           | VUndefined => ret 0
           | _ => stuck_at Unmodelled
           end) ;;
  to <- (match end_ with
         | VNum n => ret (relative_index len n)
         | VUndefined => ret len
         | _ => stuck_at Unmodelled
         end) ;;
  l <- alloc (OArray (firstn (to - from) (skipn from es))) ;;
  ret (VRef l).

(** [x + y] on numbers. *)
Definition plus (x y : value) : M value :=
  match x, y with
  | VNum n1, VNum n2 =>
      match number_add n1 n2 with
      | Some n => ret (VNum n)
      | None => stuck_at Unmodelled
      end
  | _, _ => stuck_at Unmodelled
  end.

(** [x > 0] *)
Definition greater_than_zero (x : value) : M bool :=
  match x with
  | VNum n => ret (number_positive n)
  | VUndefined | VNull => ret false
  | VBool b => ret b
  | _ => stuck_at Unmodelled
  end.

(** [json.fields.indexOf(key) === -1] *)
Definition not_listed (fields : value) (key : string) : M bool :=
  es <- array_elems fields ;;
  ret (negb (existsb (strict_eqb (VStr key)) es)).

Definition remove_fields (json item : value) : M value :=
  keys <- Object_keys item ;;
  forEach keys tt (fun _ key =>
    fields <- get_prop json "fields" ;;
    absent <- not_listed fields key ;;
    (if absent then delete_prop item key else ret tt) ;;;
    ret (tt, VUndefined)) ;;;
  ret item.

Definition process (fuel : nat) (this : loc) (data : value) : M value :=
  supported <- isSupportedOffline this ;;
  if negb supported then
    message <- unsupported_message ;;
    throw (QueryError message)
  else if truthy data then
    is_array <- isArray data ;;
    if negb is_array
    then throw (QueryError "data argument must be of type: Array.")
    else
      json <- toJSON fuel this ;;
      filter <- get_prop json "filter" ;;
      es <- array_elems data ;;
      h <- get_heap ;;
      kept <- lift (sift h filter es) ;;
      l <- alloc (OArray kept) ;;
      let data := VRef l in
      fields <- get_prop json "fields" ;;
      project <- (if truthy fields then
                    n <- get_prop fields "length" ;; greater_than_zero n
                  else ret false) ;;
      data <- (if project then
                 es <- array_elems data ;;
                 es <- mapM (remove_fields json) es ;;
                 l <- alloc (OArray es) ;;
                 ret (VRef l)
               else ret data) ;;
      data <- Array_sort (comparator json) data ;;
      limit <- get_prop json "limit" ;;
      if truthy limit then
        skip <- get_prop json "skip" ;;
        skip' <- get_prop json "skip" ;;
        limit <- get_prop json "limit" ;;
        to <- plus skip' limit ;;
        Array_slice data skip to
      else
        skip <- get_prop json "skip" ;;
        Array_slice data skip VUndefined
  else ret data.

End Query.

(** ** Programs over the public interface *)

(** One statement of client code: an object or array literal, [new
    Query(options)], an assignment to an accessor, or a method call. *)
Inductive op :=
| Object_literal (props : list (string * value))
| Array_literal (elems : list value)
| New (options : value)
| SetFields (this : loc) (v : value)
| SetFilter (this : loc) (v : value)
| SetSort (this : loc) (v : value)
| SetLimit (this : loc) (v : value)
| SetSkip (this : loc) (v : value)
| IsSupportedOffline (this : loc)
| EqualTo (this : loc) (field : string) (v : value)
| Contains (this : loc) (field : string) (v : value)
| ContainsAll (this : loc) (field : string) (v : value)
| GreaterThan (this : loc) (field : string) (v : value)
| GreaterThanOrEqualTo (this : loc) (field : string) (v : value)
| LessThan (this : loc) (field : string) (v : value)
| LessThanOrEqualTo (this : loc) (field : string) (v : value)
| NotEqualTo (this : loc) (field : string) (v : value)
| NotContainedIn (this : loc) (field : string) (v : value)
| And (this : loc) (args : list value)
| Nor (this : loc) (args : list value)
| Or (this : loc) (args : list value)
| Exists (this : loc) (field : string) (flag : value)
| Mod (this : loc) (field : string) (divisor remainder : value)
| Matches (this : loc) (field : string) (regExp : pattern) (options : value)
| Near (this : loc) (field : string) (coord maxDistance : value)
| WithinBox (this : loc) (field : string) (bottomLeftCoord upperRightCoord : value)
| WithinPolygon (this : loc) (field : string) (coords : value)
| Size (this : loc) (field : string) (size : value)
| Ascending (this : loc) (field : string)
| Descending (this : loc) (field : string)
| AddFilter (this : loc) (field condition : string) (v : value)
| ToPlainObject (this : loc)
| ToJSON (this : loc).

Section Programs.

Variable parseFloat : heap -> value -> number.
Variable RegExp : heap -> value -> outcome regexp.

(** A method is looked up on an instance of the class. *)
Definition on_query {A} (this : loc) (m : M A) : M A :=
  this_query this ;;; m.

Definition assigned (m : M unit) : M value := m ;;; ret VUndefined.

Definition run_op (fuel : nat) (o : op) : M value :=
  match o with
  | Object_literal props => l <- alloc (OObject props) ;; ret (VRef l)
  | Array_literal elems => l <- alloc (OArray elems) ;; ret (VRef l)
  | New options => l <- Query_new parseFloat fuel options ;; ret (VRef l)
  | SetFields this v => on_query this (assigned (set_fields fuel this v))
  | SetFilter this v => on_query this (assigned (set_filter this v))
  | SetSort this v => on_query this (assigned (set_sort this v))
  | SetLimit this v => on_query this (assigned (set_limit parseFloat fuel this v))
  | SetSkip this v => on_query this (assigned (set_skip parseFloat this v))
  | IsSupportedOffline this =>
      on_query this (b <- isSupportedOffline this ;; ret (VBool b))
  | EqualTo this field v => on_query this (equalTo this field v)
  | Contains this field v => on_query this (contains this field v)
  | ContainsAll this field v => on_query this (containsAll this field v)
  | GreaterThan this field v => on_query this (greaterThan this field v)
  | GreaterThanOrEqualTo this field v =>
      on_query this (greaterThanOrEqualTo this field v)
  | LessThan this field v => on_query this (lessThan this field v)
  | LessThanOrEqualTo this field v =>
      on_query this (lessThanOrEqualTo this field v)
  | NotEqualTo this field v => on_query this (notEqualTo this field v)
  | NotContainedIn this field v => on_query this (notContainedIn this field v)
  | And this args => on_query this (Query_and parseFloat fuel this args)
  | Nor this args => on_query this (Query_nor parseFloat fuel this args)
  | Or this args => on_query this (Query_or parseFloat fuel this args)
  | Exists this field flag => on_query this (Query_exists this field flag)
  | Mod this field divisor remainder =>
      on_query this (Query_mod parseFloat this field divisor remainder)
  | Matches this field regExp options =>
      on_query this (matches RegExp this field regExp options)
  | Near this field coord maxDistance =>
      on_query this (near this field coord maxDistance)
  | WithinBox this field bottomLeftCoord upperRightCoord =>
      on_query this
        (withinBox parseFloat this field bottomLeftCoord upperRightCoord)
  | WithinPolygon this field coords =>
      on_query this (withinPolygon parseFloat this field coords)
  | Size this field size => on_query this (Query_size parseFloat this field size)
  | Ascending this field => on_query this (ascending fuel this field)
  | Descending this field => on_query this (descending fuel this field)
  | AddFilter this field condition v =>
      on_query this (addFilter this field condition v)
  | ToPlainObject this => on_query this (toPlainObject fuel this)
  | ToJSON this => on_query this (toJSON fuel this)
  end.

(** Statements run in sequence; one that throws leaves the store as it
    is at the throw and the next statement runs, as client code that
    catches the exception would.  A statement that leaves the model ends
    the run: what the code does from there on is not described. *)
Fixpoint run (fuel : nat) (program : list op) (h : heap)
  : list (outcome value) * heap :=
  match program with
  | [] => ([], h)
  | o :: program' =>
      let r := run_op fuel o h in
      match fst r with
      | Stuck _ => ([fst r], snd r)
      | _ =>
          let rs := run fuel program' (snd r) in
          (fst r :: fst rs, snd rs)
      end
  end.

End Programs.

(** ** Reading a value back as a tree *)

Inductive tree :=
| TUndefined
| TNull
| TBool (b : bool)
| TNum (n : number)
| TStr (s : string)
| TObject (props : list (string * tree))
| TArray (elems : list tree)
| TQuery
| TDangling
| TDeep.

(** The value [v] with every reference replaced by what it refers to,
    down to [depth] references ([TDeep] below that: a store may hold
    cycles). *)
Fixpoint snapshot (depth : nat) (h : heap) (v : value) : tree :=
  match v with
  | VUndefined => TUndefined
  | VNull => TNull
  | VBool b => TBool b
  | VNum n => TNum n
  | VStr s => TStr s
  | VRef l =>
      match depth with
      | O => TDeep
      | S depth' =>
          match h !! l with
          | Some (OObject ps) =>
              TObject (map (fun kv => (fst kv, snapshot depth' h (snd kv))) ps)
          | Some (OArray es) => TArray (map (snapshot depth' h) es)
          | Some (OQuery _) => TQuery
          | None => TDangling
          end
      end
  end.

Definition tnum (z : Z) : tree := TNum (Finite (inject_Z z)).

(** The filter of the query at [this], as a tree. *)
Definition filter_tree (h : heap) (this : loc) : tree :=
  match h !! this with
  | Some (OQuery q) => snapshot 16 h (_filter q)
  | _ => TDangling
  end.

Definition sort_tree (h : heap) (this : loc) : tree :=
  match h !! this with
  | Some (OQuery q) => snapshot 16 h (_sort q)
  | _ => TDangling
  end.

(** ** Instances of the runtime, to run programs *)

Definition is_space (c : ascii) : bool :=
  let n := N_of_ascii c in
  ((n =? 32) || ((9 <=? n) && (n <=? 13)))%N.

Fixpoint skip_spaces (s : string) : string :=
  match s with
  | String c s' => if is_space c then skip_spaces s' else s
  | EmptyString => s
  end.

Fixpoint read_digits (s : string) (acc : Z) (count : nat) : Z * nat * string :=
  match s with
  | String c s' =>
      match digit_of c with
      | Some d => read_digits s' (acc * 10 + Z.of_N d)%Z (S count)
      | None => (acc, count, s)
      end
  | EmptyString => (acc, count, s)
  end.

Definition read_sign (s : string) : bool * string :=
  match s with
  | String "-" s' => (true, s')
  | String "+" s' => (false, s')
  | _ => (false, s)
  end.

(** The exponent part of a decimal literal, 0 when there is none. *)
Definition read_exponent (s : string) : Z :=
  match s with
  | String c s' =>
      if (Ascii.eqb c "e" || Ascii.eqb c "E")%bool then
        let '(negative, s'') := read_sign s' in
        let '(e, count, _) := read_digits s'' 0%Z 0 in
        if count =? 0 then 0%Z else if negative then (- e)%Z else e
      else 0%Z
  | EmptyString => 0%Z
  end.

(** The longest prefix of [s] that is a decimal literal, as a number:
    what [parseFloat] answers for a string, up to rounding. *)
Definition parse_decimal (s : string) : number :=
  let '(negative, s1) := read_sign (skip_spaces s) in
  if String.prefix "Infinity" s1 then Infinity negative
  else
    let '(i, ni, s2) := read_digits s1 0%Z 0 in
    let '(m, nf, s3) := match s2 with
                        | String "." s' => read_digits s' i 0
                        | _ => (i, 0, s2)
                        end in
    if ni + nf =? 0 then NaN
    else
      let e := (read_exponent s3 - Z.of_nat nf)%Z in
      let q := Qred (inject_Z m * Qpower (inject_Z 10) e) in
      Finite (if negative then Qopp q else q).

(** [parseFloat] on numbers and strings; the other primitives and plain
    objects convert to text that starts no number. *)
Definition parseFloat_decimal (h : heap) (v : value) : number :=
  match v with
  | VNum n => n
  | VStr s => parse_decimal s
  | _ => NaN
  end.

(** [new RegExp(s)] for a string that is a well-formed pattern with
    nothing to escape. *)
Definition RegExp_plain (h : heap) (v : value) : outcome regexp :=
  match v with
  | VStr s => Ret (mkRegExp (if String.eqb s "" then "(?:)" else s) false false)
  | VUndefined => Ret (mkRegExp "(?:)" false false)
  | _ => Stuck Unmodelled
  end.

(** A matcher that keeps every record, as [sift] does for the filter [{}]. *)
Definition sift_all (h : heap) (filter : value) (data : list value)
  : outcome (list value) := Ret data.

(** [nested] for a field name without dots: the own property. *)
Definition nested_own (h : heap) (o : value) (field : string) : value :=
  match o with
  | VUndefined | VNull => o
  | _ => match fst (get_prop o field h) with
         | Ret v => v
         | _ => VUndefined
         end
  end.

Definition toNumber_primitive (h : heap) (v : value) : number :=
  match v with
  | VNum n => n
  | VBool b => Finite (inject_Z (if b then 1 else 0))
  | VNull => Finite 0
  | _ => NaN
  end.

(** [<] on two numbers. *)
Definition less_than_number (h : heap) (x y : value) : bool :=
  match x, y with
  | VNum (Finite p), VNum (Finite q) => negb (Qle_bool q p)
  | VNum (Infinity true), VNum (Finite _)
  | VNum (Finite _), VNum (Infinity false)
  | VNum (Infinity true), VNum (Infinity false) => true
  | _, _ => false
  end.

(** Programs run with the instances above. *)
Definition exec (program : list op) : list (outcome value) * heap :=
  run parseFloat_decimal RegExp_plain 8 program [].

(** ** The query string *)

(** lodash [isEmpty(v)]: no member for an array or a string, no own
    property for an object; numbers and booleans are empty. *)
Definition isEmpty (v : value) : M bool :=
  match v with
  | VUndefined | VNull | VBool _ | VNum _ => ret true
  | VStr s => ret (String.length s =? 0)
  | VRef l =>
      o <- read l ;;
      match o with
      | OObject ps => ret (length ps =? 0)
      | OArray es => ret (length es =? 0)
      | OQuery _ => ret false
      end
  end.

(** The text of a member in [Array.prototype.join]: nothing for [null]
    and [undefined].  Members that are not strings are outside the model. *)
Definition join_member (v : value) : option string :=
  match v with
  | VUndefined | VNull => Some ""
  | VStr s => Some s
  | _ => None
  end.

Fixpoint join_members (es : list value) : option (list string) :=
  match es with
  | [] => Some []
  | v :: es' =>
      match join_member v, join_members es' with
      | Some s, Some l => Some (s :: l)
      | _, _ => None
      end
  end.

(** [v.join(separator)] on an array. *)
Definition Array_join (separator : string) (v : value) : M value :=
  es <- array_elems v ;;
  match join_members es with
  | Some l => ret (VStr (String.concat separator l))
  | None => stuck_at Unmodelled
  end.

Section QueryString.

(** [JSON.stringify], which the class takes from the runtime. *)
Variable JSON_stringify : heap -> value -> outcome value.

(** [queryString[key] = isString(queryString[key]) ? queryString[key]
    : JSON.stringify(queryString[key])] *)
Definition stringify_entry (queryString : value) (key : string) : M unit :=
  x <- get_prop queryString key ;;
  y <- (if isString x then get_prop queryString key
        else
          x' <- get_prop queryString key ;;
          h <- get_heap ;;
          lift (JSON_stringify h x')) ;;
  set_prop queryString key y.

Definition toQueryString (this : loc) : M value :=
  l <- alloc (OObject []) ;;
  let queryString := VRef l in
  filter <- get_filter this ;;
  empty <- isEmpty filter ;;
  (if negb empty then
     filter <- get_filter this ;; set_prop queryString "query" filter
   else ret tt) ;;;
  fields <- get_fields this ;;
  empty <- isEmpty fields ;;
  (if negb empty then
     fields <- get_fields this ;;
     joined <- Array_join "," fields ;;
     set_prop queryString "fields" joined
   else ret tt) ;;;
  limit <- get_limit this ;;
  (if truthy limit then
     limit <- get_limit this ;; set_prop queryString "limit" limit
   else ret tt) ;;;
  skip <- get_skip this ;;
  positive <- greater_than_zero skip ;;
  (if positive then
     skip <- get_skip this ;; set_prop queryString "skip" skip
   else ret tt) ;;;
  sort <- get_sort this ;;
  empty <- isEmpty sort ;;
  (if negb empty then
     sort <- get_sort this ;; set_prop queryString "sort" sort
   else ret tt) ;;;
  keys <- Object_keys queryString ;;
  forEach keys tt (fun _ key =>
    stringify_entry queryString key ;;; ret (tt, VUndefined)) ;;;
  ret queryString.

Definition Query_toString (this : loc) : M value :=
  queryString <- toQueryString this ;;
  h <- get_heap ;;
  lift (JSON_stringify h queryString).

End QueryString.

(** The entries of the query string of [q] before they are turned into
    text, given the entries [filter] and [sort] of its filter and sort
    objects and the members [fields] of its array of fields. *)
Definition query_string_entries (q : query) (filter : list (string * value))
  (fields : list string) (sort : list (string * value))
  : list (string * value) :=
  (if length filter =? 0 then [] else [("query", _filter q)])
  ++ (if length fields =? 0 then []
      else [("fields", VStr (String.concat "," fields))])
  ++ (if truthy (_limit q) then [("limit", _limit q)] else [])
  ++ (match _skip q with
      | VNum n => if number_positive n then [("skip", _skip q)] else []
      | _ => []
      end)
  ++ (if length sort =? 0 then [] else [("sort", _sort q)]).

(** An integer in decimal notation, as [JSON.stringify] writes it. *)
Definition decimal_of (z : Z) : string :=
  NilZero.string_of_int (Z.to_int z).

(** [JSON.stringify] for integers, [null], booleans and references to
    empty objects and arrays. *)
Definition JSON_stringify_plain (h : heap) (v : value) : outcome value :=
  match v with
  | VNull => Ret (VStr "null")
  | VBool b => Ret (VStr (if b then "true" else "false"))
  | VNum (Finite q) =>
      if (Zpos (Qden q) =? 1)%Z then Ret (VStr (decimal_of (Qnum q)))
      else Stuck Unmodelled
  | VRef l =>
      match h !! l with
      | Some (OObject []) => Ret (VStr "{}")
      | Some (OArray []) => Ret (VStr "[]")
      | _ => Stuck Unmodelled
      end
  | _ => Stuck Unmodelled
  end.

(** ** Predicates used in the statements *)

(** The keys of an array that the model reads: the indices, [length] and
    the names of operators. *)
Definition array_key (k : string) : bool :=
  match parse_index k with
  | Some _ => true
  | None => String.eqb k "length" || operator_name k
  end.

(** [m] never throws a [QueryError]. *)
Definition quiet {A} (m : M A) : Prop :=
  forall h msg, fst (m h) <> Throw (QueryError msg).

(** [m] leaves the store as it is. *)
Definition pure {A} (m : M A) : Prop :=
  forall h, snd (m h) = h.

(** A query without an owner in [_parent]: one under construction, or
    one whose constructor has run to its end. *)
Definition unscoped (q : query) : Prop :=
  _parent q = VUndefined \/ _parent q = VNull.

(** The constructor ends with [this._parent = null]. *)
Definition constructed (q : query) : Prop := _parent q = VNull.

Definition is_array_in (h : heap) (v : value) : Prop :=
  exists l es, v = VRef l /\ h !! l = Some (OArray es).

(** What the setter of [limit] lets through: no string, and nothing
    truthy but a number. *)
Definition limit_ok (v : value) : Prop :=
  isString v = false /\ (truthy v = true -> isNumber v = true).

(** What the setters let through, for the four validated components. *)
Definition well_formed (h : heap) (q : query) : Prop :=
  is_array_in h (_fields q)
  /\ isObject (_sort q) = true
  /\ limit_ok (_limit q)
  /\ isNumber (_skip q) = true.

Definition query_ok (h : heap) (q : query) : Prop :=
  unscoped q /\ (constructed q -> well_formed h q).

Definition queries_ok (h : heap) : Prop :=
  forall l q, h !! l = Some (OQuery q) -> query_ok h q.

(** [m] keeps every query of the store in that state. *)
Definition keeps {A} (m : M A) : Prop :=
  forall h, queries_ok h -> queries_ok (snd (m h)).

(** The invariant as the specification words it: a limit that is present
    is a finite number, the skip is a finite number that is not negative. *)
Definition finite_number (v : value) : bool :=
  match v with
  | VNum n => isFinite n
  | _ => false
  end.

Definition finite_non_negative (v : value) : bool :=
  match v with
  | VNum (Finite q) => Qle_bool 0 q
  | _ => false
  end.

Definition limit_and_skip_finite (q : query) : bool :=
  match _limit q with
  | VUndefined | VNull => true
  | v => finite_number v
  end && finite_non_negative (_skip q).

(** [m], run in a store of at least [n] objects whose queries are as they
    should be, writes only above [n], never shrinks the store, and returns
    values in [R]. *)
Definition frame (n : nat) {A} (m : M A) (R : A -> Prop) : Prop :=
  forall h, queries_ok h -> n <= length h ->
    length h <= length (snd (m h))
    /\ (forall l, l < n -> snd (m h) !! l = h !! l)
    /\ (forall a, fst (m h) = Ret a -> R a).

(** [if (isString(v)) v = parseFloat(v)] *)
Definition coerce (parseFloat : heap -> value -> number) (h : heap) (v : value)
  : value :=
  if isString v then VNum (parseFloat h v) else v.

(** A parameter with the default value 0. *)
Definition or_zero (v : value) : value :=
  match v with VUndefined => num 0 | _ => v end.

(** The operator mapping [x] has the operator [p], whatever its operand. *)
Definition has_operator (h : heap) (x : value) (p : string) : bool :=
  match x with
  | VRef l =>
      match h !! l with
      | Some (OObject ps) =>
          match lookup_own p ps with Some _ => true | None => false end
      | _ => false
      end
  | _ => false
  end.

(** Some top-level field of the filter [ps] uses the operator [p]. *)
Definition top_level_uses (h : heap) (ps : list (string * value)) (p : string)
  : bool :=
  existsb (fun kv => has_operator h (snd kv) p) ps.

(** The options of [matches]: absent, or a plain object. *)
Definition plain_options (h : heap) (options : value) : Prop :=
  options = VUndefined
  \/ exists l ps, options = VRef l /\ h !! l = Some (OObject ps).

Definition option_value (h : heap) (options : value) (name : string) : value :=
  match options with
  | VRef l =>
      match h !! l with
      | Some (OObject ps) => or_undefined (lookup_own name ps)
      | _ => VUndefined
      end
  | _ => VUndefined
  end.

(** Case-insensitivity is asked for, by the expression or by the options,
    and [options.ignoreCase] is not [false]. *)
Definition wants_ignoreCase (r : regexp) (o_ignoreCase : value) : bool :=
  (ignoreCase r || truthy o_ignoreCase)
  && negb (strict_eqb o_ignoreCase (VBool false)).

(** How tightly a combinator binds, in the words of the specification:
    AND tightest, NOR next, OR loosest. *)
Definition binding (k : string) : option nat :=
  if String.eqb k "$and" then Some 2
  else if String.eqb k "$nor" then Some 1
  else if String.eqb k "$or" then Some 0
  else None.

(** In the tree [t], read below a combinator of strength [bound], no
    combinator binds more loosely than the one it is an operand of. *)
Fixpoint precedence_from (bound : nat) (t : tree) {struct t} : bool :=
  match t with
  | TObject props =>
      (fix entries (ps : list (string * tree)) : bool :=
         match ps with
         | [] => true
         | (k, v) :: ps' =>
             match binding k with
             | Some strength => (bound <=? strength) && precedence_from strength v
             | None => precedence_from bound v
             end && entries ps'
         end) props
  | TArray elems =>
      (fix operands (es : list tree) : bool :=
         match es with
         | [] => true
         | e :: es' => precedence_from bound e && operands es'
         end) elems
  | _ => true
  end.

Definition precedence_respected (t : tree) : bool := precedence_from 0 t.

(** The filters of the queries at [subs], as [join] collects them. *)
Definition sub_filters (h : heap) (subs : list loc) : list value :=
  map (fun s => match h !! s with
                | Some (OQuery q) => _filter q
                | _ => VUndefined
                end) subs.

Definition unscoped_query (h : heap) (s : loc) : Prop :=
  exists q, h !! s = Some (OQuery q) /\ truthy (_parent q) = false.

(** The plain objects that [toJSON] creates for the operands of a join. *)
Definition plain_objects (h : heap) (subs : list loc) : list object :=
  map (fun s => match h !! s with
                | Some (OQuery q) =>
                    OObject [("fields", _fields q); ("filter", _filter q);
                             ("sort", _sort q); ("skip", _skip q);
                             ("limit", _limit q)]
                | _ => OObject []
                end) subs.

(** The store after a join of the filter [ps], held by the object at
    [lf], with the queries at [subs]: a new object takes the entries [ps],
    the plain objects of the operands follow, then the array of the join,
    which is the one entry left in the filter. *)
Definition joined_store (h : heap) (lf : loc) (ps : list (string * value))
  (operator : string) (subs : list loc) : heap :=
  <[lf := OObject [(operator, VRef (S (length h + length subs)))]]>
    (h ++ OObject ps :: plain_objects h subs
       ++ [OArray (VRef (length h) :: sub_filters h subs)]).



(** [q.equalTo('a', 1).and().equalTo('b', 2).or().equalTo('c', 3)]: each
    call is made on what the call before returned. *)
Definition fluent_and_or : list op :=
  [New VUndefined; EqualTo 0 "a" (num 1);
   And 0 []; EqualTo 7 "b" (num 2);
   Or 7 []; EqualTo 16 "c" (num 3)].

(** [c = q.or()], then [c.ascending('a')], [c.limit = 5], [c.skip = 2],
    [c.equalTo('b', 2)] and [c.toPlainObject()]. *)
Definition scoped_program : list op :=
  [New VUndefined; Or 0 [];
   Ascending 6 "a"; SetLimit 6 (num 5); SetSkip 6 (num 2);
   EqualTo 6 "b" (num 2); ToPlainObject 6].

(** The records [{x: 1}] and [{}], an array holding the second before the
    first, and a query sorted on [x] ascending. *)
Definition sort_program : list op :=
  [ Object_literal [("x", num 1)];
    Object_literal [];
    Array_literal [VRef 1; VRef 0];
    New VUndefined;
    Ascending 3 "x";
    ToJSON 3 ].

(** The objects of [h] are still there in [h'], arrays as arrays. *)
Definition arrays_kept (h h' : heap) : Prop :=
  forall l es, h !! l = Some (OArray es) -> exists es', h' !! l = Some (OArray es').

(** [this] is under construction in [h], and its properties so far
    satisfy [P]. *)
Definition building (this : loc) (P : heap -> query -> Prop) (h : heap) : Prop :=
  queries_ok h
  /\ exists q, h !! this = Some (OQuery q) /\ _parent q = VUndefined /\ P h q.

(** One assignment of the constructor: a statement that, when it returns,
    has stored in [this] a value accepted by [ok]. *)
Definition assigns (this : loc) (m : M unit) (f : value -> query -> query)
  (ok : heap -> value -> Prop) : Prop :=
  forall h q h1,
    queries_ok h -> h !! this = Some (OQuery q) -> _parent q = VUndefined ->
    m h = (Ret tt, h1) ->
    exists v, ok h1 v /\ h1 !! this = Some (OQuery (f v q))
              /\ arrays_kept h h1.

(** An outcome that the model describes: a value or an exception. *)
Definition modelled {A} (o : outcome A) : bool :=
  match o with
  | Stuck _ => false
  | _ => true
  end.

(** A name that is not the name of a member of [Object.prototype]. *)
Definition ordinary (k : string) : bool := negb (inherited k).

(** A name under which an assignment to a plain object writes an own
    property: any name but [__proto__], the one accessor that plain objects
    inherit, whose setter changes the prototype instead. *)
Definition assignable (k : string) : bool := negb (String.eqb k "__proto__").

(** The names of fields, conditions and properties that a statement
    gives are ordinary ones. *)
Definition ordinary_names (o : op) : bool :=
  match o with
  | Object_literal props => forallb (fun kv => ordinary (fst kv)) props
  | EqualTo _ field _ | Contains _ field _ | ContainsAll _ field _
  | GreaterThan _ field _ | GreaterThanOrEqualTo _ field _
  | LessThan _ field _ | LessThanOrEqualTo _ field _
  | NotEqualTo _ field _ | NotContainedIn _ field _
  | Exists _ field _ | Mod _ field _ _ | Matches _ field _ _
  | Near _ field _ _ | WithinBox _ field _ _ | WithinPolygon _ field _
  | Size _ field _ | Ascending _ field | Descending _ field => ordinary field
  | AddFilter _ field condition _ => ordinary field && ordinary condition
  | _ => true
  end.

(** A program on plain data: its names are ordinary, and none of its
    statements leaves the model when it runs from the empty store.  That
    excludes, with the runs that exhaust the fuel, the programs that read or
    write the properties of a [Query] instance through a computed key, by
    making the instance the filter or the sort of a query or the value of a
    field of a filter; those that name a member of a built-in prototype; and
    those that give an array a property that is not an index. *)
Definition plain_program (outcomes : list (outcome value)) (program : list op)
  : Prop :=
  forallb ordinary_names program = true /\ forallb modelled outcomes = true.

(** Setting the two from strings, on a new query. *)
Definition paging_program : list op :=
  [New VUndefined; SetSkip 0 (VStr "-1"); SetLimit 0 (VStr "Infinity")].

Definition paged : query :=
  mkQuery (VRef 1) (VRef 2) (VRef 3) (VNum (Infinity false)) (num (-1)) VNull
    VUndefined.

(** [assign] from a plain object to another one: each key of the source,
    in order, is set in the target. *)
Definition assigned_props (sps tps : list (string * value))
  : list (string * value) :=
  fold_left (fun acc k => set_own k (or_undefined (lookup_own k sps)) acc)
    (map fst sps) tps.

(** The properties that the constructor takes when an option is absent. *)
Definition default_options (n : loc) : list (string * value) :=
  [("fields", VRef (n + 1)); ("filter", VRef (n + 2)); ("sort", VRef (n + 3));
   ("limit", VNull); ("skip", num 0)].

(** The store after a join without operands, on the query at [this]
    whose filter, the object at [lf], has the entries [ps]: a new object
    takes the entries, a new query follows with its three containers, the
    options of its constructor and its plain object, then the array of the
    join, whose second member is the filter object of the new query. *)
Definition scope_store (h : heap) (this lf : loc) (ps : list (string * value))
  (operator : string) : heap :=
  let n := length h in
  <[lf := OObject [(operator, VRef (n + 7))]]>
    (h ++ [OObject ps;
           OQuery (mkQuery (VRef (n + 2)) (VRef (n + 3)) (VRef (n + 4)) VNull
                     (num 0) VNull (VRef this));
           OArray []; OObject []; OObject [];
           OObject (default_options (n + 1));
           OObject [("fields", VRef (n + 2)); ("filter", VRef (n + 3));
                    ("sort", VRef (n + 4)); ("skip", num 0);
                    ("limit", VNull)];
           OArray [VRef n; VRef (n + 3)]]).

(** The only [QueryError] that [m] throws, if it throws one, has the
    message [msg]. *)
Definition raises_only (msg : string) {A} (m : M A) : Prop :=
  forall h msg', fst (m h) = Throw (QueryError msg') -> msg' = msg.

(** The own property [k] of an options object, or the default [d]. *)
Definition option_or (ops : list (string * value)) (k : string) (d : value)
  : value :=
  match lookup_own k ops with
  | Some v => v
  | None => d
  end.

(** The query that the constructor makes of the options [ops], in a
    store of [n] objects. *)
Definition query_of_options (ops : list (string * value)) (n : loc) : query :=
  mkQuery (option_or ops "fields" (VRef (n + 1)))
          (option_or ops "filter" (VRef (n + 2)))
          (option_or ops "sort" (VRef (n + 3)))
          (option_or ops "limit" VNull)
          (option_or ops "skip" (num 0))
          VNull VUndefined.

(** Options that the setters take as they are. *)
Definition valid_options (h : heap) (ops : list (string * value)) : Prop :=
  (forall v, lookup_own "fields" ops = Some v -> is_array_in h v)
  /\ (forall v, lookup_own "sort" ops = Some v -> isObject v = true)
  /\ (forall v, lookup_own "limit" ops = Some v -> limit_ok v)
  /\ (forall v, lookup_own "skip" ops = Some v -> isNumber v = true).


(** What [data.sort] leaves when its comparator answers 0 for every
    pair: the members in their order, the [undefined] ones last. *)
Definition undefined_last (l : list value) : list value :=
  List.filter (fun v => negb (is_undefined v)) l ++ List.filter is_undefined l.

(** The sum [skip + limit] is one that binary64 has exactly, or is not
    computed because the limit is falsy. *)
Definition exact_page (skip : number) (limit : value) : Prop :=
  match limit with
  | VNum n => number_truthy n = true -> number_add skip n <> None
  | _ => True
  end.

(** [data.slice(skip, skip + limit)] when the limit is truthy,
    [data.slice(skip)] otherwise. *)
Definition page_of (skip : number) (limit : value) (l : list value)
  : list value :=
  let len := length l in
  let from := relative_index len skip in
  let to := match limit with
            | VNum n =>
                if number_truthy n then
                  match number_add skip n with
                  | Some sum => relative_index len sum
                  | None => len
                  end
                else len
            | _ => len
            end in
  firstn (to - from) (skipn from l).

(** The property [kv] is named in the array [fs] of selected fields. *)
Definition listed (fs : list value) (kv : string * value) : bool :=
  existsb (strict_eqb (VStr (fst kv))) fs.

(** The plain object that [toPlainObject] makes of the query [q]. *)
Definition plain_object_of (q : query) : object :=
  OObject [("fields", _fields q); ("filter", _filter q); ("sort", _sort q);
           ("skip", _skip q); ("limit", _limit q)].

(** A store that holds the query [q] with an array, two objects and the
    mapping [{$exists: true}], and what comes of copying [q] there through
    its plain object: the outcome of [q.toPlainObject()] and that of
    [new Query] of the result. *)
Definition copy_through_plain_object
  (parseFloat : heap -> value -> number) (q : query)
  : outcome value * outcome loc :=
  let h := [OQuery q; OArray []; OObject []; OObject [];
            OObject [("$exists", VBool true)]] in
  (fst (toPlainObject 8 0 h),
   fst (Query_new parseFloat 8 (VRef 5) (h ++ [plain_object_of q]))).

(** The store after the selected fields [fs] were applied to the records
    [records]: each record that is a plain object keeps the properties that
    are listed. *)
Definition project_store (fs : list value) (records : list value) (h : heap)
  : heap :=
  fold_left
    (fun h' v =>
       match v with
       | VRef l =>
           match h' !! l with
           | Some (OObject ps) => <[l := OObject (List.filter (listed fs) ps)]> h'
           | _ => h'
           end
       | _ => h'
       end) records h.

(** The message of [process] for a query that cannot run locally. *)
Definition not_supported_locally : string :=
  "This query is not able to run locally. The following filters are not supported locally: $nearSphere".

(** A record of the store: a plain object, whose keys are distinct. *)
Definition plain_record (h : heap) (v : value) : Prop :=
  exists l ps, v = VRef l /\ h !! l = Some (OObject ps) /\ NoDup (map fst ps).

(** * Properties *)

(** ** Running the monad *)

Lemma bind_Ret {A B} (m : M A) (f : A -> M B) h a h1 :
  m h = (Ret a, h1) -> bind m f h = f a h1.
Proof. intros E. unfold bind. now rewrite E. Qed.

Lemma bind_Throw {A B} (m : M A) (f : A -> M B) h e h1 :
  m h = (Throw e, h1) -> bind m f h = (Throw e, h1).
Proof. intros E. unfold bind. now rewrite E. Qed.

Lemma bind_Stuck {A B} (m : M A) (f : A -> M B) h s h1 :
  m h = (Stuck s, h1) -> bind m f h = (Stuck s, h1).
Proof. intros E. unfold bind. now rewrite E. Qed.

Lemma bind_unfold {A B} (m : M A) (f : A -> M B) h :
  bind m f h = match m h with
               | (Ret a, h1) => f a h1
               | (Throw e, h1) => (Throw e, h1)
               | (Stuck s, h1) => (Stuck s, h1)
               end.
Proof. reflexivity. Qed.

Lemma bind_not_Ret {A B} (m : M A) (f : A -> M B) h :
  (forall a h', forall b, fst (f a h') <> Ret b) ->
  forall b, fst (bind m f h) <> Ret b.
Proof.
  intros Hf b. rewrite bind_unfold.
  destruct (m h) as [[a | e | s] h1]; simpl; try discriminate. apply Hf.
Qed.

Lemma bind_ret {A B} (a : A) (f : A -> M B) h : bind (ret a) f h = f a h.
Proof. reflexivity. Qed.

Lemma bind_alloc {B} o (f : loc -> M B) (h : heap) :
  bind (alloc o) f h = f (length h) (h ++ [o]).
Proof. reflexivity. Qed.

Lemma bind_get_heap {B} (f : heap -> M B) h : bind get_heap f h = f h h.
Proof. reflexivity. Qed.

Lemma read_Some l o (h : heap) : h !! l = Some o -> read l h = (Ret o, h).
Proof. intros E. unfold read. now rewrite E. Qed.

Lemma this_query_Some l q (h : heap) :
  h !! l = Some (OQuery q) -> this_query l h = (Ret q, h).
Proof.
  intros E. unfold this_query. now rewrite (bind_Ret _ _ _ _ _ (read_Some _ _ _ E)).
Qed.

(** An own property of a plain object. *)
Lemma get_prop_own l ps k x (h : heap) :
  h !! l = Some (OObject ps) ->
  lookup_own k ps = Some x ->
  get_prop (VRef l) k h = (Ret x, h).
Proof.
  intros E Ex. unfold get_prop.
  rewrite (bind_Ret _ _ _ _ _ (read_Some _ _ _ E)). now rewrite Ex.
Qed.

(** A property of a plain object whose name is not the name of a member
    of [Object.prototype]. *)
Lemma get_prop_object l ps k (h : heap) :
  h !! l = Some (OObject ps) ->
  inherited k = false ->
  get_prop (VRef l) k h = (Ret (or_undefined (lookup_own k ps)), h).
Proof.
  intros E Hk. unfold get_prop, absent_from_object.
  rewrite (bind_Ret _ _ _ _ _ (read_Some _ _ _ E)).
  destruct (lookup_own k ps); [reflexivity |]. now rewrite Hk.
Qed.

(** The name of an operator is no index and names no member of
    [Object.prototype]. *)
Lemma operator_not_inherited k : operator_name k = true -> inherited k = false.
Proof.
  destruct k as [| c k]; [discriminate |].
  destruct c as [[|] [|] [|] [|] [|] [|] [|] [|]]; try discriminate.
  intros _. reflexivity.
Qed.

Lemma operator_not_index k : operator_name k = true -> parse_index k = None.
Proof.
  destruct k as [| c k]; [discriminate |].
  destruct c as [[|] [|] [|] [|] [|] [|] [|] [|]]; try discriminate.
  intros _. reflexivity.
Qed.

Lemma get_prop_array l es k (h : heap) :
  h !! l = Some (OArray es) ->
  array_key k = true ->
  get_prop (VRef l) k h = (Ret (or_undefined (array_own es k)), h).
Proof.
  intros E Hk. unfold get_prop, absent_from_builtin.
  rewrite (bind_Ret _ _ _ _ _ (read_Some _ _ _ E)).
  destruct (array_own es k) eqn:Ea; [reflexivity |].
  unfold array_key in Hk. unfold array_own in Ea.
  destruct (parse_index k); [reflexivity |].
  destruct (String.eqb k "length"); [discriminate |].
  simpl in Hk. now rewrite Hk.
Qed.

Lemma Object_keys_object l ps (h : heap) :
  h !! l = Some (OObject ps) -> Object_keys (VRef l) h = (Ret (map fst ps), h).
Proof.
  intros E. unfold Object_keys, keys_of.
  now rewrite (bind_Ret _ _ _ _ _ (read_Some _ _ _ E)).
Qed.

(** Two stores built by assignments over the same store are equal when
    they agree at every location. *)
Ltac heap_eq :=
  apply list_eq; intros ?;
  rewrite ?list_lookup_insert, ?length_insert;
  repeat case_decide; try reflexivity;
  try (exfalso; intuition (subst; (lia || congruence))).

(** ** Methods that throw no QueryError, methods that write nothing *)

Lemma quiet_bind {A B} (m : M A) (f : A -> M B) :
  quiet m -> (forall a, quiet (f a)) -> quiet (bind m f).
Proof.
  intros Hm Hf h msg. unfold bind.
  destruct (m h) as [[a | e | s] h1] eqn:E; simpl.
  - apply Hf.
  - specialize (Hm h msg). rewrite E in Hm. simpl in Hm.
    intros K. injection K as ->. now apply Hm.
  - discriminate.
Qed.

Lemma pure_bind {A B} (m : M A) (f : A -> M B) :
  pure m -> (forall a, pure (f a)) -> pure (bind m f).
Proof.
  intros Hm Hf h. unfold bind. specialize (Hm h).
  destruct (m h) as [[a | e | s] h1] eqn:E; simpl in *; subst; auto.
  apply Hf.
Qed.

Lemma pure_heap {A} (m : M A) h o h1 : pure m -> m h = (o, h1) -> h1 = h.
Proof. intros Hp E. specialize (Hp h). now rewrite E in Hp. Qed.

Lemma quiet_ret {A} (a : A) : quiet (ret a).
Proof. intros h msg. discriminate. Qed.

Lemma pure_ret {A} (a : A) : pure (ret a).
Proof. intros h. reflexivity. Qed.

Lemma quiet_TypeError {A} s : quiet (@throw A (TypeError s)).
Proof. intros h msg. discriminate. Qed.

Lemma pure_throw {A} e : pure (@throw A e).
Proof. intros h. reflexivity. Qed.

Lemma quiet_stuck_at {A} s : quiet (@stuck_at A s).
Proof. intros h msg. discriminate. Qed.

Lemma pure_stuck_at {A} s : pure (@stuck_at A s).
Proof. intros h. reflexivity. Qed.

Lemma quiet_get_heap : quiet get_heap.
Proof. intros h msg. discriminate. Qed.

Lemma pure_get_heap : pure get_heap.
Proof. intros h. reflexivity. Qed.

Lemma quiet_alloc o : quiet (alloc o).
Proof. intros h msg. discriminate. Qed.

Lemma quiet_read l : quiet (read l).
Proof. intros h msg. unfold read. destruct (h !! l); discriminate. Qed.

Lemma pure_read l : pure (read l).
Proof. intros h. unfold read. destruct (h !! l); reflexivity. Qed.

Lemma quiet_write l o : quiet (write l o).
Proof. intros h msg. discriminate. Qed.

Create HintDb js.
#[local] Hint Resolve quiet_ret pure_ret quiet_TypeError pure_throw
  quiet_stuck_at pure_stuck_at quiet_get_heap pure_get_heap quiet_alloc
  quiet_read pure_read quiet_write : js.

(** Goes through a method statement by statement. *)
Ltac through :=
  repeat first
    [ progress auto with js
    | apply quiet_bind; [ | intros ]
    | apply pure_bind; [ | intros ]
    | match goal with
      | |- quiet (if ?b then _ else _) => destruct b
      | |- pure (if ?b then _ else _) => destruct b
      | |- quiet (match ?v with _ => _ end) => destruct v
      | |- pure (match ?v with _ => _ end) => destruct v
      | |- quiet (let x := _ in _) => cbv zeta
      | |- pure (let x := _ in _) => cbv zeta
      end ].

Lemma quiet_isArray v : quiet (isArray v).
Proof. unfold isArray. through. Qed.

Lemma pure_isArray v : pure (isArray v).
Proof. unfold isArray. through. Qed.

Lemma quiet_instanceof_Query v : quiet (instanceof_Query v).
Proof. unfold instanceof_Query. through. Qed.

Lemma pure_instanceof_Query v : pure (instanceof_Query v).
Proof. unfold instanceof_Query. through. Qed.

Lemma quiet_absent_from_object k : quiet (absent_from_object k).
Proof. unfold absent_from_object. through. Qed.

Lemma pure_absent_from_object k : pure (absent_from_object k).
Proof. unfold absent_from_object. through. Qed.

Lemma quiet_absent_from_builtin k : quiet (absent_from_builtin k).
Proof. unfold absent_from_builtin. through. Qed.

Lemma pure_absent_from_builtin k : pure (absent_from_builtin k).
Proof. unfold absent_from_builtin. through. Qed.

#[local] Hint Resolve quiet_absent_from_object pure_absent_from_object
  quiet_absent_from_builtin pure_absent_from_builtin : js.

Lemma quiet_get_prop v k : quiet (get_prop v k).
Proof. unfold get_prop. through. Qed.

Lemma pure_get_prop v k : pure (get_prop v k).
Proof. unfold get_prop. through. Qed.

Lemma quiet_set_prop v k x : quiet (set_prop v k x).
Proof. unfold set_prop. through. Qed.

Lemma quiet_delete_prop v k : quiet (delete_prop v k).
Proof. unfold delete_prop. through. Qed.

Lemma quiet_keys_of v : quiet (keys_of v).
Proof. unfold keys_of. through. Qed.

Lemma pure_keys_of v : pure (keys_of v).
Proof. unfold keys_of. through. Qed.

Lemma quiet_Object_keys v : quiet (Object_keys v).
Proof. unfold Object_keys. pose proof (quiet_keys_of v). through. Qed.

Lemma pure_Object_keys v : pure (Object_keys v).
Proof. unfold Object_keys. pose proof (pure_keys_of v). through. Qed.

#[local] Hint Resolve quiet_isArray pure_isArray quiet_instanceof_Query
  pure_instanceof_Query quiet_get_prop pure_get_prop quiet_set_prop
  quiet_delete_prop quiet_keys_of pure_keys_of quiet_Object_keys
  pure_Object_keys : js.

Lemma quiet_forEach {A S} (l : list A) (f : S -> A -> M (S * value)) :
  (forall s x, quiet (f s x)) -> forall s, quiet (forEach l s f).
Proof.
  intros Hf. induction l as [| x l IH]; intros s; simpl.
  - through.
  - apply quiet_bind; [apply Hf |]. intros [s' v]; simpl.
    destruct v as [| | [|] | | |]; auto with js.
Qed.

Lemma pure_forEach {A S} (l : list A) (f : S -> A -> M (S * value)) :
  (forall s x, pure (f s x)) -> forall s, pure (forEach l s f).
Proof.
  intros Hf. induction l as [| x l IH]; intros s; simpl.
  - through.
  - apply pure_bind; [apply Hf |]. intros [s' v]; simpl.
    destruct v as [| | [|] | | |]; auto with js.
Qed.

Lemma quiet_mapM {A B} (f : A -> M B) (l : list A) :
  (forall x, quiet (f x)) -> quiet (mapM f l).
Proof. intros Hf. induction l; simpl; through. Qed.

Lemma quiet_property p o : quiet (property p o).
Proof. unfold property. through. Qed.

Lemma pure_property p o : pure (property p o).
Proof. unfold property. through. Qed.
#[local] Hint Resolve quiet_property pure_property : js.

Lemma quiet_findKey o p : quiet (findKey o p).
Proof.
  unfold findKey, lodash_keys. apply quiet_bind; [auto with js |].
  intros ks. induction ks; simpl; through.
Qed.

Lemma pure_findKey o p : pure (findKey o p).
Proof.
  unfold findKey, lodash_keys. apply pure_bind; [auto with js |].
  intros ks. induction ks; simpl; through.
Qed.

Lemma quiet_this_query l : quiet (this_query l).
Proof. unfold this_query. through. Qed.

Lemma pure_this_query l : pure (this_query l).
Proof. unfold this_query. through. Qed.
#[local] Hint Resolve quiet_findKey pure_findKey quiet_this_query
  pure_this_query : js.

Lemma quiet_update_query l f : quiet (update_query l f).
Proof. unfold update_query. through. Qed.

Lemma quiet_callee v : quiet (callee v).
Proof. unfold callee. through. Qed.

Lemma pure_callee v : pure (callee v).
Proof. unfold callee. through. Qed.

Lemma quiet_get_fields l : quiet (get_fields l).
Proof. unfold get_fields. through. Qed.

Lemma quiet_get_filter l : quiet (get_filter l).
Proof. unfold get_filter. through. Qed.

Lemma quiet_get_sort l : quiet (get_sort l).
Proof. unfold get_sort. through. Qed.

Lemma quiet_get_limit l : quiet (get_limit l).
Proof. unfold get_limit. through. Qed.

Lemma quiet_get_skip l : quiet (get_skip l).
Proof. unfold get_skip. through. Qed.

Lemma quiet_get__parent l : quiet (get__parent l).
Proof. unfold get__parent. through. Qed.

Lemma pure_get_fields l : pure (get_fields l).
Proof. unfold get_fields. through. Qed.

Lemma pure_get_filter l : pure (get_filter l).
Proof. unfold get_filter. through. Qed.

Lemma pure_get_sort l : pure (get_sort l).
Proof. unfold get_sort. through. Qed.

Lemma pure_get_limit l : pure (get_limit l).
Proof. unfold get_limit. through. Qed.

Lemma pure_get_skip l : pure (get_skip l).
Proof. unfold get_skip. through. Qed.

Lemma pure_get__parent l : pure (get__parent l).
Proof. unfold get__parent. through. Qed.

#[local] Hint Resolve quiet_update_query quiet_callee pure_callee
  quiet_get_fields quiet_get_filter quiet_get_sort quiet_get_limit
  quiet_get_skip quiet_get__parent pure_get_fields pure_get_filter
  pure_get_sort pure_get_limit pure_get_skip pure_get__parent : js.

Lemma quiet_addFilter this field condition v :
  quiet (addFilter this field condition v).
Proof. unfold addFilter. through. Qed.

Lemma quiet_toPlainObject fuel : forall this, quiet (toPlainObject fuel this).
Proof. induction fuel; intros this; simpl; through. Qed.

Lemma quiet_isSupportedOffline this : quiet (isSupportedOffline this).
Proof. unfold isSupportedOffline. apply quiet_forEach. intros. through. Qed.

Lemma pure_isSupportedOffline this : pure (isSupportedOffline this).
Proof. unfold isSupportedOffline. apply pure_forEach. intros. through. Qed.

#[local] Hint Resolve quiet_addFilter quiet_toPlainObject
  quiet_isSupportedOffline pure_isSupportedOffline : js.

(** ** Local evaluation: the sort stage and absent data *)

Ltac through ::=
  repeat first
    [ progress auto with js
    | apply quiet_bind; [ | intros ]
    | apply pure_bind; [ | intros ]
    | apply quiet_mapM; intros
    | apply quiet_forEach; intros
    | apply pure_forEach; intros
    | match goal with
      | |- quiet (if ?b then _ else _) => destruct b
      | |- pure (if ?b then _ else _) => destruct b
      | |- quiet (match ?v with _ => _ end) => destruct v
      | |- pure (match ?v with _ => _ end) => destruct v
      | |- quiet (let x := _ in _) => cbv zeta
      | |- pure (let x := _ in _) => cbv zeta
      end ].

Lemma forEach_results_unused {A} (f : A -> M (unit * value)) (h : heap) :
  forall l : list A,
    (forall x, In x l -> exists v, f x h = (Ret (tt, v), h)) ->
    forEach l tt (fun _ x => f x) h = (Ret tt, h).
Proof.
  intros l Hf. induction l as [| x l IH]; simpl; [reflexivity |].
  destruct (Hf x (or_introl eq_refl)) as [v E].
  rewrite (bind_Ret _ _ _ _ _ E). simpl.
  assert (Hl : forall y, In y l -> exists v, f y h = (Ret (tt, v), h))
    by (intros y Hy; apply Hf; now right).
  destruct v as [| | [|] | | |]; auto.
Qed.

Lemma lookup_own_In k (ps : list (string * value)) :
  In k (map fst ps) -> exists x, lookup_own k ps = Some x.
Proof.
  induction ps as [| [k' v] ps IH]; [intros [] |].
  cbn [map fst In lookup_own]. intros [-> | H].
  - rewrite String.eqb_refl. eauto.
  - destruct (String.eqb k k'); eauto.
Qed.

Section Evaluation.

Variable less_than : heap -> value -> value -> bool.
Variable toNumber : heap -> value -> number.
Variable sift : heap -> value -> list value -> outcome (list value).
Variable nested : heap -> value -> string -> value.

Lemma compare_field_returns (h : heap) lj pj ls ps a b field :
  h !! lj = Some (OObject pj) ->
  lookup_own "sort" pj = Some (VRef ls) ->
  h !! ls = Some (OObject ps) ->
  In field (map fst ps) ->
  exists v, compare_field less_than toNumber nested (VRef lj) a b field h
            = (Ret v, h).
Proof.
  intros Hj Hs Hps Hin. unfold compare_field.
  rewrite bind_get_heap.
  destruct (truthy (nested h a field) && negb (truthy (nested h b field)));
    [eexists; reflexivity |].
  destruct (truthy (nested h b field) && negb (truthy (nested h a field)));
    [eexists; reflexivity |].
  destruct (negb (strict_eqb (nested h a field) (nested h b field)));
    [| eexists; reflexivity].
  rewrite (bind_Ret _ _ _ _ _ (get_prop_own _ _ "sort" _ _ Hj Hs)).
  destruct (lookup_own_In field ps Hin) as [x Hx].
  rewrite (bind_Ret _ _ _ _ _ (get_prop_own _ _ field _ _ Hps Hx)).
  rewrite bind_get_heap.
  eexists; reflexivity.
Qed.

(** C4 (the code departs from it): whatever the sort fields and the two
    records are, the comparator that [process] gives to [data.sort]
    answers 0.  The value computed for each field (-1 or 1 when one record
    lacks the field, the order of the two values times the direction
    otherwise) is returned to [forEach], which drops it, and the function
    ends with [return 0]; no record is ever moved by the sort stage. *)
Theorem comparator_ignores_fields (h : heap) lj pj ls ps a b :
  h !! lj = Some (OObject pj) ->
  lookup_own "sort" pj = Some (VRef ls) ->
  h !! ls = Some (OObject ps) ->
  comparator less_than toNumber nested (VRef lj) a b h = (Ret (Finite 0), h).
Proof.
  intros Hj Hs Hps. unfold comparator.
  rewrite (bind_Ret _ _ _ _ _ (get_prop_own _ _ "sort" _ _ Hj Hs)).
  rewrite (bind_Ret _ _ _ _ _ (Object_keys_object _ _ _ Hps)).
  erewrite bind_Ret; [reflexivity |].
  apply (forEach_results_unused
           (fun field => r <- compare_field less_than toNumber nested
                               (VRef lj) a b field ;; ret (tt, r))).
  intros field Hin.
  destruct (compare_field_returns h lj pj ls ps a b field Hj Hs Hps Hin)
    as [v E].
  exists v. now rewrite (bind_Ret _ _ _ _ _ E).
Qed.

(** The matcher is a third-party module: it cannot raise the error
    class of this one. *)
Hypothesis sift_quiet :
  forall h filter data msg, sift h filter data <> Throw (QueryError msg).

Lemma quiet_sift h filter data : quiet (lift (sift h filter data)).
Proof. intros h' msg. apply sift_quiet. Qed.

Lemma quiet_array_elems v : quiet (array_elems v).
Proof. unfold array_elems. through. Qed.

Lemma quiet_compare_field json a b field :
  quiet (compare_field less_than toNumber nested json a b field).
Proof. unfold compare_field. through. Qed.

Lemma quiet_comparator json a b :
  quiet (comparator less_than toNumber nested json a b).
Proof.
  unfold comparator. pose proof quiet_compare_field. through.
Qed.

Lemma quiet_insert_sorted cmp x :
  (forall a b, quiet (cmp a b)) -> forall l, quiet (insert_sorted cmp x l).
Proof. intros Hc l. induction l; simpl; through. Qed.

Lemma quiet_sort_list cmp :
  (forall a b, quiet (cmp a b)) -> forall l, quiet (sort_list cmp l).
Proof.
  intros Hc l. pose proof (quiet_insert_sorted cmp) as Hi.
  induction l; simpl; through.
Qed.

Lemma quiet_Array_sort cmp data :
  (forall a b, quiet (cmp a b)) -> quiet (Array_sort cmp data).
Proof.
  intros Hc. pose proof quiet_array_elems. pose proof (quiet_sort_list cmp Hc).
  unfold Array_sort. through.
Qed.

Lemma quiet_Array_slice data from to : quiet (Array_slice data from to).
Proof. pose proof quiet_array_elems. unfold Array_slice. through. Qed.

Lemma quiet_remove_fields json item : quiet (remove_fields json item).
Proof.
  pose proof quiet_array_elems. unfold remove_fields, not_listed. through.
Qed.

(** What [process] does once [data] has passed the array check. *)
Lemma quiet_process_array fuel this data :
  quiet (json <- toJSON fuel this ;;
         filter <- get_prop json "filter" ;;
         es <- array_elems data ;;
         h <- get_heap ;;
         kept <- lift (sift h filter es) ;;
         l <- alloc (OArray kept) ;;
         let data := VRef l in
         fields <- get_prop json "fields" ;;
         project <- (if truthy fields then
                       n <- get_prop fields "length" ;; greater_than_zero n
                     else ret false) ;;
         data <- (if project then
                    es <- array_elems data ;;
                    es <- mapM (remove_fields json) es ;;
                    l <- alloc (OArray es) ;;
                    ret (VRef l)
                  else ret data) ;;
         data <- Array_sort (comparator less_than toNumber nested json) data ;;
         limit <- get_prop json "limit" ;;
         if truthy limit then
           skip <- get_prop json "skip" ;;
           skip' <- get_prop json "skip" ;;
           limit <- get_prop json "limit" ;;
           to <- plus skip' limit ;;
           Array_slice data skip to
         else
           skip <- get_prop json "skip" ;;
           Array_slice data skip VUndefined).
Proof.
  pose proof quiet_array_elems. pose proof quiet_sift.
  pose proof quiet_remove_fields. pose proof quiet_Array_slice.
  pose proof (fun json => quiet_Array_sort
                (comparator less_than toNumber nested json)) as Hsort.
  pose proof quiet_comparator.
  unfold toJSON, greater_than_zero, plus. through.
Qed.

(** C10: on a query that is supported offline, [process] hands [null]
    and [undefined] back as they are, without an error and without
    touching the store; and it throws 'data argument must be of type:
    Array.' exactly when [data] is truthy and not an array. *)
Theorem process_absent_data fuel this (h : heap) :
  isSupportedOffline this h = (Ret true, h) ->
  process less_than toNumber sift nested fuel this VNull h = (Ret VNull, h)
  /\ process less_than toNumber sift nested fuel this VUndefined h
     = (Ret VUndefined, h)
  /\ forall data,
       fst (process less_than toNumber sift nested fuel this data h)
       = Throw (QueryError "data argument must be of type: Array.")
       <-> truthy data = true /\ fst (isArray data h) = Ret false.
Proof.
  intros Hs.
  split; [unfold process; now rewrite (bind_Ret _ _ _ _ _ Hs) |].
  split; [unfold process; now rewrite (bind_Ret _ _ _ _ _ Hs) |].
  intros data. unfold process. rewrite (bind_Ret _ _ _ _ _ Hs).
  cbv beta iota delta [negb]. split.
  - destruct (truthy data); cbv iota; [| discriminate]. intros K.
    pose proof (pure_isArray data h) as Hp.
    pose proof (quiet_isArray data h) as Hq.
    rewrite bind_unfold in K.
    destruct (isArray data h) as [[[|] | e | s] h1] eqn:E; simpl in *; subst.
    + exfalso. exact (quiet_process_array fuel this data _ _ K).
    + split; reflexivity.
    + exfalso. injection K as ->. now apply (Hq _ eq_refl).
    + discriminate.
  - intros [Ht Ha]. rewrite Ht. cbv iota.
    pose proof (pure_isArray data h) as Hp.
    rewrite bind_unfold.
    destruct (isArray data h) as [o h1] eqn:E; simpl in *; subst.
    reflexivity.
Qed.

End Evaluation.

Lemma comparator_ignores_fields_witness :
  let h := snd (exec sort_program) in
  compare_field less_than_number toNumber_primitive nested_own
    (VRef 8) (VRef 0) (VRef 1) "x" h = (Ret (num (-1)), h)
  /\ comparator less_than_number toNumber_primitive nested_own
       (VRef 8) (VRef 0) (VRef 1) h = (Ret (Finite 0), h).
Proof.
  split; [reflexivity |].
  eapply comparator_ignores_fields; reflexivity.
Defined.

(** The whole of [process] on that input: the record without [x] stays in
    front. *)
Example process_keeps_order :
  let r := process less_than_number toNumber_primitive sift_all nested_own 8 3
             (VRef 2) (snd (exec sort_program)) in
  fst r = Ret (VRef 11)
  /\ snapshot 4 (snd r) (VRef 11) = TArray [TObject []; TObject [("x", tnum 1)]].
Proof. split; reflexivity. Qed.

Lemma process_absent_data_witness :
  let h := snd (exec [New VUndefined]) in
  process less_than_number toNumber_primitive sift_all nested_own 8 0 VNull h
  = (Ret VNull, h)
  /\ fst (process less_than_number toNumber_primitive sift_all nested_own 8 0
            (num 7) h)
     = Throw (QueryError "data argument must be of type: Array.").
Proof.
  assert (Hq : forall h filter data msg,
             sift_all h filter data <> Throw (QueryError msg))
    by (intros; discriminate).
  pose proof (process_absent_data less_than_number toNumber_primitive sift_all
                nested_own Hq 8 0 (snd (exec [New VUndefined])) eq_refl)
    as [H1 [_ H3]].
  split; [exact H1 |].
  apply H3. split; reflexivity.
Defined.

(** ** What every query of the store satisfies *)

Lemma keeps_bind {A B} (m : M A) (f : A -> M B) :
  keeps m -> (forall a, keeps (f a)) -> keeps (bind m f).
Proof.
  intros Hm Hf h I. unfold bind. specialize (Hm h I).
  destruct (m h) as [[a | e | s] h1]; simpl in *; auto.
  now apply Hf.
Qed.

(** The same, for the statements whose effect depends on what the
    statement before returned in this very store. *)
Lemma queries_ok_bind {A B} (m : M A) (f : A -> M B) (h : heap) :
  queries_ok (snd (m h)) ->
  (forall a h1, m h = (Ret a, h1) -> queries_ok (snd (f a h1))) ->
  queries_ok (snd (bind m f h)).
Proof.
  intros Hm Hf. rewrite bind_unfold.
  destruct (m h) as [[a | e | s] h1]; simpl in *; auto.
Qed.

Lemma pure_keeps {A} (m : M A) : pure m -> keeps m.
Proof. intros Hp h I. now rewrite Hp. Qed.

Lemma is_array_in_kept (h h' : heap) v :
  arrays_kept h h' -> is_array_in h v -> is_array_in h' v.
Proof.
  intros K (l & es & -> & E). destruct (K _ _ E) as [es' E']. now exists l, es'.
Qed.

Lemma well_formed_kept (h h' : heap) q :
  arrays_kept h h' -> well_formed h q -> well_formed h' q.
Proof.
  intros K (Hf & Hs & Hl & Hk). repeat split; auto.
  - eapply is_array_in_kept; eauto.
  - apply Hl.
  - apply Hl.
Qed.

Lemma arrays_kept_app (h : heap) o : arrays_kept h (h ++ [o]).
Proof. intros l es E. exists es. now apply lookup_app_l_Some. Qed.

Lemma arrays_kept_insert (h : heap) l o :
  (forall es, h !! l = Some (OArray es) -> exists es', o = OArray es') ->
  arrays_kept h (<[l := o]> h).
Proof.
  intros Ho l' es E. destruct (decide (l = l')) as [<- | Hne].
  - destruct (Ho _ E) as [es' ->]. exists es'.
    apply list_lookup_insert_eq. eauto using lookup_lt_Some.
  - exists es. now rewrite list_lookup_insert_ne.
Qed.

Lemma queries_ok_app (h : heap) o :
  queries_ok h -> (forall q, o = OQuery q -> query_ok (h ++ [o]) q) ->
  queries_ok (h ++ [o]).
Proof.
  intros I Ho l q E.
  apply lookup_snoc_Some in E as [[_ E] | [_ E]]; eauto.
  destruct (I _ _ E) as [Hu Hw]. split; [assumption |].
  intros Hc. eapply well_formed_kept; [apply arrays_kept_app | auto].
Qed.

(** A write that puts an object or an array where there was one. *)
Lemma queries_ok_insert_plain (h : heap) l o :
  queries_ok h ->
  (forall q, o <> OQuery q) ->
  (forall es, h !! l = Some (OArray es) -> exists es', o = OArray es') ->
  queries_ok (<[l := o]> h).
Proof.
  intros I Ho Ha l' q E.
  apply list_lookup_insert_Some in E as [(-> & E & _) | [_ E]];
    [now destruct (Ho q) |].
  destruct (I _ _ E) as [Hu Hw]. split; [assumption |].
  intros Hc. eapply well_formed_kept; [now apply arrays_kept_insert | auto].
Qed.

(** A write of the properties of a query. *)
Lemma queries_ok_insert_query (h : heap) this q q' :
  queries_ok h ->
  h !! this = Some (OQuery q) ->
  query_ok h q' ->
  queries_ok (<[this := OQuery q']> h).
Proof.
  intros I Hq Hq' l q0 E.
  assert (K : arrays_kept h (<[this := OQuery q']> h)).
  { apply arrays_kept_insert. intros es Ea. congruence. }
  apply list_lookup_insert_Some in E as [(-> & [= <-] & _) | [_ E]].
  - destruct Hq' as [Hu Hw]. split; [assumption |].
    intros Hc. eapply well_formed_kept; eauto.
  - destruct (I _ _ E) as [Hu Hw]. split; [assumption |].
    intros Hc. eapply well_formed_kept; eauto.
Qed.

Lemma keeps_alloc_object ps : keeps (alloc (OObject ps)).
Proof. intros h I. apply queries_ok_app; [assumption | discriminate]. Qed.

Lemma keeps_alloc_array es : keeps (alloc (OArray es)).
Proof. intros h I. apply queries_ok_app; [assumption | discriminate]. Qed.

Lemma keeps_alloc_blank : keeps (alloc (OQuery blank)).
Proof.
  intros h I. apply queries_ok_app; [assumption |].
  intros q [= <-]. split; [now left | discriminate].
Qed.

Lemma keeps_ret {A} (a : A) : keeps (ret a).
Proof. apply pure_keeps; auto with js. Qed.

Lemma keeps_throw {A} e : keeps (@throw A e).
Proof. apply pure_keeps; auto with js. Qed.

Lemma keeps_stuck_at {A} s : keeps (@stuck_at A s).
Proof. apply pure_keeps; auto with js. Qed.

Lemma keeps_lift {A} (o : outcome A) : keeps (lift o).
Proof. intros h I. exact I. Qed.

Lemma keeps_set_prop v k x : keeps (set_prop v k x).
Proof.
  destruct v as [| | b | n | s | l]; try (apply pure_keeps; intros h; reflexivity).
  intros h I. unfold set_prop, read. rewrite bind_unfold.
  destruct (h !! l) as [[ps | es | q] |] eqn:E; simpl; auto.
  - apply queries_ok_insert_plain;
      [assumption | discriminate | intros; congruence].
  - destruct (parse_index k) as [i |]; [| assumption].
    destruct (i <? length es);
      [apply queries_ok_insert_plain; [assumption | discriminate | eauto] |].
    destruct (i =? length es);
      [apply queries_ok_insert_plain; [assumption | discriminate | eauto]
      | assumption].
Qed.

Lemma keeps_delete_prop v k : keeps (delete_prop v k).
Proof.
  destruct v as [| | b | n | s | l]; try (apply pure_keeps; intros h; reflexivity).
  - apply pure_keeps. intros h. simpl. now destruct (string_own s k).
  - intros h I. unfold delete_prop, read. rewrite bind_unfold.
    destruct (h !! l) as [[ps | es | q] |] eqn:E; simpl; auto.
    + apply queries_ok_insert_plain;
        [assumption | discriminate | intros; congruence].
    + now destruct (array_own es k).
Qed.

Create HintDb keeps.
#[local] Hint Resolve keeps_alloc_object keeps_alloc_array keeps_alloc_blank
  keeps_ret keeps_throw keeps_stuck_at keeps_lift keeps_set_prop
  keeps_delete_prop : keeps.
#[local] Hint Extern 2 (keeps _) => (apply pure_keeps; solve [auto with js])
  : keeps.

Lemma keeps_forEach {A S} (l : list A) (f : S -> A -> M (S * value)) :
  (forall s x, keeps (f s x)) -> forall s, keeps (forEach l s f).
Proof.
  intros Hf. induction l as [| x l IH]; intros s; simpl.
  - auto with keeps.
  - apply keeps_bind; [apply Hf |]. intros [s' v]; simpl.
    destruct v as [| | [|] | | |]; auto with keeps.
Qed.

Ltac keeping :=
  repeat first
    [ progress auto with keeps
    | apply keeps_bind; [ | intros ]
    | apply keeps_forEach; intros
    | match goal with
      | |- keeps (if ?b then _ else _) => destruct b
      | |- keeps (match ?v with _ => _ end) => destruct v
      | |- keeps (let x := _ in _) => cbv zeta
      end ].

Lemma keeps_mapM {A B} (f : A -> M B) (l : list A) :
  (forall x, keeps (f x)) -> keeps (mapM f l).
Proof. intros Hf. induction l; simpl; keeping. Qed.

Lemma keeps_assign target source : keeps (assign target source).
Proof. unfold assign, lodash_keys. keeping. Qed.

(** An assignment to a property of [this] that leaves its query as it
    should be. *)
Lemma queries_ok_update_query this f (h : heap) :
  queries_ok h ->
  (forall q, h !! this = Some (OQuery q) -> query_ok h q -> query_ok h (f q)) ->
  queries_ok (snd (update_query this f h)).
Proof.
  intros I Hf. unfold update_query, this_query, read. rewrite !bind_unfold.
  destruct (h !! this) as [[ps | es | q] |] eqn:E; simpl; auto.
  eapply queries_ok_insert_query; eauto.
Qed.

Lemma keeps_with_filter this v : keeps (update_query this (with_filter v)).
Proof. intros h I. apply queries_ok_update_query; auto. Qed.

Lemma keeps_with_parent this v : keeps (update_query this (with_parent v)).
Proof. intros h I. apply queries_ok_update_query; auto. Qed.

#[local] Hint Resolve keeps_assign keeps_with_filter keeps_with_parent : keeps.

Lemma keeps_addFilter this field condition v :
  keeps (addFilter this field condition v).
Proof. unfold addFilter. keeping. Qed.

Lemma keeps_toPlainObject fuel : forall this, keeps (toPlainObject fuel this).
Proof. induction fuel; intros this; simpl; keeping. Qed.

Lemma keeps_wrap_array v : keeps (wrap_array v).
Proof. unfold wrap_array. keeping. Qed.

Lemma keeps_set_filter this v : keeps (set_filter this v).
Proof. unfold set_filter. keeping. Qed.

Lemma keeps_ascending fuel : forall this field, keeps (ascending fuel this field).
Proof. induction fuel; intros this field; simpl; keeping. Qed.

Lemma keeps_descending fuel : forall this field, keeps (descending fuel this field).
Proof. induction fuel; intros this field; simpl; keeping. Qed.

Lemma keeps_array_elems v : keeps (array_elems v).
Proof. unfold array_elems. keeping. Qed.

Lemma keeps_bad_pair v : keeps (bad_pair v).
Proof. unfold bad_pair. keeping. Qed.

#[local] Hint Resolve keeps_addFilter keeps_toPlainObject keeps_wrap_array
  keeps_set_filter keeps_ascending keeps_descending keeps_array_elems
  keeps_bad_pair : keeps.

(** *** The setters *)

Lemma isArray_true v (h h1 : heap) :
  isArray v h = (Ret true, h1) -> h1 = h /\ is_array_in h v.
Proof.
  destruct v as [| | b | n | s | l]; simpl; try discriminate.
  unfold read. rewrite bind_unfold.
  destruct (h !! l) as [[ps | es | q] |] eqn:E; simpl; try discriminate.
  intros [= <-]. split; [reflexivity |]. now exists l, es.
Qed.

Lemma get__parent_Ret this p (h h1 : heap) :
  get__parent this h = (Ret p, h1) ->
  h1 = h /\ exists q, h !! this = Some (OQuery q) /\ p = _parent q.
Proof.
  unfold get__parent, this_query, read. rewrite !bind_unfold.
  destruct (h !! this) as [[ps | es | q] |] eqn:E; simpl; try discriminate.
  intros [= <- <-]. eauto.
Qed.

(** What is left of a setter once its argument has been checked. *)
Lemma queries_ok_store this (rec : value -> M unit) f (h : heap) :
  queries_ok h ->
  (forall p, keeps (rec p)) ->
  (forall q, well_formed h q -> well_formed h (f q)) ->
  (forall q, _parent (f q) = _parent q) ->
  queries_ok (snd ((p <- get__parent this ;;
                    if truthy p then rec p else update_query this f) h)).
Proof.
  intros I Hrec Hf Hp. apply queries_ok_bind.
  - now rewrite pure_get__parent.
  - intros p h1 E. apply get__parent_Ret in E as (-> & q & Hq & ->).
    destruct (truthy (_parent q)); [now apply Hrec |].
    apply queries_ok_update_query; [assumption |].
    intros q' _ [Hu Hw]. split.
    + unfold unscoped. now rewrite Hp.
    + unfold constructed. rewrite Hp. auto.
Qed.

Lemma keeps_set_fields fuel : forall this v, keeps (set_fields fuel this v).
Proof.
  induction fuel as [| fuel IH]; intros this v; simpl; [keeping |].
  apply keeps_bind; [keeping |]. intros fields h I.
  apply queries_ok_bind; [now rewrite pure_isArray |].
  intros [|] h1 E;
    [| now rewrite (pure_heap _ _ _ _ (pure_isArray fields) E)].
  apply isArray_true in E as [-> Ha]. cbv beta iota delta [negb].
  apply queries_ok_store; auto.
  - intros p. keeping.
  - intros q. unfold well_formed. simpl. tauto.
Qed.

Section Invariant.

Variable parseFloat : heap -> value -> number.

Lemma pure_parse_float v : pure (parse_float parseFloat v).
Proof. unfold parse_float. through. Qed.
Hint Resolve pure_parse_float : js.

Lemma keeps_set_sort this v : keeps (set_sort this v).
Proof.
  unfold set_sort. destruct (truthy v && negb (isObject v)) eqn:Ev; [keeping |].
  intros h I. apply queries_ok_bind; [now rewrite pure_get__parent |].
  intros p h1 E. apply get__parent_Ret in E as (-> & q & Hq & ->).
  destruct (truthy (_parent q));
    [match goal with
     | |- queries_ok (snd (?m h)) =>
         assert (K : keeps m) by keeping; now apply K
     end |].
  apply queries_ok_bind.
  - destruct (truthy v); [assumption | now apply keeps_alloc_object].
  - intros sort h1 E.
    assert (K : queries_ok h1 /\ isObject sort = true).
    { destruct (truthy v) eqn:Et.
      - injection E as <- <-. split; [assumption |].
        simpl in Ev. now destruct (isObject v).
      - injection E as <- <-. split; [now apply keeps_alloc_object | reflexivity]. }
    destruct K as [I1 Ks]. apply queries_ok_update_query; [assumption |].
    intros q' _ [Hu Hw]. split; [exact Hu |]. intros Hc.
    specialize (Hw Hc). revert Hw. unfold well_formed. simpl. tauto.
Qed.

Lemma coerce_run v (h : heap) :
  (if isString v then parse_float parseFloat v else ret v) h
  = (Ret (coerce parseFloat h v), h).
Proof. unfold coerce. now destruct (isString v). Qed.

Lemma coerce_not_string v (h : heap) : isString (coerce parseFloat h v) = false.
Proof. unfold coerce. now destruct v. Qed.

Lemma keeps_set_limit fuel :
  forall this v, keeps (set_limit parseFloat fuel this v).
Proof.
  induction fuel as [| fuel IH]; intros this v; simpl; [keeping |].
  intros h I. rewrite (bind_Ret _ _ _ _ _ (coerce_run v h)).
  pose proof (coerce_not_string v h) as Hs.
  destruct (truthy (coerce parseFloat h v)
            && negb (isNumber (coerce parseFloat h v))) eqn:E; [assumption |].
  apply queries_ok_store; auto.
  - intros p. keeping.
  - intros q. unfold well_formed, limit_ok. simpl.
    intros (? & ? & ? & ?). repeat split; auto.
    intros Ht. rewrite Ht in E. now destruct (isNumber (coerce parseFloat h v)).
Qed.

Lemma keeps_set_skip this v : keeps (set_skip parseFloat this v).
Proof.
  unfold set_skip. fold (or_zero v).
  intros h I. rewrite (bind_Ret _ _ _ _ _ (coerce_run (or_zero v) h)).
  destruct (isNumber (coerce parseFloat h (or_zero v))) eqn:E; simpl;
    [| assumption].
  apply (queries_ok_store this (fun p =>
           owner <- callee p ;; get_skip owner ;;;
           throw (TypeError "this._parent.skip is not a function"))); auto.
  - intros p. keeping.
  - intros q. unfold well_formed. simpl. tauto.
Qed.

(** *** The constructor *)

Lemma update_query_Ret this f q (h : heap) :
  h !! this = Some (OQuery q) ->
  update_query this f h = (Ret tt, <[this := OQuery (f q)]> h).
Proof.
  intros E. unfold update_query.
  now rewrite (bind_Ret _ _ _ _ _ (this_query_Some _ _ _ E)).
Qed.

Lemma get__parent_at this q (h : heap) :
  h !! this = Some (OQuery q) -> get__parent this h = (Ret (_parent q), h).
Proof.
  intros E. unfold get__parent.
  now rewrite (bind_Ret _ _ _ _ _ (this_query_Some _ _ _ E)).
Qed.

(** The end of a setter, on a query under construction. *)
Lemma store_unscoped this (rec : value -> M unit) f q (h : heap) :
  h !! this = Some (OQuery q) -> _parent q = VUndefined ->
  (p <- get__parent this ;;
   if truthy p then rec p else update_query this f) h
  = (Ret tt, <[this := OQuery (f q)]> h).
Proof.
  intros Hq Hp. rewrite (bind_Ret _ _ _ _ _ (get__parent_at _ _ _ Hq)), Hp.
  simpl truthy. cbv iota. now apply update_query_Ret.
Qed.

Lemma arrays_kept_store this q q' (h : heap) :
  h !! this = Some (OQuery q) -> arrays_kept h (<[this := OQuery q']> h).
Proof. intros Hq. apply arrays_kept_insert. intros es E. congruence. Qed.

Lemma arrays_kept_trans (h1 h2 h3 : heap) :
  arrays_kept h1 h2 -> arrays_kept h2 h3 -> arrays_kept h1 h3.
Proof.
  intros K1 K2 l es E. destruct (K1 _ _ E) as [es' E']. eauto.
Qed.

Lemma stored this q v (h : heap) (f : value -> query -> query) :
  h !! this = Some (OQuery q) ->
  <[this := OQuery (f v q)]> h !! this = Some (OQuery (f v q)).
Proof. intros Hq. apply list_lookup_insert_eq. eauto using lookup_lt_Some. Qed.

Lemma assigns_fields fuel this v :
  assigns this (set_fields (S fuel) this v) with_fields is_array_in.
Proof.
  intros h q h1 I Hq Hp. cbn [set_fields].
  destruct (truthy v) eqn:Et.
  - rewrite (bind_Ret _ _ h v h eq_refl). rewrite bind_unfold.
    destruct (isArray v h) as [[[|] | e | s] h'] eqn:E;
      cbv beta iota delta [negb]; try discriminate.
    apply isArray_true in E as [-> Ha].
    rewrite (store_unscoped this _ (with_fields v) q h Hq Hp).
    intros [= <-]. exists v. split; [| split].
    + eapply is_array_in_kept; [eapply arrays_kept_store; exact Hq | exact Ha].
    + now apply (stored this q v h with_fields).
    + eapply arrays_kept_store; exact Hq.
  - set (h' := h ++ [OArray []]).
    assert (Hq' : h' !! this = Some (OQuery q))
      by now apply lookup_app_l_Some.
    assert (Ea : isArray (VRef (length h)) h' = (Ret true, h')).
    { unfold isArray.
      now rewrite (bind_Ret _ _ _ _ _
                     (read_Some _ _ _
                        (list_lookup_middle h [] (OArray []) _ eq_refl))). }
    rewrite (bind_Ret _ _ h (VRef (length h)) h' eq_refl).
    rewrite (bind_Ret _ _ _ _ _ Ea). cbv beta iota delta [negb].
    rewrite (store_unscoped this _ (with_fields (VRef (length h))) q h' Hq' Hp).
    intros [= <-]. exists (VRef (length h)). split; [| split].
    + exists (length h), []. split; [reflexivity |].
      rewrite list_lookup_insert_ne.
      * apply list_lookup_middle. reflexivity.
      * apply lookup_lt_Some in Hq. lia.
    + now apply (stored this q _ h' with_fields).
    + eapply arrays_kept_trans; [apply arrays_kept_app |].
      eapply arrays_kept_store; exact Hq'.
Qed.

Lemma assigns_filter this v :
  assigns this (set_filter this v) with_filter (fun _ _ => True).
Proof.
  intros h q h1 I Hq Hp. unfold set_filter.
  rewrite (update_query_Ret _ _ _ _ Hq). intros [= <-].
  exists v. split; [exact Logic.I | split].
  - now apply (stored this q v h with_filter).
  - eapply arrays_kept_store; exact Hq.
Qed.

Lemma assigns_sort this v :
  assigns this (set_sort this v) with_sort (fun _ s => isObject s = true).
Proof.
  intros h q h1 I Hq Hp. unfold set_sort.
  destruct (truthy v && negb (isObject v)) eqn:Ev; [discriminate |].
  rewrite (bind_Ret _ _ _ _ _ (get__parent_at _ _ _ Hq)), Hp.
  simpl (truthy VUndefined). cbv iota.
  destruct (truthy v) eqn:Et.
  - rewrite bind_ret.
    rewrite (update_query_Ret _ _ _ _ Hq). intros [= <-].
    exists v. split; [| split].
    + simpl in Ev. now destruct (isObject v).
    + now apply (stored this q v h with_sort).
    + eapply arrays_kept_store; exact Hq.
  - set (h' := h ++ [OObject []]).
    assert (Hq' : h' !! this = Some (OQuery q))
      by now apply lookup_app_l_Some.
    rewrite (bind_Ret _ _ h (VRef (length h)) h' eq_refl).
    rewrite (update_query_Ret _ _ _ _ Hq'). intros [= <-].
    exists (VRef (length h)). split; [reflexivity | split].
    + now apply (stored this q _ h' with_sort).
    + eapply arrays_kept_trans; [apply arrays_kept_app |].
      eapply arrays_kept_store; exact Hq'.
Qed.

Lemma assigns_limit fuel this v :
  assigns this (set_limit parseFloat (S fuel) this v) with_limit
    (fun _ => limit_ok).
Proof.
  intros h q h1 I Hq Hp. cbn [set_limit].
  rewrite (bind_Ret _ _ _ _ _ (coerce_run v h)).
  pose proof (coerce_not_string v h) as Hs.
  destruct (truthy (coerce parseFloat h v)
            && negb (isNumber (coerce parseFloat h v))) eqn:E; [discriminate |].
  rewrite (store_unscoped this _ (with_limit (coerce parseFloat h v)) q h Hq Hp).
  intros [= <-]. exists (coerce parseFloat h v). split; [| split].
  - split; [assumption |]. intros Ht. rewrite Ht in E.
    now destruct (isNumber (coerce parseFloat h v)).
  - now apply (stored this q _ h with_limit).
  - eapply arrays_kept_store; exact Hq.
Qed.

Lemma assigns_skip this v :
  assigns this (set_skip parseFloat this v) with_skip
    (fun _ k => isNumber k = true).
Proof.
  intros h q h1 I Hq Hp. unfold set_skip. fold (or_zero v).
  rewrite (bind_Ret _ _ _ _ _ (coerce_run (or_zero v) h)).
  destruct (isNumber (coerce parseFloat h (or_zero v))) eqn:E; simpl;
    [| discriminate].
  rewrite (store_unscoped this
             (fun p => owner <- callee p ;; get_skip owner ;;;
                       throw (TypeError "this._parent.skip is not a function"))
             (with_skip (coerce parseFloat h (or_zero v))) q h Hq Hp).
  intros [= <-]. exists (coerce parseFloat h (or_zero v)). split; [| split].
  - assumption.
  - now apply (stored this q _ h with_skip).
  - eapply arrays_kept_store; exact Hq.
Qed.

(** One step of the constructor: [v <- options.name ;; this.name = v],
    followed by the rest. *)
Lemma building_step {B} this (m : value -> M unit) f ok name options
  (P P' : heap -> query -> Prop) (rest : M B) (h : heap) :
  (forall v, assigns this (m v) f ok) ->
  (forall v, keeps (m v)) ->
  (forall h h' q, arrays_kept h h' -> P h q -> P h' q) ->
  (forall h q v, P h q -> ok h v -> P' h (f v q)) ->
  (forall v q, _parent (f v q) = _parent q) ->
  (forall h1, building this P' h1 -> queries_ok (snd (rest h1))) ->
  building this P h ->
  queries_ok (snd ((v <- get_prop options name ;; m v ;;; rest) h)).
Proof.
  intros Hm Km HP HP' Hpar Hrest (I & q & Hq & Hp & HPq).
  apply queries_ok_bind; [now rewrite pure_get_prop |].
  intros v h1 E. rewrite (pure_heap _ _ _ _ (pure_get_prop _ _) E).
  apply queries_ok_bind; [now apply Km |].
  intros [] h2 E2.
  destruct (Hm v h q h2 I Hq Hp E2) as (v' & Hok & Hq2 & K).
  apply Hrest. split.
  - pose proof (Km v h I) as K2. rewrite E2 in K2. exact K2.
  - exists (f v' q). split; [assumption |]. split.
    + now rewrite Hpar.
    + apply HP'; [| assumption]. eapply HP; eauto.
Qed.

End Invariant.

#[local] Hint Resolve pure_parse_float : js.
#[local] Hint Resolve keeps_set_fields keeps_set_sort keeps_set_limit
  keeps_set_skip : keeps.

(** ** Validation comes before mutation *)

Lemma frame_bind {A B} n (m : M A) (f : A -> M B) R R' :
  frame n m R -> keeps m -> (forall a, R a -> frame n (f a) R') ->
  frame n (bind m f) R'.
Proof.
  intros Hm Km Hf h I Hn.
  destruct (Hm h I Hn) as (L & F & Rm). specialize (Km h I).
  rewrite bind_unfold.
  destruct (m h) as [[a | e | s] h1]; simpl in *;
    try (split; [assumption | split; [assumption | discriminate]]).
  destruct (Hf a (Rm a eq_refl) h1 Km) as (L' & F' & R'a); [lia |].
  split; [lia |]. split; [| assumption].
  intros l Hl. rewrite F' by assumption. now apply F.
Qed.

Lemma frame_weaken {A} n (m : M A) (R R' : A -> Prop) :
  frame n m R -> (forall a, R a -> R' a) -> frame n m R'.
Proof.
  intros Hm HR h I Hn. destruct (Hm h I Hn) as (L & F & Rm).
  repeat split; auto.
Qed.

Lemma frame_bind_any {A B} n (m : M A) (f : A -> M B) R' :
  frame n m (fun _ => True) -> keeps m -> (forall a, frame n (f a) R') ->
  frame n (bind m f) R'.
Proof. intros Hm Km Hf. eapply frame_bind; eauto. Qed.

Lemma frame_pure {A} n (m : M A) : pure m -> frame n m (fun _ => True).
Proof.
  intros Hp h I Hn. pose proof (Hp h) as E.
  split; [rewrite E; lia |]. split; [intros; now rewrite E |].
  intros; exact Logic.I.
Qed.

Lemma frame_ret {A} n (a : A) (R : A -> Prop) : R a -> frame n (ret a) R.
Proof.
  intros Ha h I Hn. simpl. split; [lia |]. split; auto. now intros a' [= <-].
Qed.

Lemma frame_throw {A} n e (R : A -> Prop) : frame n (throw e) R.
Proof. intros h I Hn. simpl. split; [lia |]. split; auto. discriminate. Qed.

Lemma frame_stuck_at {A} n s (R : A -> Prop) : frame n (stuck_at s) R.
Proof. intros h I Hn. simpl. split; [lia |]. split; auto. discriminate. Qed.

Lemma frame_alloc n o : frame n (alloc o) (fun l => n <= l).
Proof.
  intros h I Hn. simpl. rewrite length_app. simpl. split; [lia |].
  split.
  - intros l Hl. apply lookup_app_l. lia.
  - intros a [= <-]. assumption.
Qed.

Lemma frame_alloc_any n o : frame n (alloc o) (fun _ => True).
Proof. eapply frame_weaken; [apply frame_alloc | auto]. Qed.

Lemma frame_write n l o : n <= l -> frame n (write l o) (fun _ => True).
Proof.
  intros Hl h I Hn. simpl. rewrite length_insert. split; [lia |].
  split; [| intros; exact Logic.I].
  intros l' Hl'. apply list_lookup_insert_ne. lia.
Qed.

Lemma frame_get__parent n this :
  frame n (get__parent this) (fun p => truthy p = false).
Proof.
  intros h I Hn. rewrite (pure_get__parent this h).
  split; [lia |]. split; [auto |].
  unfold get__parent, this_query, read. rewrite !bind_unfold.
  destruct (h !! this) as [[ps | es | q] |] eqn:E; simpl; try discriminate.
  intros a [= <-]. destruct (I _ _ E) as ([-> | ->] & _); reflexivity.
Qed.

Lemma frame_update_query n this f :
  n <= this -> frame n (update_query this f) (fun _ => True).
Proof.
  intros Hl h I Hn. unfold update_query, this_query, read.
  rewrite !bind_unfold.
  destruct (h !! this) as [[ps | es | q] |] eqn:E; simpl;
    try exact (frame_stuck_at n _ _ h I Hn).
  exact (frame_write n this _ Hl h I Hn).
Qed.

Lemma frame_set_prop n l k x :
  n <= l -> frame n (set_prop (VRef l) k x) (fun _ => True).
Proof.
  intros Hl h I Hn. unfold set_prop, read. rewrite !bind_unfold.
  destruct (h !! l) as [[ps | es | q] |] eqn:E; simpl.
  - exact (frame_write n l _ Hl h I Hn).
  - destruct (parse_index k) as [i |];
      [| exact (frame_stuck_at n _ _ h I Hn)].
    destruct (i <? length es); [exact (frame_write n l _ Hl h I Hn) |].
    destruct (i =? length es); [exact (frame_write n l _ Hl h I Hn) |].
    exact (frame_stuck_at n _ _ h I Hn).
  - exact (frame_stuck_at n _ _ h I Hn).
  - exact (frame_stuck_at n _ _ h I Hn).
Qed.

Create HintDb frame.
#[local] Hint Resolve frame_throw frame_stuck_at frame_update_query
  frame_set_prop frame_write frame_alloc_any : frame.
#[local] Hint Extern 1 (frame _ (ret _) _) => (apply frame_ret; auto) : frame.
#[local] Hint Extern 3 (frame _ _ (fun _ => True)) =>
  (apply frame_pure; solve [auto with js]) : frame.
#[local] Hint Extern 3 (frame _ _ _) =>
  (eapply frame_weaken; [apply frame_pure; solve [auto with js] | auto])
  : frame.
#[local] Hint Extern 1 (_ <= _) => lia : frame.

Lemma frame_forEach {A S} n (l : list A) (f : S -> A -> M (S * value)) :
  (forall s x, frame n (f s x) (fun _ => True)) ->
  (forall s x, keeps (f s x)) ->
  forall s, frame n (forEach l s f) (fun _ => True).
Proof.
  intros Hf Kf. induction l as [| x l IH]; intros s; simpl.
  - auto with frame.
  - apply frame_bind_any; [apply Hf | apply Kf |]. intros [s' v]; simpl.
    destruct v as [| | [|] | | |]; auto with frame.
Qed.

(** One statement of a method that writes only above [n]. *)
Ltac framing :=
  repeat first
    [ solve [auto with frame]
    | match goal with
      | H : truthy ?p = false |- context [truthy ?p] => rewrite H
      | |- frame _ (bind (alloc _) _) _ =>
          eapply frame_bind;
          [apply frame_alloc | solve [keeping] | intros; cbv beta in * ]
      | |- frame _ (bind (get__parent _) _) _ =>
          eapply frame_bind;
          [apply frame_get__parent | solve [keeping]
          | intros; cbv beta in * ]
      | |- frame _ (bind _ _) _ =>
          apply frame_bind_any; [ | solve [keeping] | intros ]
      | |- frame _ (if ?b then _ else _) _ => destruct b
      | |- frame _ (match ?v with _ => _ end) _ => destruct v
      | |- frame _ (let x := _ in _) _ => cbv zeta
      end ].

Lemma frame_assign n l source :
  n <= l -> frame n (assign (VRef l) source) (fun v => v = VRef l).
Proof.
  intros Hl. unfold assign, lodash_keys.
  apply frame_bind_any; [auto with frame | keeping |]. intros ks.
  apply frame_bind_any; [| apply keeps_forEach; intros; keeping
                         | intros; auto with frame].
  apply frame_forEach; intros; [framing | keeping].
Qed.

(** *** The constructor, and every statement of a program *)

Section Construction.

Variable parseFloat : heap -> value -> number.
Variable RegExp : heap -> value -> outcome regexp.

(** A statement of the constructor that does not touch [this]. *)
Lemma building_aside {A B} this (m : M A) (f : A -> M B) R (h : heap) :
  frame (S this) m R -> keeps m ->
  (forall a h1, R a -> building this (fun _ _ => True) h1 ->
                S this <= length h1 -> queries_ok (snd (f a h1))) ->
  building this (fun _ _ => True) h -> S this <= length h ->
  queries_ok (snd (bind m f h)).
Proof.
  intros Hm Km Hf (I & q & Hq & Hp & _) Hn.
  destruct (Hm h I Hn) as (L & F & Rm). specialize (Km h I).
  apply queries_ok_bind; [assumption |].
  intros a h1 E. rewrite E in *. simpl in *.
  apply Hf; [now apply Rm | | lia].
  split; [assumption |]. exists q. rewrite F by lia. auto.
Qed.

Lemma building_end this (h : heap) :
  building this well_formed h ->
  queries_ok (snd ((update_query this (with__parent VNull) ;;; ret this) h)).
Proof.
  intros (I & q & Hq & Hp & Hw).
  rewrite (bind_Ret _ _ _ _ _ (update_query_Ret _ _ _ _ Hq)). simpl.
  eapply queries_ok_insert_query; eauto.
  split; [now right |]. intros _. exact Hw.
Qed.

Lemma keeps_Query_new fuel options : keeps (Query_new parseFloat fuel options).
Proof.
  destruct fuel as [| fuel]; [unfold Query_new; keeping |].
  unfold Query_new. intros h I.
  apply queries_ok_bind; [now apply keeps_alloc_blank |].
  intros this h0 [= <- <-].
  assert (B0 : building (length h) (fun _ _ => True) (h ++ [OQuery blank])).
  { split; [now apply keeps_alloc_blank |].
    exists blank. split; [apply list_lookup_middle; reflexivity |].
    split; [reflexivity | exact Logic.I]. }
  assert (L0 : S (length h) <= length (h ++ [OQuery blank]))
    by (rewrite length_app; simpl; lia).
  revert B0 L0. generalize (h ++ [OQuery blank]). generalize (length h).
  clear h I. intros this h B L.
  eapply building_aside; [apply frame_alloc | keeping | | exact B | exact L].
  clear h B L. intros d_fields h _ B L.
  eapply building_aside; [apply frame_alloc | keeping | | exact B | exact L].
  clear h B L. intros d_filter h _ B L.
  eapply building_aside; [apply frame_alloc | keeping | | exact B | exact L].
  clear h B L. intros d_sort h _ B L.
  eapply building_aside; [apply frame_alloc | keeping | | exact B | exact L].
  clear h B L. intros defaults h Hd B L. cbv beta in Hd.
  eapply building_aside;
    [apply frame_assign; exact Hd | keeping | | exact B | exact L].
  clear h B L. intros options' h _ B L.
  eapply (building_step this (fun v => set_fields (S fuel) this v) with_fields
            is_array_in "fields" options' (fun _ _ => True)
            (fun h q => is_array_in h (_fields q)));
    [intros; apply assigns_fields | intros; keeping | auto | auto | auto
    | | exact B].
  clear h B L. intros h B.
  eapply (building_step this (fun v => set_filter this v) with_filter
            (fun _ _ => True) "filter" options'
            (fun h q => is_array_in h (_fields q))
            (fun h q => is_array_in h (_fields q)));
    [intros; apply assigns_filter | intros; keeping
    | intros; eapply is_array_in_kept; eauto | auto | auto | | exact B].
  clear h B. intros h B.
  eapply (building_step this (fun v => set_sort this v) with_sort
            (fun _ s => isObject s = true) "sort" options'
            (fun h q => is_array_in h (_fields q))
            (fun h q => is_array_in h (_fields q) /\ isObject (_sort q) = true));
    [intros; apply assigns_sort | intros; keeping
    | intros; eapply is_array_in_kept; eauto | auto | auto | | exact B].
  clear h B. intros h B.
  eapply (building_step this (fun v => set_limit parseFloat (S fuel) this v)
            with_limit (fun _ => limit_ok) "limit" options'
            (fun h q => is_array_in h (_fields q) /\ isObject (_sort q) = true)
            (fun h q => is_array_in h (_fields q) /\ isObject (_sort q) = true
                        /\ limit_ok (_limit q)));
    [intros; apply assigns_limit | intros; keeping
    | intros ? ? ? K [? ?]; split; [eapply is_array_in_kept; eauto | auto]
    | intros ? ? ? [? ?] ?; simpl; auto | auto | | exact B].
  clear h B. intros h B.
  eapply (building_step this (fun v => set_skip parseFloat this v)
            with_skip (fun _ k => isNumber k = true) "skip" options'
            (fun h q => is_array_in h (_fields q) /\ isObject (_sort q) = true
                        /\ limit_ok (_limit q))
            well_formed);
    [intros; apply assigns_skip | intros; keeping
    | intros ? ? ? K (? & ? & ?);
      split; [eapply is_array_in_kept; eauto | auto]
    | intros ? ? ? (? & ? & ?) ?; unfold well_formed; simpl; auto
    | auto | | exact B].
  clear h B. intros h B. now apply building_end.
Qed.

Hint Resolve keeps_Query_new : keeps.

Lemma keeps_join_operand fuel query : keeps (join_operand parseFloat fuel query).
Proof. unfold join_operand, toJSON. keeping. Qed.

Lemma keeps_join fuel this operator queries :
  keeps (join parseFloat fuel this operator queries).
Proof.
  pose proof (keeps_join_operand fuel).
  unfold join, toJSON. keeping; try (apply keeps_mapM; auto).
Qed.

Hint Resolve keeps_join : keeps.

Lemma keeps_Query_nor fuel :
  forall this args, keeps (Query_nor parseFloat fuel this args).
Proof. induction fuel; intros this args; simpl; keeping. Qed.

Lemma keeps_Query_or fuel :
  forall this args, keeps (Query_or parseFloat fuel this args).
Proof. induction fuel; intros this args; simpl; keeping. Qed.

Lemma keeps_matches this field regExp options :
  keeps (matches RegExp this field regExp options).
Proof. unfold matches, to_regexp. keeping. Qed.

Lemma keeps_withinPolygon this field coords :
  keeps (withinPolygon parseFloat this field coords).
Proof.
  unfold withinPolygon.
  do 2 (apply keeps_bind; [keeping | intros]).
  destruct (_ || _); [keeping |].
  apply keeps_bind; [| intros; keeping].
  apply keeps_mapM. intros. keeping.
Qed.

Lemma keeps_run_op fuel o : keeps (run_op parseFloat RegExp fuel o).
Proof.
  pose proof keeps_Query_nor. pose proof keeps_Query_or.
  pose proof keeps_matches. pose proof keeps_withinPolygon.
  destruct o; unfold run_op, on_query, assigned, equalTo, contains,
    containsAll, greaterThan, greaterThanOrEqualTo, lessThan,
    lessThanOrEqualTo, notEqualTo, notContainedIn, Query_and, Query_exists,
    Query_mod, near, withinBox, Query_size, toJSON, isSupportedOffline;
    keeping.
Qed.

Lemma queries_ok_run fuel program :
  forall h, queries_ok h -> queries_ok (snd (run parseFloat RegExp fuel program h)).
Proof.
  induction program as [| o program IH]; intros h I; simpl; auto.
  pose proof (keeps_run_op fuel o h I) as K.
  destruct (fst (run_op parseFloat RegExp fuel o h)); simpl; auto.
Qed.

Lemma queries_ok_program fuel program :
  queries_ok (snd (run parseFloat RegExp fuel program [])).
Proof. apply queries_ok_run. intros l q K. discriminate. Qed.

(** C8 (as amended): after any program over the public interface that
    works on plain data, every query that its constructor returned has a
    limit that is a number whenever it is truthy (and is never a string),
    and a skip that is a number.  Both checks are on the type only: the
    number may be an infinity, and for skip also NaN or negative. *)
Theorem limit_and_skip_are_numbers fuel program l q :
  let result := run parseFloat RegExp fuel program [] in
  plain_program (fst result) program ->
  snd result !! l = Some (OQuery q) ->
  _parent q = VNull ->
  (truthy (_limit q) = true -> isNumber (_limit q) = true)
  /\ isString (_limit q) = false
  /\ isNumber (_skip q) = true.
Proof.
  intros result _ E Hc.
  destruct (queries_ok_program fuel program _ _ E) as (_ & Hw).
  destruct (Hw Hc) as (_ & _ & [Hs Hl] & Hk). auto.
Qed.

(** As far as a program runs in the model, no query of its store has an
    owner in [_parent], the property that the accessors, [or], [nor] and
    [toPlainObject] test: [join] stores the owner under [parent]. *)
Lemma never_scoped fuel program l q :
  snd (run parseFloat RegExp fuel program []) !! l = Some (OQuery q) ->
  truthy (_parent q) = false.
Proof.
  intros E.
  destruct (queries_ok_program fuel program _ _ E) as ([-> | ->] & _);
    reflexivity.
Qed.

End Construction.

#[local] Hint Resolve keeps_Query_new keeps_join keeps_join_operand : keeps.

Lemma limit_and_skip_are_numbers_witness :
  (truthy (_limit paged) = true -> isNumber (_limit paged) = true)
  /\ isString (_limit paged) = false
  /\ isNumber (_skip paged) = true.
Proof.
  apply (limit_and_skip_are_numbers parseFloat_decimal RegExp_plain 8
           paging_program 0 paged);
    [split; reflexivity | reflexivity | reflexivity].
Defined.

(** The claim as worded fails: the query of [paging_program] has an
    infinite limit and a negative skip. *)
Lemma limit_and_skip_not_finite :
  fst (exec paging_program) = [Ret (VRef 0); Ret VUndefined; Ret VUndefined]
  /\ snd (exec paging_program) !! 0 = Some (OQuery paged)
  /\ finite_number (_limit paged) = false
  /\ finite_non_negative (_skip paged) = false
  /\ limit_and_skip_finite paged = false.
Proof. repeat split. Qed.

(** ** What the filter methods store *)

Lemma lookup_replace_own k v ps :
  lookup_own k ps <> None -> lookup_own k (replace_own k v ps) = Some v.
Proof.
  induction ps as [| [k' v'] ps IH]; simpl; [congruence |].
  destruct (String.eqb k k') eqn:E; simpl; rewrite E; auto.
Qed.

Lemma lookup_insert_index i k v ps :
  lookup_own k ps = None -> lookup_own k (insert_index i k v ps) = Some v.
Proof.
  induction ps as [| [k' v'] ps IH]; simpl.
  - now rewrite String.eqb_refl.
  - destruct (String.eqb k k') eqn:E; [discriminate |]. intros Hn.
    destruct (parse_index k') as [j |];
      [destruct (j <? i) |]; simpl; rewrite ?E, ?String.eqb_refl; auto.
Qed.

Lemma lookup_own_app k ps qs :
  lookup_own k ps = None -> lookup_own k (ps ++ qs) = lookup_own k qs.
Proof.
  induction ps as [| [k' v'] ps IH]; simpl; auto.
  destruct (String.eqb k k'); [discriminate | auto].
Qed.

(** After [o[k] = v], [o[k]] is [v]. *)
Lemma lookup_set_own k v ps : lookup_own k (set_own k v ps) = Some v.
Proof.
  unfold set_own. destruct (lookup_own k ps) eqn:E.
  - apply lookup_replace_own. congruence.
  - destruct (parse_index k).
    + now apply lookup_insert_index.
    + rewrite lookup_own_app by assumption. simpl.
      now rewrite String.eqb_refl.
Qed.

Lemma set_own_nil k v : set_own k v [] = [(k, v)].
Proof. unfold set_own. simpl. now destruct (parse_index k). Qed.

Lemma get_filter_at this q (h : heap) :
  h !! this = Some (OQuery q) -> get_filter this h = (Ret (_filter q), h).
Proof.
  intros E. unfold get_filter. now rewrite (bind_Ret _ _ _ _ _ (this_query_Some _ _ _ E)).
Qed.

Lemma set_prop_object l ps k x (h : heap) :
  h !! l = Some (OObject ps) ->
  set_prop (VRef l) k x h = (Ret tt, <[l := OObject (set_own k x ps)]> h).
Proof.
  intros E. unfold set_prop. now rewrite (bind_Ret _ _ _ _ _ (read_Some _ _ _ E)).
Qed.

(** [addFilter] on a field that has no operator mapping yet: the mapping
    is a new object, stored under the field, that holds the one condition. *)
Lemma addFilter_new_field this q lf ps field condition v (h : heap) :
  h !! this = Some (OQuery q) ->
  _filter q = VRef lf ->
  h !! lf = Some (OObject ps) ->
  isObject (or_undefined (lookup_own field ps)) = false ->
  inherited field = false ->
  addFilter this field condition v h
  = (Ret (VRef this),
     <[lf := OObject (set_own field (VRef (length h)) ps)]> h
       ++ [OObject [(condition, v)]]).
Proof.
  intros Hq Hf Hlf Hno Hord.
  assert (this <> lf) by (intros ->; congruence).
  assert (this < length h) by eauto using lookup_lt_Some.
  assert (lf < length h) by eauto using lookup_lt_Some.
  unfold addFilter.
  rewrite (bind_Ret _ _ _ _ _ (get_filter_at _ _ _ Hq)), Hf.
  rewrite (bind_Ret _ _ _ _ _ (get_prop_object _ _ field _ Hlf Hord)), Hno.
  cbv beta iota delta [negb].
  set (h1 := h ++ [OObject []]).
  assert (Hq1 : h1 !! this = Some (OQuery q))
    by (unfold h1; now rewrite lookup_app_l).
  assert (Hlf1 : h1 !! lf = Some (OObject ps))
    by (unfold h1; now rewrite lookup_app_l).
  set (h2 := <[lf := OObject (set_own field (VRef (length h)) ps)]> h1).
  assert (E1 : (o <- alloc (OObject []) ;;
                f <- get_filter this ;;
                set_prop f field (VRef o)) h = (Ret tt, h2)).
  { rewrite (bind_Ret _ _ h (length h) h1 eq_refl).
    rewrite (bind_Ret _ _ _ _ _ (get_filter_at _ _ _ Hq1)), Hf.
    apply (set_prop_object _ _ _ _ _ Hlf1). }
  rewrite (bind_Ret _ _ _ _ _ E1).
  assert (Hq2 : h2 !! this = Some (OQuery q))
    by (unfold h2; rewrite list_lookup_insert_ne by congruence; exact Hq1).
  assert (Hlf2 : h2 !! lf
                 = Some (OObject (set_own field (VRef (length h)) ps))).
  { unfold h2. apply list_lookup_insert_eq. unfold h1.
    rewrite length_app. lia. }
  assert (Hn2 : h2 !! length h = Some (OObject [])).
  { unfold h2. rewrite list_lookup_insert_ne by lia. unfold h1.
    now rewrite list_lookup_middle. }
  rewrite (bind_Ret _ _ _ _ _ (get_filter_at _ _ _ Hq2)), Hf.
  rewrite (bind_Ret _ _ _ _ _ (get_prop_object _ _ field _ Hlf2 Hord)).
  rewrite lookup_set_own. simpl or_undefined.
  rewrite (bind_Ret _ _ _ _ _ (set_prop_object _ _ condition v _ Hn2)).
  rewrite set_own_nil. unfold ret. f_equal.
  unfold h2, h1. rewrite insert_app_l by assumption.
  set (h3 := <[lf := OObject (set_own field (VRef (length h)) ps)]> h).
  replace (length h) with (length h3 + 0)
    by (unfold h3; rewrite length_insert; lia).
  now rewrite insert_app_r.
Qed.

(** [addFilter] on a field that has an operator mapping: the condition is
    added to it, or replaces the one of the same name. *)
Lemma addFilter_known_field this q lf ps lo ops field condition v (h : heap) :
  h !! this = Some (OQuery q) ->
  _filter q = VRef lf ->
  h !! lf = Some (OObject ps) ->
  lookup_own field ps = Some (VRef lo) ->
  h !! lo = Some (OObject ops) ->
  addFilter this field condition v h
  = (Ret (VRef this), <[lo := OObject (set_own condition v ops)]> h).
Proof.
  intros Hq Hf Hlf Hlo Hops.
  unfold addFilter.
  rewrite (bind_Ret _ _ _ _ _ (get_filter_at _ _ _ Hq)), Hf.
  rewrite (bind_Ret _ _ _ _ _ (get_prop_own _ _ field _ _ Hlf Hlo)).
  cbv beta iota delta [negb isObject].
  rewrite (bind_Ret _ _ h tt h eq_refl).
  rewrite (bind_Ret _ _ _ _ _ (get_filter_at _ _ _ Hq)), Hf.
  rewrite (bind_Ret _ _ _ _ _ (get_prop_own _ _ field _ _ Hlf Hlo)).
  now rewrite (bind_Ret _ _ _ _ _ (set_prop_object _ _ condition v _ Hops)).
Qed.

Section Filters.

Variable parseFloat : heap -> value -> number.
Variable RegExp : heap -> value -> outcome regexp.

Lemma Query_mod_unfold this field divisor remainder (h : heap) :
  Query_mod parseFloat this field divisor remainder h
  = let d := coerce parseFloat h divisor in
    let r := coerce parseFloat h (or_zero remainder) in
    if negb (isNumber d) then (Throw (QueryError "divisor must be a number"), h)
    else if negb (isNumber r)
    then (Throw (QueryError "remainder must be a number"), h)
    else (l <- alloc (OArray [d; r]) ;; addFilter this field "$mod" (VRef l)) h.
Proof.
  unfold Query_mod. fold (or_zero remainder).
  rewrite (bind_Ret _ _ _ _ _ (coerce_run parseFloat divisor h)).
  rewrite (bind_Ret _ _ _ _ _ (coerce_run parseFloat (or_zero remainder) h)).
  cbv zeta.
  destruct (negb (isNumber (coerce parseFloat h divisor))); [reflexivity |].
  destruct (negb (isNumber (coerce parseFloat h (or_zero remainder))));
    reflexivity.
Qed.

(** C7 (as amended): [mod] converts a string divisor or remainder with
    [parseFloat], takes 0 for an absent remainder, and throws a QueryError
    when the divisor, or else the remainder, is then not of type number,
    whatever the store holds.  NaN and the infinities are numbers: they
    are stored, not refused.  When both are numbers and the filter is a
    plain object, a field with an ordinary name and without an operator
    mapping gets the new mapping [{$mod: [divisor, remainder]}]; so
    [mod('x', '5')] on a new query gives [{x: {$mod: [5, 0]}}]. *)
Theorem mod_checks_the_type this field divisor remainder (h : heap) :
  let d := coerce parseFloat h divisor in
  let r := coerce parseFloat h (or_zero remainder) in
  (isNumber d = false ->
   Query_mod parseFloat this field divisor remainder h
   = (Throw (QueryError "divisor must be a number"), h))
  /\ (isNumber d = true -> isNumber r = false ->
      Query_mod parseFloat this field divisor remainder h
      = (Throw (QueryError "remainder must be a number"), h))
  /\ (forall q lf ps,
        h !! this = Some (OQuery q) ->
        _filter q = VRef lf ->
        h !! lf = Some (OObject ps) ->
        isObject (or_undefined (lookup_own field ps)) = false ->
        inherited field = false ->
        isNumber d && isNumber r = true ->
        Query_mod parseFloat this field divisor remainder h
        = (Ret (VRef this),
           <[lf := OObject (set_own field (VRef (S (length h))) ps)]> h
             ++ [OArray [d; r]; OObject [("$mod", VRef (length h))]]))
  /\ ((forall h', parseFloat h' (VStr "5") = Finite (inject_Z 5)) ->
      forall fuel,
        filter_tree
          (snd (run parseFloat RegExp (S fuel)
                  [New VUndefined; Mod 0 "x" (VStr "5") VUndefined] [])) 0
        = TObject [("x", TObject [("$mod", TArray [tnum 5; tnum 0])])]).
Proof.
  intros d r. split; [| split; [| split]].
  - intros Hd. rewrite Query_mod_unfold. fold d r. cbv zeta.
    now rewrite Hd.
  - intros Hd Hr. rewrite Query_mod_unfold. fold d r. cbv zeta.
    now rewrite Hd, Hr.
  - intros q lf ps Hq Hf Hlf Hno Hord Hnum.
    rewrite Query_mod_unfold. fold d r. cbv zeta.
    apply andb_true_iff in Hnum as [-> ->]. simpl negb. cbv iota.
    rewrite (bind_Ret _ _ h (length h) (h ++ [OArray [d; r]]) eq_refl).
    assert (this < length h) by eauto using lookup_lt_Some.
    assert (lf < length h) by eauto using lookup_lt_Some.
    erewrite addFilter_new_field; eauto; try (now rewrite lookup_app_l).
    rewrite length_app. simpl length.
    rewrite insert_app_l by assumption. rewrite <- app_assoc. simpl.
    now replace (length h + 1) with (S (length h)) by lia.
  - intros Hp fuel. vm_compute. rewrite Hp. reflexivity.
Qed.

Lemma matches_options options (h : heap) :
  plain_options h options ->
  exists o' h1,
    (match options with
     | VUndefined => l <- alloc (OObject []) ;; ret (VRef l)
     | _ => ret options
     end) h = (Ret o', h1)
    /\ forall k, inherited k = false ->
                 get_prop o' k h1 = (Ret (option_value h options k), h1).
Proof.
  intros [-> | (l & ps & -> & E)].
  - exists (VRef (length h)), (h ++ [OObject []]). split; [reflexivity |].
    intros k Hk. simpl option_value.
    rewrite (get_prop_object (length h) [] k (h ++ [OObject []]));
      [reflexivity | apply list_lookup_middle, eq_refl | exact Hk].
  - exists (VRef l), h. split; [reflexivity |].
    intros k Hk. simpl option_value. rewrite E.
    now apply get_prop_object.
Qed.

(** C6 (as amended): with options that are absent or a plain object,
    [matches] throws a QueryError when case-insensitivity is asked for (by
    the expression or by [options.ignoreCase]) unless [options.ignoreCase]
    is [false], and otherwise when the source of the expression does not
    start with [^].  [matches('name', /^foo/)] passes and stores the source
    as it is, caret included: the filter is [{name: {$regex: '^foo'}}]. *)
Theorem matches_validates this field regExp r options (h : heap) :
  (plain_options h options ->
   (forall h', to_regexp RegExp regExp h' = (Ret r, h')) ->
   let o_ignoreCase := option_value h options "ignoreCase" in
   (wants_ignoreCase r o_ignoreCase = true ->
    fst (matches RegExp this field regExp options h)
    = Throw (QueryError "ignoreCase glag is not supported."))
   /\ (wants_ignoreCase r o_ignoreCase = false ->
       starts_with_caret (source r) = false ->
       fst (matches RegExp this field regExp options h)
       = Throw (QueryError
           "regExp must have `^` at the beginning of the expression to make it an anchored expression.")))
  /\ (forall fuel,
        let result :=
          run parseFloat RegExp (S fuel)
            [New VUndefined;
             Matches 0 "name" (PRegExp (mkRegExp "^foo" false false)) VUndefined]
            [] in
        fst result = [Ret (VRef 0); Ret (VRef 0)]
        /\ filter_tree (snd result) 0
           = TObject [("name", TObject [("$regex", TStr "^foo")])]).
Proof.
  split.
  - intros Ho Hr ic.
    destruct (matches_options options h Ho) as (o' & h1 & E1 & E2).
    unfold matches.
    rewrite (bind_Ret _ _ _ _ _ E1), (bind_Ret _ _ _ _ _ (Hr h1)).
    rewrite !(bind_Ret _ _ _ _ _ (E2 "ignoreCase" eq_refl)).
    fold ic. fold (wants_ignoreCase r ic).
    split.
    + intros ->. reflexivity.
    + intros -> ->. reflexivity.
  - intros fuel. split; reflexivity.
Qed.

Lemma lookup_own_NoDup ps :
  NoDup (map fst ps) ->
  forall kv, In kv ps -> lookup_own (fst kv) ps = Some (snd kv).
Proof.
  induction ps as [| [k x] ps IH]; intros Hnd kv Hin; [destruct Hin |].
  change (map fst ((k, x) :: ps)) with (k :: map fst ps) in Hnd.
  apply NoDup_cons in Hnd as [Hk Hnd].
  destruct Hin as [<- | Hin]; cbn [lookup_own fst snd].
  - now rewrite String.eqb_refl.
  - destruct (String.eqb (fst kv) k) eqn:E.
    + apply String.eqb_eq in E. exfalso. apply Hk.
      apply list_elem_of_In, in_map_iff. now exists kv.
    + now apply IH.
Qed.

End Filters.

Lemma mod_checks_the_type_witness :
  let h := snd (exec [New VUndefined]) in
  fst (Query_mod parseFloat_decimal 0 "x" VNull VUndefined h)
  = Throw (QueryError "divisor must be a number")
  /\ filter_tree (snd (Query_mod parseFloat_decimal 0 "x" (VStr "5") VUndefined h)) 0
     = TObject [("x", TObject [("$mod", TArray [tnum 5; tnum 0])])]
  /\ filter_tree (snd (exec [New VUndefined; Mod 0 "x" (VStr "5") VUndefined])) 0
     = TObject [("x", TObject [("$mod", TArray [tnum 5; tnum 0])])].
Proof.
  intros h. split; [| split].
  - destruct (mod_checks_the_type parseFloat_decimal RegExp_plain 0 "x"
                VNull VUndefined h) as (H & _).
    now rewrite (H eq_refl).
  - destruct (mod_checks_the_type parseFloat_decimal RegExp_plain 0 "x"
                (VStr "5") VUndefined h) as (_ & _ & H & _).
    rewrite (H _ 2 [] eq_refl eq_refl eq_refl eq_refl eq_refl eq_refl).
    reflexivity.
  - destruct (mod_checks_the_type parseFloat_decimal RegExp_plain 0 "x"
                (VStr "5") VUndefined h) as (_ & _ & _ & H).
    apply (H (fun _ => eq_refl) 7).
Defined.

(** The claim as worded fails: a divisor that is not a finite number is
    accepted.  ['abc'] parses to NaN and [Infinity] is a number. *)
Lemma mod_accepts_NaN_and_Infinity :
  let h := snd (exec [New VUndefined;
                      Mod 0 "x" (VStr "abc") VUndefined;
                      Mod 0 "y" (VNum (Infinity false)) VUndefined]) in
  fst (exec [New VUndefined;
             Mod 0 "x" (VStr "abc") VUndefined;
             Mod 0 "y" (VNum (Infinity false)) VUndefined])
  = [Ret (VRef 0); Ret (VRef 0); Ret (VRef 0)]
  /\ filter_tree h 0
     = TObject [("x", TObject [("$mod", TArray [TNum NaN; tnum 0])]);
                ("y", TObject [("$mod", TArray [TNum (Infinity false); tnum 0])])]
  /\ isFinite NaN = false /\ isFinite (Infinity false) = false.
Proof. repeat split. Qed.

Lemma matches_validates_witness :
  let h := snd (exec [New VUndefined]) in
  fst (matches RegExp_plain 0 "name" (PRegExp (mkRegExp "^foo" true false))
         VUndefined h)
  = Throw (QueryError "ignoreCase glag is not supported.")
  /\ fst (matches RegExp_plain 0 "name" (PValue (VStr "foo")) VUndefined h)
     = Throw (QueryError
         "regExp must have `^` at the beginning of the expression to make it an anchored expression.").
Proof.
  intros h. split.
  - apply (matches_validates parseFloat_decimal RegExp_plain 0 "name"
             (PRegExp (mkRegExp "^foo" true false))
             (mkRegExp "^foo" true false) VUndefined h);
      [now left | reflexivity | reflexivity].
  - apply (matches_validates parseFloat_decimal RegExp_plain 0 "name"
             (PValue (VStr "foo")) (mkRegExp "foo" false false) VUndefined h);
      [now left | reflexivity | reflexivity | reflexivity].
Defined.

(** The claim as worded fails on its example: the stored expression is
    ['^foo'], not ['foo']. *)
Lemma matches_keeps_the_caret :
  let result :=
    exec [New VUndefined;
          Matches 0 "name" (PRegExp (mkRegExp "^foo" false false)) VUndefined] in
  fst result = [Ret (VRef 0); Ret (VRef 0)]
  /\ filter_tree (snd result) 0
     = TObject [("name", TObject [("$regex", TStr "^foo")])]
  /\ filter_tree (snd result) 0
     <> TObject [("name", TObject [("$regex", TStr "foo")])].
Proof. split; [reflexivity |]. split; [reflexivity | discriminate]. Qed.

(** C5 (the code departs from it): a top-level field can use
    [$nearSphere] and the query still count as supported offline.
    [isSupportedOffline] tests [!findKey(this.filter, filter)], which looks
    at the truthiness of the operand and of the key found: after
    [addFilter('loc', '$nearSphere', 0)] the operand is falsy and no key is
    found, and after [near('', [1, 2])] the key found is the empty string,
    which [!] takes for no key.  Both times the method answers [true]. *)
Theorem nearSphere_not_always_seen :
  let falsy := exec [New VUndefined;
                     AddFilter 0 "loc" "$nearSphere" (num 0);
                     IsSupportedOffline 0] in
  let unnamed := exec [New VUndefined;
                       Array_literal [num 1; num 2];
                       Near 0 "" (VRef 5) VUndefined;
                       IsSupportedOffline 0] in
  fst falsy = [Ret (VRef 0); Ret (VRef 0); Ret (VBool true)]
  /\ snd falsy !! 2 = Some (OObject [("loc", VRef 5)])
  /\ top_level_uses (snd falsy) [("loc", VRef 5)] "$nearSphere" = true
  /\ fst unnamed = [Ret (VRef 0); Ret (VRef 5); Ret (VRef 0); Ret (VBool true)]
  /\ snd unnamed !! 2 = Some (OObject [("", VRef 7)])
  /\ top_level_uses (snd unnamed) [("", VRef 7)] "$nearSphere" = true.
Proof. repeat split. Qed.

(** ** From a query to its plain object and back *)

Lemma toPlainObject_unscoped fuel this q (h : heap) :
  h !! this = Some (OQuery q) ->
  truthy (_parent q) = false ->
  toPlainObject (S fuel) this h
  = (Ret (VRef (length h)),
     h ++ [OObject [("fields", _fields q); ("filter", _filter q);
                    ("sort", _sort q); ("skip", _skip q);
                    ("limit", _limit q)]]).
Proof.
  intros Hq Hp. cbn [toPlainObject].
  rewrite (bind_Ret _ _ _ _ _ (get__parent_at _ _ _ Hq)), Hp.
  unfold get_fields, get_filter, get_sort, get_skip, get_limit.
  now rewrite !(bind_Ret _ _ _ _ _
                  (bind_Ret _ _ _ _ _ (this_query_Some _ _ _ Hq))).
Qed.

Lemma forEach_assign t s sps (ks : list string) :
  t <> s ->
  (forall k, In k ks -> In k (map fst sps)) ->
  forall tps (h : heap),
    h !! t = Some (OObject tps) ->
    h !! s = Some (OObject sps) ->
    forEach ks tt (fun _ k =>
      x <- get_prop (VRef s) k ;;
      set_prop (VRef t) k x ;;;
      ret (tt, VUndefined)) h
    = (Ret tt,
       <[t := OObject (fold_left
                         (fun acc k =>
                            set_own k (or_undefined (lookup_own k sps)) acc)
                         ks tps)]> h).
Proof.
  intros Hne. induction ks as [| k ks IH]; intros Hown tps h Ht Hs.
  - simpl. now rewrite list_insert_id.
  - cbn [forEach fold_left].
    destruct (lookup_own_In k sps (Hown k (or_introl eq_refl))) as [x0 Hx0].
    set (x := or_undefined (lookup_own k sps)).
    assert (E : (x <- get_prop (VRef s) k ;;
                 set_prop (VRef t) k x ;;;
                 ret (tt, VUndefined)) h
                = (Ret (tt, VUndefined), <[t := OObject (set_own k x tps)]> h)).
    { rewrite (bind_Ret _ _ _ _ _ (get_prop_own _ _ k _ _ Hs Hx0)).
      replace x0 with x by (unfold x; now rewrite Hx0).
      now rewrite (bind_Ret _ _ _ _ _ (set_prop_object _ _ k x _ Ht)). }
    rewrite (bind_Ret _ _ _ _ _ E). cbn [snd fst].
    rewrite (IH (fun k' Hk' => Hown k' (or_intror Hk')) (set_own k x tps)).
    + now rewrite list_insert_insert_eq.
    + apply list_lookup_insert_eq. eauto using lookup_lt_Some.
    + now rewrite list_lookup_insert_ne.
Qed.

Lemma assign_objects t s sps tps (h : heap) :
  t <> s ->
  h !! t = Some (OObject tps) ->
  h !! s = Some (OObject sps) ->
  assign (VRef t) (VRef s) h
  = (Ret (VRef t), <[t := OObject (assigned_props sps tps)]> h).
Proof.
  intros Hne Ht Hs. unfold assign.
  assert (Ek : lodash_keys (VRef s) h = (Ret (map fst sps), h)).
  { unfold lodash_keys, keys_of.
    now rewrite (bind_Ret _ _ _ _ _ (read_Some _ _ _ Hs)). }
  rewrite (bind_Ret _ _ _ _ _ Ek).
  now rewrite (bind_Ret _ _ _ _ _
                 (forEach_assign t s sps _ Hne (fun k Hk => Hk) tps h Ht Hs)).
Qed.

Section RoundTrip.

Variable parseFloat : heap -> value -> number.
Variable RegExp : heap -> value -> outcome regexp.

Lemma set_fields_array fuel this q v (h : heap) :
  h !! this = Some (OQuery q) -> _parent q = VUndefined ->
  is_array_in h v ->
  set_fields (S fuel) this v h
  = (Ret tt, <[this := OQuery (with_fields v q)]> h).
Proof.
  intros Hq Hp (l & es & -> & Hl). cbn [set_fields].
  simpl (truthy (VRef l)). cbv iota. rewrite bind_ret.
  assert (Ea : isArray (VRef l) h = (Ret true, h)).
  { unfold isArray. now rewrite (bind_Ret _ _ _ _ _ (read_Some _ _ _ Hl)). }
  rewrite (bind_Ret _ _ _ _ _ Ea). cbv beta iota delta [negb].
  now apply store_unscoped.
Qed.

Lemma set_sort_object this q v (h : heap) :
  h !! this = Some (OQuery q) -> _parent q = VUndefined ->
  isObject v = true ->
  set_sort this v h = (Ret tt, <[this := OQuery (with_sort v q)]> h).
Proof.
  intros Hq Hp Hv. destruct v as [| | | | | l]; try discriminate.
  unfold set_sort. simpl (truthy (VRef l) && negb (isObject (VRef l))).
  cbv iota.
  rewrite (bind_Ret _ _ _ _ _ (get__parent_at _ _ _ Hq)), Hp.
  simpl (truthy VUndefined). cbv iota.
  simpl (truthy (VRef l)). cbv iota. rewrite bind_ret.
  now apply update_query_Ret.
Qed.

Lemma coerce_not_a_string v (h : heap) :
  isString v = false -> coerce parseFloat h v = v.
Proof. unfold coerce. now intros ->. Qed.

Lemma set_limit_checked fuel this q v (h : heap) :
  h !! this = Some (OQuery q) -> _parent q = VUndefined ->
  limit_ok v ->
  set_limit parseFloat (S fuel) this v h
  = (Ret tt, <[this := OQuery (with_limit v q)]> h).
Proof.
  intros Hq Hp [Hs Hl]. cbn [set_limit].
  rewrite (bind_Ret _ _ _ _ _ (coerce_run parseFloat v h)).
  rewrite (coerce_not_a_string v h Hs).
  assert (E : truthy v && negb (isNumber v) = false).
  { destruct (truthy v); [| reflexivity]. now rewrite Hl. }
  rewrite E. now apply store_unscoped.
Qed.

Lemma set_skip_number this q v (h : heap) :
  h !! this = Some (OQuery q) -> _parent q = VUndefined ->
  isNumber v = true ->
  set_skip parseFloat this v h
  = (Ret tt, <[this := OQuery (with_skip v q)]> h).
Proof.
  intros Hq Hp Hv. destruct v as [| | | n | |]; try discriminate.
  unfold set_skip. cbv beta iota zeta delta [isString]. rewrite bind_ret.
  cbv beta iota delta [isNumber negb].
  now apply (store_unscoped this
               (fun p => owner <- callee p ;; get_skip owner ;;;
                         throw (TypeError "this._parent.skip is not a function"))).
Qed.

(** The constructor on the plain object of a well-formed query. *)
Lemma Query_new_of_plain_object fuel q json (h : heap) :
  well_formed h q ->
  h !! json = Some (OObject [("fields", _fields q); ("filter", _filter q);
                             ("sort", _sort q); ("skip", _skip q);
                             ("limit", _limit q)]) ->
  exists h',
    Query_new parseFloat (S fuel) (VRef json) h = (Ret (length h), h')
    /\ h' !! length h
       = Some (OQuery (mkQuery (_fields q) (_filter q) (_sort q) (_limit q)
                         (_skip q) VNull VUndefined))
    /\ forall l, l < length h -> h' !! l = h !! l.
Proof.
  intros (Hf & Hs & Hl & Hk) Hj.
  assert (Lj : json < length h) by eauto using lookup_lt_Some.
  unfold Query_new. rewrite !bind_alloc.
  set (this := length h).
  repeat rewrite length_app. cbn [length]. fold this.
  replace (this + 1) with (S this) by lia.
  replace (S this + 1) with (S (S this)) by lia.
  replace (S (S this) + 1) with (S (S (S this))) by lia.
  replace (S (S (S this)) + 1) with (S (S (S (S this)))) by lia.
  repeat rewrite <- app_assoc. cbn [app].
  set (defaults := [("fields", VRef (S this)); ("filter", VRef (S (S this)));
                    ("sort", VRef (S (S (S this)))); ("limit", VNull);
                    ("skip", num 0)]).
  set (h0 := h ++ [OQuery blank; OArray []; OObject []; OObject [];
                   OObject defaults]).
  assert (Ht : h0 !! this = Some (OQuery blank))
    by (unfold h0, this; apply list_lookup_middle; reflexivity).
  assert (Hd : h0 !! S (S (S (S this))) = Some (OObject defaults)).
  { unfold h0, this.
    replace (S (S (S (S (length h))))) with (length h + 4) by lia.
    rewrite lookup_app_r by lia.
    now replace (length h + 4 - length h) with 4 by lia. }
  assert (Hj0 : h0 !! json = Some (OObject [("fields", _fields q);
                                            ("filter", _filter q);
                                            ("sort", _sort q);
                                            ("skip", _skip q);
                                            ("limit", _limit q)]))
    by (unfold h0; now apply lookup_app_l_Some).
  assert (Hne : S (S (S (S this))) <> json) by (unfold this; lia).
  rewrite (bind_Ret _ _ _ _ _ (assign_objects _ _ _ _ _ Hne Hd Hj0)).
  set (merged := assigned_props _ defaults).
  assert (Em : merged = [("fields", _fields q); ("filter", _filter q);
                         ("sort", _sort q); ("limit", _limit q);
                         ("skip", _skip q)]) by reflexivity.
  set (h1 := <[S (S (S (S this))) := OObject merged]> h0).
  assert (Hd1 : h1 !! S (S (S (S this))) = Some (OObject merged)).
  { unfold h1. apply list_lookup_insert_eq. eauto using lookup_lt_Some. }
  assert (Ht1 : h1 !! this = Some (OQuery blank)).
  { unfold h1. rewrite list_lookup_insert_ne by lia. exact Ht. }
  assert (Hf1 : is_array_in h1 (_fields q)).
  { eapply is_array_in_kept; [| eapply is_array_in_kept; [| exact Hf]].
    - unfold h1. apply arrays_kept_insert. intros es E. congruence.
    - unfold h0. intros l es E. exists es. now apply lookup_app_l_Some. }
  assert (F1 : forall l, l < this -> h1 !! l = h !! l).
  { intros l Hlt. unfold h1. rewrite list_lookup_insert_ne by lia.
    unfold h0. apply lookup_app_l. exact Hlt. }
  clearbody h1. clear Hd Hj0 Ht h0.
  rewrite (bind_Ret _ _ _ _ _ (get_prop_object _ _ "fields" _ Hd1 eq_refl)), Em.
  cbn [lookup_own String.eqb Ascii.eqb Bool.eqb or_undefined].
  rewrite (bind_Ret _ _ _ _ _
             (set_fields_array fuel this blank _ h1 Ht1 eq_refl Hf1)).
  set (q1 := with_fields (_fields q) blank).
  set (h2 := <[this := OQuery q1]> h1).
  assert (Lt : this < length h1) by eauto using lookup_lt_Some.
  assert (Ht2 : h2 !! this = Some (OQuery q1))
    by (unfold h2; now apply list_lookup_insert_eq).
  assert (Hd2 : h2 !! S (S (S (S this))) = Some (OObject merged))
    by (unfold h2; rewrite list_lookup_insert_ne by lia; exact Hd1).
  assert (F2 : forall l, l < this -> h2 !! l = h !! l).
  { intros l Hlt. unfold h2. rewrite list_lookup_insert_ne by lia.
    now apply F1. }
  clearbody h2. clear Hd1 Ht1 Hf1 F1 Lt h1.
  rewrite (bind_Ret _ _ _ _ _ (get_prop_object _ _ "filter" _ Hd2 eq_refl)), Em.
  cbn [lookup_own String.eqb Ascii.eqb Bool.eqb or_undefined].
  unfold set_filter.
  rewrite (bind_Ret _ _ _ _ _ (update_query_Ret _ _ _ _ Ht2)).
  set (q2 := with_filter (_filter q) q1).
  set (h3 := <[this := OQuery q2]> h2).
  assert (Lt : this < length h2) by eauto using lookup_lt_Some.
  assert (Ht3 : h3 !! this = Some (OQuery q2))
    by (unfold h3; now apply list_lookup_insert_eq).
  assert (Hd3 : h3 !! S (S (S (S this))) = Some (OObject merged))
    by (unfold h3; rewrite list_lookup_insert_ne by lia; exact Hd2).
  assert (F3 : forall l, l < this -> h3 !! l = h !! l).
  { intros l Hlt. unfold h3. rewrite list_lookup_insert_ne by lia.
    now apply F2. }
  clearbody h3. clear Hd2 Ht2 F2 Lt h2.
  rewrite (bind_Ret _ _ _ _ _ (get_prop_object _ _ "sort" _ Hd3 eq_refl)), Em.
  cbn [lookup_own String.eqb Ascii.eqb Bool.eqb or_undefined].
  rewrite (bind_Ret _ _ _ _ _
             (set_sort_object this q2 _ h3 Ht3 eq_refl Hs)).
  set (q3 := with_sort (_sort q) q2).
  set (h4 := <[this := OQuery q3]> h3).
  assert (Lt : this < length h3) by eauto using lookup_lt_Some.
  assert (Ht4 : h4 !! this = Some (OQuery q3))
    by (unfold h4; now apply list_lookup_insert_eq).
  assert (Hd4 : h4 !! S (S (S (S this))) = Some (OObject merged))
    by (unfold h4; rewrite list_lookup_insert_ne by lia; exact Hd3).
  assert (F4 : forall l, l < this -> h4 !! l = h !! l).
  { intros l Hlt. unfold h4. rewrite list_lookup_insert_ne by lia.
    now apply F3. }
  clearbody h4. clear Hd3 Ht3 F3 Lt h3.
  rewrite (bind_Ret _ _ _ _ _ (get_prop_object _ _ "limit" _ Hd4 eq_refl)), Em.
  cbn [lookup_own String.eqb Ascii.eqb Bool.eqb or_undefined].
  rewrite (bind_Ret _ _ _ _ _
             (set_limit_checked fuel this q3 _ h4 Ht4 eq_refl Hl)).
  set (q4 := with_limit (_limit q) q3).
  set (h5 := <[this := OQuery q4]> h4).
  assert (Lt : this < length h4) by eauto using lookup_lt_Some.
  assert (Ht5 : h5 !! this = Some (OQuery q4))
    by (unfold h5; now apply list_lookup_insert_eq).
  assert (Hd5 : h5 !! S (S (S (S this))) = Some (OObject merged))
    by (unfold h5; rewrite list_lookup_insert_ne by lia; exact Hd4).
  assert (F5 : forall l, l < this -> h5 !! l = h !! l).
  { intros l Hlt. unfold h5. rewrite list_lookup_insert_ne by lia.
    now apply F4. }
  clearbody h5. clear Hd4 Ht4 F4 Lt h4.
  rewrite (bind_Ret _ _ _ _ _ (get_prop_object _ _ "skip" _ Hd5 eq_refl)), Em.
  cbn [lookup_own String.eqb Ascii.eqb Bool.eqb or_undefined].
  rewrite (bind_Ret _ _ _ _ _
             (set_skip_number this q4 _ h5 Ht5 eq_refl Hk)).
  set (q5 := with_skip (_skip q) q4).
  set (h6 := <[this := OQuery q5]> h5).
  assert (Lt : this < length h5) by eauto using lookup_lt_Some.
  assert (Ht6 : h6 !! this = Some (OQuery q5))
    by (unfold h6; now apply list_lookup_insert_eq).
  assert (F6 : forall l, l < this -> h6 !! l = h !! l).
  { intros l Hlt. unfold h6. rewrite list_lookup_insert_ne by lia.
    now apply F5. }
  clearbody h6.
  rewrite (bind_Ret _ _ _ _ _ (update_query_Ret _ _ _ _ Ht6)).
  eexists. split; [reflexivity |]. split.
  - apply list_lookup_insert_eq. eauto using lookup_lt_Some.
  - intros l Hlt. rewrite list_lookup_insert_ne by (unfold this; lia).
    now apply F6.
Qed.

(** C3 (as amended): for every query [q] whose fields are an array,
    whose sort is an object, whose limit is no string and is a number when
    it is truthy and whose skip is a number, which is what the constructor
    and the setters let through, [q.toPlainObject()] returns a plain
    object, [new Query] of that object returns a query, and the five
    components of the new query are those of [q]: the same numbers, and
    references to the same objects, none of which has changed. *)
Theorem plain_object_round_trip fuel this q (h : heap) :
  h !! this = Some (OQuery q) ->
  truthy (_parent q) = false ->
  well_formed h q ->
  exists json h1 copy h2 q',
    toPlainObject (S fuel) this h = (Ret json, h1)
    /\ Query_new parseFloat (S fuel) json h1 = (Ret copy, h2)
    /\ h2 !! copy = Some (OQuery q')
    /\ _fields q' = _fields q
    /\ _filter q' = _filter q
    /\ _sort q' = _sort q
    /\ _skip q' = _skip q
    /\ _limit q' = _limit q
    /\ forall l, l < length h -> h2 !! l = h !! l.
Proof.
  intros Hq Hp Hw.
  pose proof (toPlainObject_unscoped fuel this q h Hq Hp) as E1.
  set (h1 := h ++ [OObject [("fields", _fields q); ("filter", _filter q);
                            ("sort", _sort q); ("skip", _skip q);
                            ("limit", _limit q)]]) in *.
  assert (Hw1 : well_formed h1 q)
    by (eapply well_formed_kept; [apply arrays_kept_app | exact Hw]).
  assert (Hj : h1 !! length h = Some (OObject [("fields", _fields q);
                                              ("filter", _filter q);
                                              ("sort", _sort q);
                                              ("skip", _skip q);
                                              ("limit", _limit q)]))
    by (apply list_lookup_middle; reflexivity).
  destruct (Query_new_of_plain_object fuel q (length h) h1 Hw1 Hj)
    as (h2 & E2 & Hcopy & F).
  exists (VRef (length h)), h1, (length h1), h2.
  eexists. split; [exact E1 |]. split; [exact E2 |]. split; [exact Hcopy |].
  repeat (split; [reflexivity |]).
  intros l Hl. rewrite F by (unfold h1; rewrite length_app; lia).
  unfold h1. now apply lookup_app_l.
Qed.

End RoundTrip.

Lemma plain_object_round_trip_witness :
  let h := snd (exec [New VUndefined; EqualTo 0 "a" (num 1); SetLimit 0 (num 5)]) in
  exists json h1 copy h2 q',
    toPlainObject 8 0 h = (Ret json, h1)
    /\ Query_new parseFloat_decimal 8 json h1 = (Ret copy, h2)
    /\ h2 !! copy = Some (OQuery q')
    /\ _fields q' = VRef 1
    /\ _filter q' = VRef 2
    /\ _sort q' = VRef 3
    /\ _skip q' = num 0
    /\ _limit q' = num 5
    /\ forall l, l < length h -> h2 !! l = h !! l.
Proof.
  intros h.
  apply (plain_object_round_trip parseFloat_decimal 7 0
           (mkQuery (VRef 1) (VRef 2) (VRef 3) (num 5) (num 0) VNull VUndefined)
           h);
    [reflexivity | reflexivity |].
  split; [now exists 1, [] |]. split; [reflexivity |].
  split; [split; [reflexivity | intros _; reflexivity] | reflexivity].
Defined.

(** The claim as worded fails for a query with a component that its
    setter would refuse.  Such queries arise when a query [p] is made the
    sort or the filter of another one, [q]: [q.ascending('_fields')] and
    [q.ascending('_sort')] then assign 1 to the property of [p] that bears
    the name of the field, and [q.exists('_limit')] and [q.exists('_skip')]
    assign it the mapping [{$exists: true}].  [p.toPlainObject()] returns
    an object with that component, and the constructor refuses it. *)
Lemma round_trip_needs_checked_components :
  let copy := copy_through_plain_object parseFloat_decimal in
  copy (mkQuery (num 1) (VRef 2) (VRef 3) VNull (num 0) VNull VUndefined)
  = (Ret (VRef 5), Throw (QueryError "fields must be an Array"))
  /\ copy (mkQuery (VRef 1) (VRef 2) (num 1) VNull (num 0) VNull VUndefined)
     = (Ret (VRef 5), Throw (QueryError "sort must an Object"))
  /\ copy (mkQuery (VRef 1) (VRef 2) (VRef 3) (VRef 4) (num 0) VNull VUndefined)
     = (Ret (VRef 5), Throw (QueryError "limit must be a number"))
  /\ copy (mkQuery (VRef 1) (VRef 2) (VRef 3) VNull (VRef 4) VNull VUndefined)
     = (Ret (VRef 5), Throw (QueryError "skip must be a number")).
Proof. repeat split. Qed.

(** ** Joins *)

Lemma set_own_fresh k x acc :
  lookup_own k acc = None -> parse_index k = None ->
  set_own k x acc = acc ++ [(k, x)].
Proof. intros Hl Hi. unfold set_own. now rewrite Hl, Hi. Qed.

Lemma lookup_own_None k ps :
  k ∉ map fst ps -> lookup_own k ps = None.
Proof.
  induction ps as [| [k' v] ps IH]; intros Hk; simpl; [reflexivity |].
  destruct (String.eqb k k') eqn:E.
  - apply String.eqb_eq in E. subst k'. exfalso. apply Hk. simpl. left.
  - apply IH. intros Hin. apply Hk. simpl. now right.
Qed.

Lemma delete_prop_object l ps k (h : heap) :
  h !! l = Some (OObject ps) ->
  delete_prop (VRef l) k h = (Ret tt, <[l := OObject (remove_own k ps)]> h).
Proof.
  intros E. unfold delete_prop.
  now rewrite (bind_Ret _ _ _ _ _ (read_Some _ _ _ E)).
Qed.

(** The loop of [join] that moves the entries of the filter into
    [currentQuery]. *)
Lemma forEach_members this q lf cq (rest : list (string * value)) :
  _filter q = VRef lf -> lf <> cq -> this <> lf -> this <> cq ->
  forall acc (h : heap),
    h !! this = Some (OQuery q) ->
    h !! lf = Some (OObject rest) ->
    h !! cq = Some (OObject acc) ->
    NoDup (map fst rest) ->
    Forall (fun k => parse_index k = None) (map fst rest) ->
    (forall k, k ∈ map fst rest -> k ∉ map fst acc) ->
    forEach (map fst rest) tt (fun _ member =>
      f <- get_filter this ;;
      x <- get_prop f member ;;
      set_prop (VRef cq) member x ;;;
      f <- get_filter this ;;
      delete_prop f member ;;;
      ret (tt, VUndefined)) h
    = (Ret tt, <[lf := OObject []]> (<[cq := OObject (acc ++ rest)]> h)).
Proof.
  intros Hf Hne Htl Htc.
  induction rest as [| [k x] rest IH]; intros acc h Hq Hlf Hcq Hnd Hix Hdis.
  - simpl. rewrite app_nil_r.
    rewrite (list_insert_id h cq) by assumption.
    now rewrite list_insert_id.
  - change (map fst ((k, x) :: rest)) with (k :: map fst rest) in *.
    apply NoDup_cons in Hnd as [Hk Hnd].
    apply Forall_cons in Hix as [Hi Hix].
    cbn [forEach].
    set (h1 := <[cq := OObject (acc ++ [(k, x)])]> h).
    set (h2 := <[lf := OObject rest]> h1).
    assert (Lq : cq < length h) by eauto using lookup_lt_Some.
    assert (Ll : lf < length h) by eauto using lookup_lt_Some.
    assert (Hq1 : h1 !! this = Some (OQuery q))
      by (unfold h1; now rewrite list_lookup_insert_ne).
    assert (Hlf1 : h1 !! lf = Some (OObject ((k, x) :: rest)))
      by (unfold h1; now rewrite list_lookup_insert_ne).
    assert (E : (f <- get_filter this ;;
                 x <- get_prop f k ;;
                 set_prop (VRef cq) k x ;;;
                 f <- get_filter this ;;
                 delete_prop f k ;;;
                 ret (tt, VUndefined)) h = (Ret (tt, VUndefined), h2)).
    { rewrite (bind_Ret _ _ _ _ _ (get_filter_at _ _ _ Hq)), Hf.
      assert (Hx : lookup_own k ((k, x) :: rest) = Some x)
        by (cbn [lookup_own]; now rewrite String.eqb_refl).
      rewrite (bind_Ret _ _ _ _ _ (get_prop_own _ _ k _ _ Hlf Hx)).
      rewrite (bind_Ret _ _ _ _ _ (set_prop_object _ _ k x _ Hcq)).
      rewrite set_own_fresh;
        [| apply lookup_own_None, Hdis; now left | assumption].
      fold h1.
      rewrite (bind_Ret _ _ _ _ _ (get_filter_at _ _ _ Hq1)), Hf.
      rewrite (bind_Ret _ _ _ _ _ (delete_prop_object _ _ k _ Hlf1)).
      cbn [remove_own]. rewrite String.eqb_refl. reflexivity. }
    rewrite (bind_Ret _ _ _ _ _ E). cbn [snd fst].
    rewrite (IH (acc ++ [(k, x)]) h2).
    + unfold h2, h1. rewrite <- app_assoc. cbn [app]. f_equal. heap_eq.
    + unfold h2. now rewrite list_lookup_insert_ne.
    + unfold h2. apply list_lookup_insert_eq. unfold h1.
      now rewrite length_insert.
    + unfold h2, h1. rewrite list_lookup_insert_ne by congruence.
      now apply list_lookup_insert_eq.
    + assumption.
    + assumption.
    + intros k' Hk' Hin. rewrite map_app in Hin.
      apply elem_of_app in Hin as [Hin | Hin].
      * apply (Hdis k'); [now right | assumption].
      * simpl in Hin. apply list_elem_of_singleton in Hin. subst k'.
        contradiction.
Qed.

Section Joins.

Variable parseFloat : heap -> value -> number.
Variable RegExp : heap -> value -> outcome regexp.

Lemma join_operand_query fuel s (h : heap) :
  unscoped_query h s ->
  join_operand parseFloat (S fuel) (VRef s) h
  = (Ret (match h !! s with
          | Some (OQuery q) => _filter q
          | _ => VUndefined
          end),
     h ++ plain_objects h [s]).
Proof.
  intros (q & Hq & Hp). unfold join_operand, plain_objects. cbn [map].
  rewrite Hq.
  assert (Ei : instanceof_Query (VRef s) h = (Ret true, h)).
  { unfold instanceof_Query.
    now rewrite (bind_Ret _ _ _ _ _ (read_Some _ _ _ Hq)). }
  rewrite (bind_Ret _ _ _ _ _ Ei). cbv iota. unfold callee, toJSON.
  rewrite !bind_ret.
  rewrite (bind_Ret _ _ _ _ _ (toPlainObject_unscoped fuel s q h Hq Hp)).
  erewrite get_prop_own;
    [reflexivity | apply list_lookup_middle; reflexivity | reflexivity].
Qed.

Lemma unscoped_query_app (h : heap) sfx s :
  unscoped_query h s -> unscoped_query (h ++ sfx) s.
Proof.
  intros (q & Hq & Hp). exists q. split; [now apply lookup_app_l_Some | exact Hp].
Qed.

Lemma mapM_join_operand fuel (subs : list loc) :
  forall h : heap,
    Forall (unscoped_query h) subs ->
    mapM (join_operand parseFloat (S fuel)) (map VRef subs) h
    = (Ret (sub_filters h subs), h ++ plain_objects h subs).
Proof.
  induction subs as [| s subs IH]; intros h Hs.
  - simpl. now rewrite app_nil_r.
  - apply Forall_cons in Hs as [Hs Hss]. cbn [map mapM].
    rewrite (bind_Ret _ _ _ _ _ (join_operand_query fuel s h Hs)).
    assert (Hss' : Forall (unscoped_query (h ++ plain_objects h [s])) subs).
    { eapply Forall_impl; [exact Hss |]. intros. now apply unscoped_query_app. }
    rewrite (bind_Ret _ _ _ _ _ (IH _ Hss')).
    assert (Same : forall s', unscoped_query h s' ->
                     (h ++ plain_objects h [s]) !! s' = h !! s').
    { intros s' (q' & Hq' & _). rewrite Hq'. now apply lookup_app_l_Some. }
    assert (E1 : sub_filters (h ++ plain_objects h [s]) subs = sub_filters h subs).
    { unfold sub_filters. apply map_ext_in. intros s' Hin.
      rewrite Same; [reflexivity |].
      rewrite Forall_forall in Hss. apply Hss. now apply list_elem_of_In. }
    assert (E2 : plain_objects (h ++ plain_objects h [s]) subs
                 = plain_objects h subs).
    { unfold plain_objects. apply map_ext_in. intros s' Hin.
      rewrite Same; [reflexivity |].
      rewrite Forall_forall in Hss. apply Hss. now apply list_elem_of_In. }
    rewrite E1, E2. unfold ret. f_equal.
    rewrite <- app_assoc. reflexivity.
Qed.

(** [join] with explicit operands, on a query without owner whose filter
    is a plain object: the entries of the filter move to a new object, and
    the filter is left with the one entry
    [operator: [that object, the filters of the operands]]. *)
Lemma join_explicit fuel this q lf ps operator (subs : list loc) (h : heap) :
  h !! this = Some (OQuery q) ->
  _filter q = VRef lf ->
  h !! lf = Some (OObject ps) ->
  NoDup (map fst ps) ->
  Forall (fun k => parse_index k = None) (map fst ps) ->
  subs <> [] ->
  Forall (unscoped_query h) subs ->
  join parseFloat (S fuel) this operator (map VRef subs) h
  = (Ret (VRef this), joined_store h lf ps operator subs).
Proof.
  intros Hq Hf Hlf Hnd Hix Hsubs Hun. unfold joined_store.
  set (lhs := length h). set (joined := S (length h + length subs)).
  assert (Lt : this < length h) by eauto using lookup_lt_Some.
  assert (Ll : lf < length h) by eauto using lookup_lt_Some.
  assert (Htl : this <> lf) by (intros ->; congruence).
  unfold join. rewrite bind_alloc.
  assert (Hun1 : Forall (unscoped_query (h ++ [OObject []])) subs).
  { eapply Forall_impl; [exact Hun |]. intros. now apply unscoped_query_app. }
  rewrite (bind_Ret _ _ _ _ _ (mapM_join_operand fuel subs _ Hun1)).
  assert (Same : forall s', unscoped_query h s' ->
                   (h ++ [OObject []]) !! s' = h !! s').
  { intros s' (q' & Hq' & _). rewrite Hq'. now apply lookup_app_l_Some. }
  assert (E1 : sub_filters (h ++ [OObject []]) subs = sub_filters h subs).
  { unfold sub_filters. apply map_ext_in. intros s' Hin.
    rewrite Same; [reflexivity |].
    rewrite Forall_forall in Hun. apply Hun. now apply list_elem_of_In. }
  assert (E2 : plain_objects (h ++ [OObject []]) subs = plain_objects h subs).
  { unfold plain_objects. apply map_ext_in. intros s' Hin.
    rewrite Same; [reflexivity |].
    rewrite Forall_forall in Hun. apply Hun. now apply list_elem_of_In. }
  rewrite E1, E2.
  assert (El : (length (sub_filters h subs) =? 0) = false).
  { unfold sub_filters. rewrite length_map. destruct subs; [contradiction |].
    reflexivity. }
  rewrite El. rewrite bind_ret. cbn [fst snd].
  rewrite <- app_assoc. cbn [app].
  set (h1 := h ++ OObject [] :: plain_objects h subs).
  assert (Hq1 : h1 !! this = Some (OQuery q))
    by (unfold h1; now apply lookup_app_l_Some).
  assert (Hlf1 : h1 !! lf = Some (OObject ps))
    by (unfold h1; now apply lookup_app_l_Some).
  assert (Hcq1 : h1 !! lhs = Some (OObject []))
    by (unfold h1, lhs; apply list_lookup_middle; reflexivity).
  rewrite (bind_Ret _ _ _ _ _ (get_filter_at _ _ _ Hq1)), Hf.
  rewrite (bind_Ret _ _ _ _ _ (Object_keys_object _ _ _ Hlf1)).
  rewrite (bind_Ret _ _ _ _ _
             (forEach_members this q lf lhs ps Hf ltac:(unfold lhs; lia) Htl
                ltac:(unfold lhs; lia) [] h1 Hq1 Hlf1 Hcq1 Hnd Hix
                ltac:(intros k _ Hin; simpl in Hin; now apply not_elem_of_nil in Hin))).
  cbn [app].
  set (h2 := <[lf := OObject []]> (<[lhs := OObject ps]> h1)).
  rewrite bind_alloc.
  assert (L2 : length h2 = joined).
  { unfold h2, h1, joined. rewrite !length_insert, length_app. cbn [length].
    unfold plain_objects. rewrite length_map. lia. }
  rewrite L2.
  set (h3 := h2 ++ [OArray (VRef lhs :: sub_filters h subs)]).
  assert (Hq3 : h3 !! this = Some (OQuery q)).
  { unfold h3, h2. apply lookup_app_l_Some.
    rewrite !list_lookup_insert_ne by (unfold lhs; lia). exact Hq1. }
  assert (Hlf3 : h3 !! lf = Some (OObject [])).
  { unfold h3, h2. apply lookup_app_l_Some.
    apply list_lookup_insert_eq. rewrite length_insert. unfold h1.
    rewrite length_app. lia. }
  rewrite (bind_Ret _ _ _ _ _ (get_filter_at _ _ _ Hq3)), Hf.
  rewrite (bind_Ret _ _ _ _ _ (set_prop_object _ _ operator _ _ Hlf3)).
  rewrite set_own_nil. unfold ret. f_equal.
  unfold h3, h2, h1.
  assert (A1 : <[lhs := OObject ps]> (h ++ OObject [] :: plain_objects h subs)
               = h ++ OObject ps :: plain_objects h subs).
  { unfold lhs. replace (length h) with (length h + 0) at 1 by lia.
    now rewrite insert_app_r. }
  rewrite A1.
  set (z := h ++ OObject ps :: plain_objects h subs).
  assert (Lz : lf < length z) by (unfold z; rewrite length_app; lia).
  rewrite (insert_app_l (<[lf := OObject []]> z))
    by (now rewrite length_insert).
  rewrite list_insert_insert_eq.
  rewrite <- insert_app_l by assumption.
  unfold z. rewrite <- app_assoc. reflexivity.
Qed.


(** C2 (the code departs from it): [or()] on a new query returns a new
    query whose property [parent] is the receiver, and whose [_parent], the
    property that the mutators test, is [null].  [ascending('a')],
    [limit = 5] and [skip = 2] on the query returned are stored in that
    query, and the sort, limit and skip of the receiver are what they were;
    [toPlainObject] on the query returned gives its own state.  Only the
    filter is shared, through the array of the join, which holds the filter
    object of the new query. *)
Theorem scope_owner_is_not_consulted fuel :
  let result := run parseFloat RegExp (S fuel) scoped_program [] in
  fst result
  = [Ret (VRef 0); Ret (VRef 6); Ret (VRef 6); Ret VUndefined; Ret VUndefined;
     Ret (VRef 6); Ret (VRef 14)]
  /\ snd result !! 0
     = Some (OQuery (mkQuery (VRef 1) (VRef 2) (VRef 3) VNull (num 0) VNull
                      VUndefined))
  /\ snd result !! 6
     = Some (OQuery (mkQuery (VRef 7) (VRef 8) (VRef 9) (num 5) (num 2) VNull
                      (VRef 0)))
  /\ sort_tree (snd result) 0 = TObject []
  /\ sort_tree (snd result) 6 = TObject [("a", tnum 1)]
  /\ filter_tree (snd result) 0
     = TObject [("$or", TArray [TObject [];
                                TObject [("b", TObject [("$eq", tnum 2)])]])]
  /\ snapshot 1 (snd result) (VRef 14)
     = TObject [("fields", TDeep); ("filter", TDeep); ("sort", TDeep);
                ("skip", tnum 2); ("limit", tnum 5)].
Proof. repeat split. Qed.

End Joins.



(** The same through the fluent form: [and()] and [or()] without
    operands.  The query that [and()] returns has no owner in [_parent], so
    its [or()] joins onto itself and the OR ends up inside the AND. *)
Example fluent_or_nested_in_and :
  let t := filter_tree (snd (exec fluent_and_or)) 0 in
  t = TObject
        [("$and",
          TArray
            [TObject [("a", TObject [("$eq", tnum 1)])];
             TObject
               [("$or",
                 TArray [TObject [("b", TObject [("$eq", tnum 2)])];
                         TObject [("c", TObject [("$eq", tnum 3)])]])]])]
  /\ precedence_respected t = false.
Proof. repeat split. Qed.

(** ** A refusal comes before the first write *)

Section Refusals.

Variable parseFloat : heap -> value -> number.
Variable RegExp : heap -> value -> outcome regexp.

Lemma join_operand_refused fuel v (h : heap) :
  isObject v = false ->
  join_operand parseFloat fuel v h
  = (Throw (QueryError
       "query argument must be of type: Kinvey.Query[] or Object[]."), h).
Proof. destruct v; intros Hv; try discriminate; reflexivity. Qed.

Lemma mapM_join_operand_refused fuel (subs : list loc) v rest :
  forall h : heap,
    Forall (unscoped_query h) subs ->
    isObject v = false ->
    mapM (join_operand parseFloat (S fuel)) (map VRef subs ++ v :: rest) h
    = (Throw (QueryError
         "query argument must be of type: Kinvey.Query[] or Object[]."),
       h ++ plain_objects h subs).
Proof.
  induction subs as [| s subs IH]; intros h Hs Hv.
  - cbn [map app mapM plain_objects].
    rewrite (bind_Throw _ _ _ _ _ (join_operand_refused (S fuel) v h Hv)).
    now rewrite app_nil_r.
  - apply Forall_cons in Hs as [Hs Hss]. cbn [map app mapM].
    rewrite (bind_Ret _ _ _ _ _ (join_operand_query parseFloat fuel s h Hs)).
    assert (Hss' : Forall (unscoped_query (h ++ plain_objects h [s])) subs).
    { eapply Forall_impl; [exact Hss |]. intros. now apply unscoped_query_app. }
    rewrite (bind_Throw _ _ _ _ _ (IH _ Hss' Hv)).
    assert (E : plain_objects (h ++ plain_objects h [s]) subs
                = plain_objects h subs).
    { unfold plain_objects. apply map_ext_in. intros s' Hin.
      rewrite Forall_forall in Hss.
      destruct (Hss s' (proj2 (list_elem_of_In _ _) Hin)) as (q' & Hq' & _).
      rewrite Hq'. now rewrite (lookup_app_l_Some _ _ _ _ Hq'). }
    rewrite E. f_equal. rewrite <- app_assoc. reflexivity.
Qed.

Lemma join_refused fuel this operator (subs : list loc) v rest (h : heap) :
  Forall (unscoped_query h) subs ->
  isObject v = false ->
  join parseFloat (S fuel) this operator (map VRef subs ++ v :: rest) h
  = (Throw (QueryError
       "query argument must be of type: Kinvey.Query[] or Object[]."),
     h ++ OObject [] :: plain_objects h subs).
Proof.
  intros Hs Hv. unfold join. rewrite bind_alloc.
  assert (Hs' : Forall (unscoped_query (h ++ [OObject []])) subs).
  { eapply Forall_impl; [exact Hs |]. intros. now apply unscoped_query_app. }
  rewrite (bind_Throw _ _ _ _ _
             (mapM_join_operand_refused fuel subs v rest _ Hs' Hv)).
  f_equal. rewrite <- app_assoc. cbn [app]. do 2 f_equal.
  unfold plain_objects. apply map_ext_in. intros s' Hin.
  rewrite Forall_forall in Hs.
  destruct (Hs s' (proj2 (list_elem_of_In _ _) Hin)) as (q' & Hq' & _).
  rewrite Hq'. now rewrite (lookup_app_l_Some _ _ _ _ Hq').
Qed.

(** C9: the validations made when a condition is added come before the
    first write, and each of them does throw.  A comparison with a value
    that is neither a number nor a string throws and leaves the store as it
    is.  [matches], with options that are absent or a plain object, throws
    for an expression that asks for case-insensitivity or is not anchored;
    and a join throws at the first operand that is neither an object nor a
    query, the operands before it being queries without owner.  After
    these two the store is the one before the call followed by new objects
    that nothing refers to: the query, its filter and every object below
    them are what they were. *)
Theorem QueryError_before_any_write fuel this field (h : heap) :
  (forall v,
     isNumber v = false -> isString v = false ->
     let refused :=
       (Throw (QueryError "You must supply a number or string."), h) in
     greaterThan this field v h = refused
     /\ greaterThanOrEqualTo this field v h = refused
     /\ lessThan this field v h = refused
     /\ lessThanOrEqualTo this field v h = refused)
  /\ (forall regExp r options,
        plain_options h options ->
        (forall h', to_regexp RegExp regExp h' = (Ret r, h')) ->
        wants_ignoreCase r (option_value h options "ignoreCase") = true
        \/ starts_with_caret (source r) = false ->
        exists msg added,
          matches RegExp this field regExp options h
          = (Throw (QueryError msg), h ++ added))
  /\ (forall q (subs : list loc) v rest,
        h !! this = Some (OQuery q) ->
        truthy (_parent q) = false ->
        Forall (unscoped_query h) subs ->
        isObject v = false ->
        let args := map VRef subs ++ v :: rest in
        let refused :=
          (Throw (QueryError
             "query argument must be of type: Kinvey.Query[] or Object[]."),
           h ++ OObject [] :: plain_objects h subs) in
        Query_and parseFloat (S fuel) this args h = refused
        /\ Query_nor parseFloat (S fuel) this args h = refused
        /\ Query_or parseFloat (S fuel) this args h = refused).
Proof.
  split; [| split].
  - intros v Hn Hs refused.
    unfold greaterThan, greaterThanOrEqualTo, lessThan, lessThanOrEqualTo.
    rewrite Hn, Hs. repeat split.
  - intros regExp r options Ho Hr Hbad.
    destruct (matches_options options h Ho) as (o' & h1 & E1 & E2).
    assert (Hh1 : exists added, h1 = h ++ added).
    { destruct Ho as [-> | (l & ps & -> & _)].
      - exists [OObject []]. now injection E1 as _ <-.
      - exists []. injection E1 as _ <-. now rewrite app_nil_r. }
    destruct Hh1 as (added & ->).
    unfold matches.
    rewrite (bind_Ret _ _ _ _ _ E1), (bind_Ret _ _ _ _ _ (Hr _)).
    rewrite !(bind_Ret _ _ _ _ _ (E2 "ignoreCase" eq_refl)).
    fold (wants_ignoreCase r (option_value h options "ignoreCase")).
    destruct (wants_ignoreCase r (option_value h options "ignoreCase")).
    + now exists "ignoreCase glag is not supported.", added.
    + destruct Hbad as [Hbad | Hbad]; [discriminate |]. rewrite Hbad.
      now eexists _, added.
  - intros q subs v rest Hq Hp Hs Hv args refused.
    pose proof (join_refused fuel this) as J.
    repeat split.
    + unfold Query_and. now apply J.
    + cbn [Query_nor].
      rewrite (bind_Ret _ _ _ _ _ (get__parent_at _ _ _ Hq)), Hp.
      rewrite bind_ret. now apply J.
    + cbn [Query_or].
      rewrite (bind_Ret _ _ _ _ _ (get__parent_at _ _ _ Hq)), Hp.
      now apply J.
Qed.

End Refusals.

Lemma QueryError_before_any_write_witness :
  let h := snd (exec [New VUndefined; EqualTo 0 "a" (num 1); New VUndefined]) in
  greaterThan 0 "a" VNull h
  = (Throw (QueryError "You must supply a number or string."), h)
  /\ (exists msg added,
        matches RegExp_plain 0 "a" (PRegExp (mkRegExp "foo" false false))
          VUndefined h
        = (Throw (QueryError msg), h ++ added))
  /\ Query_or parseFloat_decimal 8 0 [VRef 6; VStr "b"] h
     = (Throw (QueryError
          "query argument must be of type: Kinvey.Query[] or Object[]."),
        h ++ OObject [] :: plain_objects h [6]).
Proof.
  intros h.
  destruct (QueryError_before_any_write parseFloat_decimal RegExp_plain 7
              0 "a" h) as (Hc & Hm & Hj).
  split; [| split].
  - now apply Hc.
  - apply (Hm (PRegExp (mkRegExp "foo" false false))
              (mkRegExp "foo" false false) VUndefined).
    + now left.
    + reflexivity.
    + now right.
  - apply (Hj (mkQuery (VRef 1) (VRef 2) (VRef 3) VNull (num 0) VNull VUndefined)
              [6] (VStr "b") []).
    + reflexivity.
    + reflexivity.
    + repeat constructor.
      now exists (mkQuery (VRef 7) (VRef 8) (VRef 9) VNull (num 0) VNull VUndefined).
    + reflexivity.
Defined.

(** * Further properties of the class *)

(** ** Running a method step by step *)

Lemma bind_assoc {A B C} (m : M A) (f : A -> M B) (g : B -> M C) h :
  bind (bind m f) g h = bind m (fun x => bind (f x) g) h.
Proof. unfold bind. now destruct (m h) as [[] ?]. Qed.

Lemma lookup_tail (h l : heap) k : (h ++ l) !! (length h + k) = l !! k.
Proof. rewrite lookup_app_r by lia. f_equal. lia. Qed.

Lemma lookup_tail0 (h l : heap) : (h ++ l) !! length h = l !! 0.
Proof. rewrite <- (lookup_tail h l 0). f_equal. lia. Qed.

Lemma insert_tail (h l : heap) k x :
  <[length h + k := x]> (h ++ l) = h ++ <[k := x]> l.
Proof. apply insert_app_r. Qed.

Lemma insert_tail0 (h l : heap) x :
  <[length h := x]> (h ++ l) = h ++ <[0 := x]> l.
Proof. rewrite <- (insert_tail h l 0). f_equal. lia. Qed.

Lemma insert_new_old (h l : heap) i y k x :
  i < length h ->
  <[length h + k := x]> (<[i := y]> l) = <[i := y]> (<[length h + k := x]> l).
Proof. intros L. apply list_insert_insert_ne. lia. Qed.

Lemma insert_new_old0 (h l : heap) i y x :
  i < length h ->
  <[length h := x]> (<[i := y]> l) = <[i := y]> (<[length h := x]> l).
Proof. intros L. apply list_insert_insert_ne. lia. Qed.

Lemma insert_old (h l : heap) i x :
  i < length h -> <[i := x]> h ++ l = <[i := x]> (h ++ l).
Proof. intros L. symmetry. now apply insert_app_l. Qed.

Lemma isArray_array l es (h : heap) :
  h !! l = Some (OArray es) -> isArray (VRef l) h = (Ret true, h).
Proof.
  intros E. unfold isArray.
  now rewrite (bind_Ret _ _ _ _ _ (read_Some _ _ _ E)).
Qed.

Lemma isArray_object l ps (h : heap) :
  h !! l = Some (OObject ps) -> isArray (VRef l) h = (Ret false, h).
Proof.
  intros E. unfold isArray.
  now rewrite (bind_Ret _ _ _ _ _ (read_Some _ _ _ E)).
Qed.

Lemma isArray_query l q (h : heap) :
  h !! l = Some (OQuery q) -> isArray (VRef l) h = (Ret false, h).
Proof.
  intros E. unfold isArray.
  now rewrite (bind_Ret _ _ _ _ _ (read_Some _ _ _ E)).
Qed.

Lemma instanceof_Query_query l q (h : heap) :
  h !! l = Some (OQuery q) -> instanceof_Query (VRef l) h = (Ret true, h).
Proof.
  intros E. unfold instanceof_Query.
  now rewrite (bind_Ret _ _ _ _ _ (read_Some _ _ _ E)).
Qed.

Lemma instanceof_Query_object l ps (h : heap) :
  h !! l = Some (OObject ps) -> instanceof_Query (VRef l) h = (Ret false, h).
Proof.
  intros E. unfold instanceof_Query.
  now rewrite (bind_Ret _ _ _ _ _ (read_Some _ _ _ E)).
Qed.

Lemma array_elems_array l es (h : heap) :
  h !! l = Some (OArray es) -> array_elems (VRef l) h = (Ret es, h).
Proof.
  intros E. unfold array_elems, callee. rewrite bind_ret.
  now rewrite (bind_Ret _ _ _ _ _ (read_Some _ _ _ E)).
Qed.

Lemma array_own_0 es : array_own es "0" = es !! 0.
Proof. reflexivity. Qed.

Lemma array_own_1 es : array_own es "1" = es !! 1.
Proof. reflexivity. Qed.

Lemma set_prop_array_0 l x es v (h : heap) :
  h !! l = Some (OArray (x :: es)) ->
  set_prop (VRef l) "0" v h = (Ret tt, <[l := OArray (v :: es)]> h).
Proof.
  intros E. unfold set_prop.
  now rewrite (bind_Ret _ _ _ _ _ (read_Some _ _ _ E)).
Qed.

Lemma set_prop_array_1 l x y es v (h : heap) :
  h !! l = Some (OArray (x :: y :: es)) ->
  set_prop (VRef l) "1" v h = (Ret tt, <[l := OArray (x :: v :: es)]> h).
Proof.
  intros E. unfold set_prop.
  now rewrite (bind_Ret _ _ _ _ _ (read_Some _ _ _ E)).
Qed.

Lemma get_sort_at this q (h : heap) :
  h !! this = Some (OQuery q) -> get_sort this h = (Ret (_sort q), h).
Proof.
  intros E. unfold get_sort.
  now rewrite (bind_Ret _ _ _ _ _ (this_query_Some _ _ _ E)).
Qed.

Lemma get_fields_at this q (h : heap) :
  h !! this = Some (OQuery q) -> get_fields this h = (Ret (_fields q), h).
Proof.
  intros E. unfold get_fields.
  now rewrite (bind_Ret _ _ _ _ _ (this_query_Some _ _ _ E)).
Qed.

Lemma get_limit_at this q (h : heap) :
  h !! this = Some (OQuery q) -> get_limit this h = (Ret (_limit q), h).
Proof.
  intros E. unfold get_limit.
  now rewrite (bind_Ret _ _ _ _ _ (this_query_Some _ _ _ E)).
Qed.

Lemma get_skip_at this q (h : heap) :
  h !! this = Some (OQuery q) -> get_skip this h = (Ret (_skip q), h).
Proof.
  intros E. unfold get_skip.
  now rewrite (bind_Ret _ _ _ _ _ (this_query_Some _ _ _ E)).
Qed.

(** The store is kept in the form [<[l := o]> (h ++ [o1; ...; on])]: the
    objects of [h] that were updated, and the objects allocated since. *)
Ltac old_loc :=
  rewrite ?length_insert, ?length_app; cbn [length];
  first [ lia | eauto using lookup_lt_Some; fail ].

Ltac tail_norm :=
  repeat first [ rewrite lookup_tail | rewrite lookup_tail0
               | rewrite insert_tail | rewrite insert_tail0
               | rewrite insert_old by old_loc
               | rewrite insert_new_old by old_loc
               | rewrite insert_new_old0 by old_loc
               | rewrite list_insert_insert_eq
               | rewrite <- app_assoc ];
  cbn [lookup list_lookup insert list_insert app].

Ltac at_loc :=
  first [ eassumption
        | tail_norm; reflexivity
        | apply lookup_app_l_Some; at_loc
        | rewrite list_lookup_insert_ne by lia; at_loc
        | apply list_lookup_insert_eq; old_loc ].

Ltac js_leaf :=
  lazymatch goal with
  | |- get_prop (VRef _) _ _ = _ =>
      first [ eapply get_prop_object; at_loc | eapply get_prop_array; at_loc ]
  | |- set_prop (VRef _) "0" _ _ = _ =>
      first [ eapply set_prop_object; at_loc
            | eapply set_prop_array_0; at_loc ]
  | |- set_prop (VRef _) "1" _ _ = _ =>
      first [ eapply set_prop_object; at_loc
            | eapply set_prop_array_1; at_loc ]
  | |- set_prop (VRef _) _ _ _ = _ => eapply set_prop_object; at_loc
  | |- delete_prop (VRef _) _ _ = _ => eapply delete_prop_object; at_loc
  | |- Object_keys (VRef _) _ = _ => eapply Object_keys_object; at_loc
  | |- isArray (VRef _) _ = _ =>
      first [ eapply isArray_array; at_loc | eapply isArray_object; at_loc
            | eapply isArray_query; at_loc ]
  | |- instanceof_Query (VRef _) _ = _ =>
      first [ eapply instanceof_Query_query; at_loc
            | eapply instanceof_Query_object; at_loc ]
  | |- array_elems (VRef _) _ = _ => eapply array_elems_array; at_loc
  | |- get__parent _ _ = _ => eapply get__parent_at; at_loc
  | |- get_filter _ _ = _ => eapply get_filter_at; at_loc
  | |- get_sort _ _ = _ => eapply get_sort_at; at_loc
  | |- get_fields _ _ = _ => eapply get_fields_at; at_loc
  | |- get_limit _ _ = _ => eapply get_limit_at; at_loc
  | |- get_skip _ _ = _ => eapply get_skip_at; at_loc
  | |- this_query _ _ = _ => eapply this_query_Some; at_loc
  | |- read _ _ = _ => eapply read_Some; at_loc
  | |- update_query _ _ _ = _ => eapply update_query_Ret; at_loc
  | |- toPlainObject (S _) _ _ = _ =>
      eapply toPlainObject_unscoped;
      [ at_loc | first [ reflexivity | eassumption ] ]
  | |- _ => reflexivity
  end.

(** Locations of the objects allocated since [h], as [length h + k]. *)
Ltac allocated :=
  repeat rewrite length_insert; repeat rewrite length_app; cbn [length];
  rewrite <- ?Nat.add_assoc; cbn [Nat.add].

Ltac js_simp :=
  cbv beta iota; allocated;
  cbn [truthy negb andb orb isObject isString isNumber fst snd
       _fields _filter _sort _limit _skip _parent parent blank
       with_fields with_filter with_sort with_limit with_skip with__parent
       with_parent lookup_own String.eqb Ascii.eqb Bool.eqb or_undefined num];
  rewrite ?array_own_0, ?array_own_1;
  tail_norm.

Ltac js_step :=
  first [ rewrite bind_assoc | rewrite bind_ret
        | rewrite bind_alloc
        | rewrite bind_get_heap | erewrite bind_Ret by js_leaf ];
  js_simp.

Ltac js_done := allocated; tail_norm; reflexivity.

(** ** The constructor without options *)

Section Defaults.

Variable parseFloat : heap -> value -> number.

Lemma Query_new_default fuel options (h : heap) :
  options = VUndefined \/ options = VNull ->
  Query_new parseFloat (S fuel) options h
  = (Ret (length h),
     h ++ [OQuery (mkQuery (VRef (length h + 1)) (VRef (length h + 2))
                     (VRef (length h + 3)) VNull (num 0) VNull VUndefined);
           OArray []; OObject []; OObject [];
           OObject [("fields", VRef (length h + 1));
                    ("filter", VRef (length h + 2));
                    ("sort", VRef (length h + 3)); ("limit", VNull);
                    ("skip", num 0)]]).
Proof.
  intros Ho. unfold Query_new. rewrite !bind_alloc. allocated. tail_norm.
  assert (Ea : forall t (h : heap), assign t options h = (Ret t, h)).
  { intros t h'. destruct Ho as [-> | ->]; reflexivity. }
  rewrite (bind_Ret _ _ _ _ _ (Ea _ _)).
  js_step. cbn [set_fields]. js_simp. repeat js_step.
  unfold set_filter. repeat js_step.
  unfold set_sort. js_simp. repeat js_step.
  cbn [set_limit]. repeat js_step.
  unfold set_skip. cbv zeta. js_simp. repeat js_step.
  reflexivity.
Qed.

End Defaults.

(** ** A join without operands *)

Section ScopeOpen.

Variable parseFloat : heap -> value -> number.

Lemma join_scope_open fuel this q lf ps operator (h : heap) :
  h !! this = Some (OQuery q) ->
  _filter q = VRef lf ->
  h !! lf = Some (OObject ps) ->
  NoDup (map fst ps) ->
  Forall (fun k => parse_index k = None) (map fst ps) ->
  join parseFloat (S fuel) this operator [] h
  = (Ret (VRef (length h + 1)), scope_store h this lf ps operator).
Proof.
  intros Hq Hf Hlf Hnd Hix. unfold scope_store.
  assert (Lt : this < length h) by eauto using lookup_lt_Some.
  assert (Ll : lf < length h) by eauto using lookup_lt_Some.
  assert (Htl : this <> lf) by (intros ->; congruence).
  unfold join. rewrite bind_alloc. cbn [mapM]. rewrite bind_ret.
  cbn [length Nat.eqb]. cbv iota.
  rewrite bind_assoc.
  rewrite (bind_Ret _ _ _ _ _
             (Query_new_default parseFloat fuel VUndefined _ (or_introl eq_refl))).
  allocated. tail_norm. unfold toJSON.
  repeat js_step. rewrite Hf. js_step.
  erewrite bind_Ret
    by (eapply (forEach_members this q lf (length h) ps Hf) with (acc := []);
        [ lia | exact Htl | lia | at_loc | at_loc | at_loc | exact Hnd
        | exact Hix
        | intros k _ Hin; simpl in Hin; now apply not_elem_of_nil in Hin ]).
  js_simp. repeat js_step. rewrite Hf. js_step.
  rewrite set_own_nil. unfold default_options. allocated. reflexivity.
Qed.

(** X1: on a query whose [_parent] is falsy and whose filter is a plain
    object (no entry of which is named by an array index or [__proto__]),
    [and()], [nor()] and [or()] without operands return a new query,
    whose [parent] is the receiver; the entries of the receiver's filter move
    to a new object and the filter is left with the one entry
    [operator: [entries, filter of the new query]].  The second member is the
    filter object of the new query itself, not a copy: a condition added to
    the new query afterwards, under ordinary names, is seen through the
    filter of the receiver. *)
Theorem join_without_operands fuel this q lf ps (h : heap) :
  h !! this = Some (OQuery q) ->
  truthy (_parent q) = false ->
  _filter q = VRef lf ->
  h !! lf = Some (OObject ps) ->
  NoDup (map fst ps) ->
  Forall (fun k => parse_index k = None) (map fst ps) ->
  Forall (fun k => assignable k = true) (map fst ps) ->
  let n := length h in
  Query_and parseFloat (S fuel) this [] h
  = (Ret (VRef (n + 1)), scope_store h this lf ps "$and")
  /\ Query_nor parseFloat (S fuel) this [] h
     = (Ret (VRef (n + 1)), scope_store h this lf ps "$nor")
  /\ Query_or parseFloat (S fuel) this [] h
     = (Ret (VRef (n + 1)), scope_store h this lf ps "$or")
  /\ forall operator field condition v,
       inherited field = false ->
       assignable condition = true ->
       exists h',
         addFilter (n + 1) field condition v (scope_store h this lf ps operator)
         = (Ret (VRef (n + 1)), h')
         /\ h' !! lf = Some (OObject [(operator, VRef (n + 7))])
         /\ h' !! (n + 7) = Some (OArray [VRef n; VRef (n + 3)])
         /\ h' !! n = Some (OObject ps)
         /\ h' !! (n + 3) = Some (OObject [(field, VRef (n + 8))])
         /\ h' !! (n + 8) = Some (OObject [(condition, v)]).
Proof.
  intros Hq Hp Hf Hlf Hnd Hix _ n.
  assert (Ll : lf < length h) by eauto using lookup_lt_Some.
  split; [| split; [| split]].
  - now apply join_scope_open with (q := q).
  - cbn [Query_nor].
    rewrite (bind_Ret _ _ _ _ _ (get__parent_at _ _ _ Hq)), Hp.
    rewrite bind_ret. now apply join_scope_open with (q := q).
  - cbn [Query_or].
    rewrite (bind_Ret _ _ _ _ _ (get__parent_at _ _ _ Hq)), Hp.
    now apply join_scope_open with (q := q).
  - intros operator field condition v Hfield _.
    set (s := scope_store h this lf ps operator).
    assert (Ls : length s = n + 8).
    { unfold s, scope_store. rewrite length_insert, length_app.
      cbn [length]. unfold n. lia. }
    assert (Hthat : s !! (n + 1)
                    = Some (OQuery (mkQuery (VRef (n + 2)) (VRef (n + 3))
                                      (VRef (n + 4)) VNull (num 0) VNull
                                      (VRef this)))).
    { unfold s, scope_store, n. rewrite list_lookup_insert_ne by lia.
      now rewrite lookup_tail. }
    assert (Hfil : s !! (n + 3) = Some (OObject [])).
    { unfold s, scope_store, n. rewrite list_lookup_insert_ne by lia.
      now rewrite lookup_tail. }
    eexists. split.
    + apply (addFilter_new_field (n + 1) _ (n + 3) [] field condition v s
               Hthat eq_refl Hfil eq_refl Hfield).
    + rewrite Ls, set_own_nil. unfold s, scope_store. fold n.
      assert (Lf : lf < length (h ++ [OObject ps;
           OQuery (mkQuery (VRef (n + 2)) (VRef (n + 3)) (VRef (n + 4)) VNull
                     (num 0) VNull (VRef this));
           OArray []; OObject []; OObject [];
           OObject (default_options (n + 1));
           OObject [("fields", VRef (n + 2)); ("filter", VRef (n + 3));
                    ("sort", VRef (n + 4)); ("skip", num 0);
                    ("limit", VNull)];
           OArray [VRef n; VRef (n + 3)]]))
        by (rewrite length_app; lia).
      repeat split.
      * apply lookup_app_l_Some.
        rewrite list_lookup_insert_ne by (unfold n; lia).
        now apply list_lookup_insert_eq.
      * apply lookup_app_l_Some.
        rewrite !list_lookup_insert_ne by (unfold n; lia).
        unfold n. now rewrite lookup_tail.
      * apply lookup_app_l_Some.
        rewrite !list_lookup_insert_ne by (unfold n; lia).
        unfold n. now rewrite lookup_tail0.
      * apply lookup_app_l_Some. apply list_lookup_insert_eq.
        rewrite length_insert, length_app. cbn [length]. unfold n. lia.
      * rewrite lookup_app_r
          by (rewrite !length_insert, length_app; cbn [length]; unfold n; lia).
        rewrite !length_insert, length_app. cbn [length]. fold n.
        now replace (n + 8 - (n + 8)) with 0 by lia.
Qed.

End ScopeOpen.

Lemma join_without_operands_witness :
  let h := snd (exec [New VUndefined; EqualTo 0 "a" (num 1)]) in
  Query_and parseFloat_decimal 8 0 [] h
  = (Ret (VRef 7), scope_store h 0 2 [("a", VRef 5)] "$and")
  /\ Query_nor parseFloat_decimal 8 0 [] h
     = (Ret (VRef 7), scope_store h 0 2 [("a", VRef 5)] "$nor")
  /\ Query_or parseFloat_decimal 8 0 [] h
     = (Ret (VRef 7), scope_store h 0 2 [("a", VRef 5)] "$or")
  /\ forall operator field condition v,
       inherited field = false ->
       assignable condition = true ->
       exists h',
         addFilter 7 field condition v (scope_store h 0 2 [("a", VRef 5)] operator)
         = (Ret (VRef 7), h')
         /\ h' !! 2 = Some (OObject [(operator, VRef 13)])
         /\ h' !! 13 = Some (OArray [VRef 6; VRef 9])
         /\ h' !! 6 = Some (OObject [("a", VRef 5)])
         /\ h' !! 9 = Some (OObject [(field, VRef 14)])
         /\ h' !! 14 = Some (OObject [(condition, v)]).
Proof.
  intros h.
  apply (join_without_operands parseFloat_decimal 7 0
           (mkQuery (VRef 1) (VRef 2) (VRef 3) VNull (num 0) VNull VUndefined)
           2 [("a", VRef 5)] h); try reflexivity.
  - repeat constructor. rewrite list_elem_of_In. simpl. tauto.
  - repeat constructor.
  - repeat constructor.
Defined.

(** ** What holds of every query a program reaches *)

Section Reachable.

Variable parseFloat : heap -> value -> number.
Variable RegExp : heap -> value -> outcome regexp.

(** X2: after any program over the public interface that works on plain
    data, no query delegates: its [_parent] is falsy, so [or] and [nor] join
    onto the query they are called on, [ascending] and [descending] write to
    its own sort object and [toPlainObject] returns a new object with its
    own five components. *)
Theorem queries_never_delegate fuel program this q :
  let result := run parseFloat RegExp fuel program [] in
  let h := snd result in
  plain_program (fst result) program ->
  h !! this = Some (OQuery q) ->
  truthy (_parent q) = false
  /\ (forall n args,
        Query_or parseFloat (S n) this args h
        = join parseFloat (S n) this "$or" args h)
  /\ (forall n args,
        Query_nor parseFloat (S n) this args h
        = join parseFloat (S n) this "$nor" args h)
  /\ (forall n field,
        ascending (S n) this field h
        = (set_prop (_sort q) field (num 1) ;;; ret (VRef this)) h)
  /\ (forall n field,
        descending (S n) this field h
        = (set_prop (_sort q) field (num (-1)) ;;; ret (VRef this)) h)
  /\ (forall n,
        toPlainObject (S n) this h
        = (Ret (VRef (length h)),
           h ++ [OObject [("fields", _fields q); ("filter", _filter q);
                          ("sort", _sort q); ("skip", _skip q);
                          ("limit", _limit q)]])).
Proof.
  intros result h _ Hq.
  assert (Hp : truthy (_parent q) = false)
    by exact (never_scoped parseFloat RegExp fuel program this q Hq).
  split; [exact Hp |].
  repeat split; intros n.
  - intros args. cbn [Query_or].
    now rewrite (bind_Ret _ _ _ _ _ (get__parent_at _ _ _ Hq)), Hp.
  - intros args. cbn [Query_nor].
    rewrite (bind_Ret _ _ _ _ _ (get__parent_at _ _ _ Hq)), Hp.
    now rewrite bind_ret.
  - intros field. cbn [ascending].
    rewrite (bind_Ret _ _ _ _ _ (get__parent_at _ _ _ Hq)), Hp.
    rewrite !bind_assoc.
    now rewrite (bind_Ret _ _ _ _ _ (get_sort_at _ _ _ Hq)).
  - intros field. cbn [descending].
    rewrite (bind_Ret _ _ _ _ _ (get__parent_at _ _ _ Hq)), Hp.
    rewrite !bind_assoc.
    now rewrite (bind_Ret _ _ _ _ _ (get_sort_at _ _ _ Hq)).
  - now apply toPlainObject_unscoped.
Qed.

(** X3: after any program over the public interface that works on plain
    data, the fields of a query that its constructor returned are an array
    of the store and its sort is an object: the setters let nothing else
    through, and no method turns an array into something else. *)
Theorem fields_stay_an_array fuel program this q :
  let result := run parseFloat RegExp fuel program [] in
  let h := snd result in
  plain_program (fst result) program ->
  h !! this = Some (OQuery q) ->
  _parent q = VNull ->
  (exists l es, _fields q = VRef l /\ h !! l = Some (OArray es))
  /\ isObject (_sort q) = true.
Proof.
  intros result h _ Hq Hc.
  destruct (queries_ok_program parseFloat RegExp fuel program _ _ Hq)
    as (_ & Hw).
  destruct (Hw Hc) as (Hf & Hs & _). split; [exact Hf | exact Hs].
Qed.

End Reachable.


Lemma queries_never_delegate_witness :
  let h := snd (exec scoped_program) in
  let q := mkQuery (VRef 7) (VRef 8) (VRef 9) (num 5) (num 2) VNull (VRef 0) in
  truthy (_parent q) = false
  /\ (forall n args,
        Query_or parseFloat_decimal (S n) 6 args h
        = join parseFloat_decimal (S n) 6 "$or" args h)
  /\ (forall n args,
        Query_nor parseFloat_decimal (S n) 6 args h
        = join parseFloat_decimal (S n) 6 "$nor" args h)
  /\ (forall n field,
        ascending (S n) 6 field h
        = (set_prop (_sort q) field (num 1) ;;; ret (VRef 6)) h)
  /\ (forall n field,
        descending (S n) 6 field h
        = (set_prop (_sort q) field (num (-1)) ;;; ret (VRef 6)) h)
  /\ (forall n,
        toPlainObject (S n) 6 h
        = (Ret (VRef (length h)),
           h ++ [OObject [("fields", _fields q); ("filter", _filter q);
                          ("sort", _sort q); ("skip", _skip q);
                          ("limit", _limit q)]])).
Proof.
  intros h q.
  apply (queries_never_delegate parseFloat_decimal RegExp_plain 8
           scoped_program 6 q).
  - split; reflexivity.
  - reflexivity.
Defined.

Lemma fields_stay_an_array_witness :
  let h := snd (exec [Array_literal [VStr "a"]; New VUndefined;
                      SetFields 1 (VRef 0); Descending 1 "a"]) in
  (exists l es, VRef 0 = VRef l /\ h !! l = Some (OArray es))
  /\ isObject (VRef 4) = true.
Proof.
  intros h.
  apply (fields_stay_an_array parseFloat_decimal RegExp_plain 8
           [Array_literal [VStr "a"]; New VUndefined;
            SetFields 1 (VRef 0); Descending 1 "a"] 1
           (mkQuery (VRef 0) (VRef 3) (VRef 4) VNull (num 0) VNull VUndefined));
    [split; reflexivity | reflexivity | reflexivity].
Defined.

(** ** Conditions on one field *)

Lemma lookup_replace_own_ne k k' v ps :
  k <> k' -> lookup_own k (replace_own k' v ps) = lookup_own k ps.
Proof.
  intros Hne. induction ps as [| [k0 v0] ps IH]; [reflexivity |].
  cbn [replace_own]. destruct (String.eqb_spec k' k0) as [-> | Hk].
  - cbn [lookup_own]. destruct (String.eqb_spec k k0); [contradiction |].
    reflexivity.
  - cbn [lookup_own]. now rewrite IH.
Qed.

Lemma lookup_insert_index_ne k i k' v ps :
  k <> k' -> lookup_own k (insert_index i k' v ps) = lookup_own k ps.
Proof.
  intros Hne. induction ps as [| [k0 v0] ps IH].
  - cbn [insert_index lookup_own].
    destruct (String.eqb_spec k k'); [contradiction | reflexivity].
  - cbn [insert_index].
    assert (E : lookup_own k ((k', v) :: (k0, v0) :: ps)
                = lookup_own k ((k0, v0) :: ps)).
    { cbn [lookup_own]. destruct (String.eqb_spec k k'); [contradiction |].
      reflexivity. }
    destruct (parse_index k0) as [j |]; [| exact E].
    destruct (j <? i); [| exact E].
    cbn [lookup_own]. now rewrite IH.
Qed.

Lemma lookup_own_app_r k ps k' v :
  k <> k' -> lookup_own k (ps ++ [(k', v)]) = lookup_own k ps.
Proof.
  intros Hne. induction ps as [| [k0 v0] ps IH].
  - cbn [app lookup_own].
    destruct (String.eqb_spec k k'); [contradiction | reflexivity].
  - cbn [app lookup_own]. now rewrite IH.
Qed.

Lemma lookup_set_own_ne k k' v ps :
  k <> k' -> lookup_own k (set_own k' v ps) = lookup_own k ps.
Proof.
  intros Hne. unfold set_own. destruct (lookup_own k' ps).
  - now apply lookup_replace_own_ne.
  - destruct (parse_index k').
    + now apply lookup_insert_index_ne.
    + now apply lookup_own_app_r.
Qed.







(** Two conditions on a field that had none. *)
Lemma addFilter_twice this q lf ps field c1 v1 c2 v2 (h : heap) :
  h !! this = Some (OQuery q) ->
  _filter q = VRef lf ->
  h !! lf = Some (OObject ps) ->
  isObject (or_undefined (lookup_own field ps)) = false ->
  inherited field = false ->
  (addFilter this field c1 v1 ;;; addFilter this field c2 v2) h
  = (Ret (VRef this),
     <[lf := OObject (set_own field (VRef (length h)) ps)]> h
       ++ [OObject (set_own c2 v2 [(c1, v1)])]).
Proof.
  intros Hq Hf Hlf Hn Hord.
  assert (Lt : this < length h) by eauto using lookup_lt_Some.
  assert (Ll : lf < length h) by eauto using lookup_lt_Some.
  assert (Htl : this <> lf) by (intros ->; congruence).
  rewrite (bind_Ret _ _ _ _ _
             (addFilter_new_field this q lf ps field c1 v1 h Hq Hf Hlf Hn
                Hord)).
  erewrite addFilter_known_field with (lo := length h) (ops := [(c1, v1)]);
    [ | at_loc | exact Hf | at_loc | apply lookup_set_own | ].
  - f_equal. tail_norm. reflexivity.
  - tail_norm. rewrite list_lookup_insert_ne by lia. now rewrite lookup_tail0.
Qed.

(** X4: conditions on a field accumulate.  On a filter that is a plain
    object, for a field with an ordinary name that has no operator mapping
    yet, two calls of [addFilter] ([equalTo], [greaterThan] and the other
    methods that end in it) leave one mapping for the field: with both
    conditions when they differ, in the order of the calls, and with the
    second value when the condition is the same.  A condition is discarded
    only by the same condition; and a value for [greaterThanOrEqualTo] or
    [lessThan] that is neither a number nor a string is refused before the
    filter is touched. *)
Theorem conditions_accumulate this q lf ps field (h : heap) :
  h !! this = Some (OQuery q) ->
  _filter q = VRef lf ->
  h !! lf = Some (OObject ps) ->
  isObject (or_undefined (lookup_own field ps)) = false ->
  inherited field = false ->
  let filtered := <[lf := OObject (set_own field (VRef (length h)) ps)]> h in
  (forall c v1 v2,
     assignable c = true ->
     (addFilter this field c v1 ;;; addFilter this field c v2) h
     = (Ret (VRef this), filtered ++ [OObject [(c, v2)]]))
  /\ (forall c1 c2 v1 v2,
        c1 <> c2 -> parse_index c2 = None ->
        assignable c1 = true -> assignable c2 = true ->
        (addFilter this field c1 v1 ;;; addFilter this field c2 v2) h
        = (Ret (VRef this), filtered ++ [OObject [(c1, v1); (c2, v2)]]))
  /\ (forall v1 v2,
        (greaterThanOrEqualTo this field v1 ;;; lessThan this field v2) h
        = if isNumber v1 || isString v1 then
            if isNumber v2 || isString v2 then
              (Ret (VRef this),
               filtered ++ [OObject [("$gte", v1); ("$lt", v2)]])
            else
              (Throw (QueryError "You must supply a number or string."),
               filtered ++ [OObject [("$gte", v1)]])
          else (Throw (QueryError "You must supply a number or string."), h)).
Proof.
  intros Hq Hf Hlf Hn Hord filtered. split; [| split].
  - intros c v1 v2 _. rewrite (addFilter_twice this q lf ps); try assumption.
    unfold set_own. cbn [lookup_own replace_own]. now rewrite String.eqb_refl.
  - intros c1 c2 v1 v2 Hc Hi _ _.
    rewrite (addFilter_twice this q lf ps); try assumption.
    unfold set_own. cbn [lookup_own].
    destruct (String.eqb_spec c2 c1) as [-> | _]; [contradiction |].
    now rewrite Hi.
  - intros v1 v2. unfold greaterThanOrEqualTo, lessThan.
    destruct (isNumber v1 || isString v1) eqn:E1.
    + assert (E1' : negb (isNumber v1) && negb (isString v1) = false)
        by (destruct (isNumber v1), (isString v1); auto; discriminate).
      rewrite E1'.
      destruct (isNumber v2 || isString v2) eqn:E2.
      * assert (E2' : negb (isNumber v2) && negb (isString v2) = false)
          by (destruct (isNumber v2), (isString v2); auto; discriminate).
        rewrite E2'.
        now rewrite (addFilter_twice this q lf ps).
      * assert (E2' : negb (isNumber v2) && negb (isString v2) = true)
          by (destruct (isNumber v2), (isString v2); auto; discriminate).
        rewrite E2'.
        now rewrite (bind_Ret _ _ _ _ _
                       (addFilter_new_field this q lf ps field "$gte" v1 h
                          Hq Hf Hlf Hn Hord)).
    + assert (E1' : negb (isNumber v1) && negb (isString v1) = true)
        by (destruct (isNumber v1), (isString v1); auto; discriminate).
      now rewrite E1'.
Qed.

Lemma conditions_accumulate_witness :
  let h := snd (exec [New VUndefined]) in
  (greaterThanOrEqualTo 0 "age" (num 18) ;;; lessThan 0 "age" (num 65)) h
  = (Ret (VRef 0),
     <[2 := OObject [("age", VRef 5)]]> h
       ++ [OObject [("$gte", num 18); ("$lt", num 65)]]).
Proof.
  intros h.
  destruct (conditions_accumulate 0
              (mkQuery (VRef 1) (VRef 2) (VRef 3) VNull (num 0) VNull VUndefined)
              2 [] "age" h) as (_ & _ & H);
    [reflexivity | reflexivity | reflexivity | reflexivity | reflexivity |].
  exact (H (num 18) (num 65)).
Defined.

(** The methods that take a list: [values] is wrapped in an array unless
    it is one, then stored under [condition]. *)
Lemma wrapped_array_filter this q lf ps field condition la es (h : heap) :
  h !! this = Some (OQuery q) ->
  _filter q = VRef lf ->
  h !! lf = Some (OObject ps) ->
  isObject (or_undefined (lookup_own field ps)) = false ->
  inherited field = false ->
  h !! la = Some (OArray es) ->
  (values <- wrap_array (VRef la) ;; addFilter this field condition values) h
  = (Ret (VRef this),
     <[lf := OObject (set_own field (VRef (length h)) ps)]> h
       ++ [OObject [(condition, VRef la)]]).
Proof.
  intros Hq Hf Hlf Hn Hord Ha.
  assert (Ll : lf < length h) by eauto using lookup_lt_Some.
  unfold wrap_array. repeat js_step.
  rewrite (addFilter_new_field this q lf ps field condition _ h Hq Hf Hlf Hn
             Hord).
  js_done.
Qed.

Lemma wrapped_value_filter this q lf ps field condition v (h : heap) :
  h !! this = Some (OQuery q) ->
  _filter q = VRef lf ->
  h !! lf = Some (OObject ps) ->
  isObject (or_undefined (lookup_own field ps)) = false ->
  inherited field = false ->
  fst (isArray v h) = Ret false ->
  (values <- wrap_array v ;; addFilter this field condition values) h
  = (Ret (VRef this),
     <[lf := OObject (set_own field (VRef (length h + 1)) ps)]> h
       ++ [OArray [v]; OObject [(condition, VRef (length h))]]).
Proof.
  intros Hq Hf Hlf Hn Hord Ha.
  assert (Ll : lf < length h) by eauto using lookup_lt_Some.
  assert (Ea : isArray v h = (Ret false, h)).
  { pose proof (pure_isArray v h) as P. destruct (isArray v h) as [o h1].
    cbn [fst snd] in *. now subst. }
  unfold wrap_array. rewrite bind_assoc.
  rewrite (bind_Ret _ _ _ _ _ Ea). js_simp. repeat js_step.
  erewrite addFilter_new_field with (q := q) (lf := lf) (ps := ps);
    [ | at_loc | exact Hf | at_loc | exact Hn | exact Hord ].
  js_done.
Qed.

(** X5: on a filter that is a plain object, for a field with an
    ordinary name and no operator mapping yet, [contains], [containsAll] and
    [notContainedIn] store an array they are given as it is, by reference,
    and wrap any other value in a new array of one element: no value is
    refused. *)
Theorem lists_are_stored_by_reference this q lf ps field v (h : heap) :
  h !! this = Some (OQuery q) ->
  _filter q = VRef lf ->
  h !! lf = Some (OObject ps) ->
  isObject (or_undefined (lookup_own field ps)) = false ->
  inherited field = false ->
  let n := length h in
  (forall la es,
     v = VRef la -> h !! la = Some (OArray es) ->
     let stored condition :=
       (Ret (VRef this),
        <[lf := OObject (set_own field (VRef n) ps)]> h
          ++ [OObject [(condition, VRef la)]]) in
     contains this field v h = stored "$in"
     /\ containsAll this field v h = stored "$all"
     /\ notContainedIn this field v h = stored "$nin")
  /\ (fst (isArray v h) = Ret false ->
      let wrapped condition :=
        (Ret (VRef this),
         <[lf := OObject (set_own field (VRef (n + 1)) ps)]> h
           ++ [OArray [v]; OObject [(condition, VRef n)]]) in
      contains this field v h = wrapped "$in"
      /\ containsAll this field v h = wrapped "$all"
      /\ notContainedIn this field v h = wrapped "$nin").
Proof.
  intros Hq Hf Hlf Hn Hord n. split.
  - intros la es -> Ha stored. unfold stored, contains, containsAll,
      notContainedIn.
    repeat split; now apply wrapped_array_filter with (q := q) (es := es).
  - intros Ha wrapped. unfold wrapped, contains, containsAll, notContainedIn.
    repeat split; now apply wrapped_value_filter with (q := q).
Qed.

Lemma lists_are_stored_by_reference_witness :
  let h := snd (exec [New VUndefined; Array_literal [num 1; num 2]]) in
  contains 0 "a" (VRef 5) h
  = (Ret (VRef 0),
     <[2 := OObject [("a", VRef 6)]]> h ++ [OObject [("$in", VRef 5)]])
  /\ notContainedIn 0 "a" (num 3) h
     = (Ret (VRef 0),
        <[2 := OObject [("a", VRef 7)]]> h
          ++ [OArray [num 3]; OObject [("$nin", VRef 6)]]).
Proof.
  intros h.
  destruct (lists_are_stored_by_reference 0
              (mkQuery (VRef 1) (VRef 2) (VRef 3) VNull (num 0) VNull VUndefined)
              2 [] "a" (VRef 5) h) as (H & _);
    [reflexivity | reflexivity | reflexivity | reflexivity | reflexivity |].
  destruct (lists_are_stored_by_reference 0
              (mkQuery (VRef 1) (VRef 2) (VRef 3) VNull (num 0) VNull VUndefined)
              2 [] "a" (num 3) h) as (_ & H');
    [reflexivity | reflexivity | reflexivity | reflexivity | reflexivity |].
  split.
  - exact (proj1 (H 5 [num 1; num 2] eq_refl eq_refl)).
  - exact (proj2 (proj2 (H' eq_refl))).
Defined.

(** ** Sort modifiers *)





(** ** Coordinates *)

Lemma isArray_false v (h : heap) :
  fst (isArray v h) = Ret false -> isArray v h = (Ret false, h).
Proof.
  intros E. pose proof (pure_isArray v h) as P.
  destruct (isArray v h) as [o h1]. cbn [fst snd] in *. now subst.
Qed.

(** X7: [near] takes an array whose first two members are numbers:
    anything else is refused with a [QueryError] and the store is left as it
    is.  Otherwise, on a filter that is a plain object and for a field with
    an ordinary name and no operator mapping yet, a new array of these two
    members (the rest of [coord] is dropped, and [coord] itself is not kept)
    is stored under [$nearSphere], and [maxDistance] under [$maxDistance]
    only when it is truthy, so a distance of 0 is left out. *)
Theorem near_takes_two_numbers this field coord maxDistance (h : heap) :
  let refused :=
    (Throw (QueryError "coord must be a [number, number]"), h) in
  (fst (isArray coord h) = Ret false ->
   near this field coord maxDistance h = refused)
  /\ (forall l es,
        coord = VRef l -> h !! l = Some (OArray es) ->
        isNumber (or_undefined (es !! 0)) && isNumber (or_undefined (es !! 1))
        = false ->
        near this field coord maxDistance h = refused)
  /\ (forall q lf ps l es a b,
        h !! this = Some (OQuery q) ->
        _filter q = VRef lf ->
        h !! lf = Some (OObject ps) ->
        isObject (or_undefined (lookup_own field ps)) = false ->
        inherited field = false ->
        coord = VRef l -> h !! l = Some (OArray es) ->
        es !! 0 = Some (VNum a) -> es !! 1 = Some (VNum b) ->
        near this field coord maxDistance h
        = (Ret (VRef this),
           <[lf := OObject (set_own field (VRef (length h + 1)) ps)]> h
             ++ [OArray [VNum a; VNum b];
                 OObject (("$nearSphere", VRef (length h))
                          :: (if truthy maxDistance
                              then [("$maxDistance", maxDistance)]
                              else []))])).
Proof.
  intros refused. unfold refused. split; [| split].
  - intros E. unfold near. rewrite (bind_Ret _ _ _ _ _ (isArray_false _ _ E)).
    now rewrite !bind_ret.
  - intros l es -> Hl E. unfold near. repeat js_step.
    rewrite ?array_own_0, ?array_own_1.
    destruct (isNumber (or_undefined (es !! 0))); cbn [negb orb andb] in *;
      [| reflexivity].
    now rewrite E.
  - intros q lf ps l es a b Hq Hf Hlf Hn Hord -> Hl H0 H1.
    assert (Lt : this < length h) by eauto using lookup_lt_Some.
    assert (Ll : lf < length h) by eauto using lookup_lt_Some.
    assert (Htl : this <> lf) by (intros ->; congruence).
    unfold near. repeat js_step.
    rewrite ?array_own_0, ?array_own_1, H0, H1. js_simp. repeat js_step.
    erewrite bind_Ret
      by (eapply addFilter_new_field with (q := q) (lf := lf) (ps := ps);
          [ at_loc | exact Hf | at_loc | exact Hn | exact Hord ]).
    js_simp.
    destruct (truthy maxDistance).
    + erewrite bind_Ret
        by (eapply addFilter_known_field
              with (q := q) (lf := lf) (lo := length h + 1);
            [ at_loc | exact Hf | at_loc | apply lookup_set_own | at_loc ]).
      js_simp. rewrite ?array_own_0, ?array_own_1, ?H0, ?H1. reflexivity.
    + rewrite !bind_ret. js_simp.
      rewrite ?array_own_0, ?array_own_1, ?H0, ?H1. reflexivity.
Qed.

Lemma bad_pair_array l es (h : heap) :
  h !! l = Some (OArray es) ->
  bad_pair (VRef l) h
  = (Ret (negb (truthy (or_undefined (es !! 0))
                && truthy (or_undefined (es !! 1)))), h).
Proof.
  intros Hl. unfold bad_pair. repeat js_step. rewrite ?array_own_0.
  destruct (truthy (or_undefined (es !! 0))); js_simp; [| reflexivity].
  js_step. now rewrite ?array_own_1.
Qed.

Lemma bad_pair_other c (h : heap) :
  fst (isArray c h) = Ret false -> bad_pair c h = (Ret true, h).
Proof.
  intros E. unfold bad_pair.
  now rewrite (bind_Ret _ _ _ _ _ (isArray_false _ _ E)).
Qed.

Section Box.

Variable parseFloat : heap -> value -> number.

(** [parseFloat] reads no object when it is given a primitive. *)
Hypothesis parseFloat_primitive :
  forall h h' v, isObject v = false -> parseFloat h v = parseFloat h' v.

(** X8: [withinBox] refuses a corner that is not an array or whose first
    or second member is falsy, so the coordinate 0 is refused; the first
    corner is looked at first, and the store is then as it was.  Given two
    corners with truthy primitive coordinates, in two different arrays, it
    replaces the coordinates in the caller's arrays by what [parseFloat]
    makes of them, and stores copies of the two pairs under [$within.$box]
    (on a filter that is a plain object, for a field with an ordinary name
    and no operator mapping yet). *)
Theorem withinBox_checks_truthiness this field bottomLeftCoord upperRightCoord
  (h : heap) :
  let given es :=
    truthy (or_undefined (es !! 0)) && truthy (or_undefined (es !! 1)) in
  let bad c :=
    fst (isArray c h) = Ret false
    \/ exists l es, c = VRef l /\ h !! l = Some (OArray es)
                    /\ given es = false in
  (bad bottomLeftCoord ->
   withinBox parseFloat this field bottomLeftCoord upperRightCoord h
   = (Throw (QueryError "bottomLeftCoord must be a [number, number]"), h))
  /\ (forall lb eb,
        bottomLeftCoord = VRef lb -> h !! lb = Some (OArray eb) ->
        given eb = true ->
        bad upperRightCoord ->
        withinBox parseFloat this field bottomLeftCoord upperRightCoord h
        = (Throw (QueryError "upperRightCoord must be a [number, number]"), h))
  /\ (forall q lf ps lb lu b0 b1 bs u0 u1 us,
        h !! this = Some (OQuery q) ->
        _filter q = VRef lf ->
        h !! lf = Some (OObject ps) ->
        isObject (or_undefined (lookup_own field ps)) = false ->
        inherited field = false ->
        bottomLeftCoord = VRef lb -> upperRightCoord = VRef lu ->
        h !! lb = Some (OArray (b0 :: b1 :: bs)) ->
        h !! lu = Some (OArray (u0 :: u1 :: us)) ->
        lb <> lu ->
        truthy b0 && truthy b1 && truthy u0 && truthy u1 = true ->
        isObject b0 || isObject b1 || isObject u0 || isObject u1 = false ->
        let n := length h in
        let p v := VNum (parseFloat h v) in
        withinBox parseFloat this field bottomLeftCoord upperRightCoord h
        = (Ret (VRef this),
           <[lf := OObject (set_own field (VRef (n + 4)) ps)]>
             (<[lu := OArray (p u0 :: p u1 :: us)]>
                (<[lb := OArray (p b0 :: p b1 :: bs)]> h))
             ++ [OArray [p b0; p b1]; OArray [p u0; p u1];
                 OArray [VRef n; VRef (n + 1)];
                 OObject [("$box", VRef (n + 2))];
                 OObject [("$within", VRef (n + 3))]])).
Proof.
  intros given bad.
  assert (Hbad : forall c, bad c -> bad_pair c h = (Ret true, h)).
  { intros c [E | (l & es & -> & Hl & E)].
    - now apply bad_pair_other.
    - rewrite (bad_pair_array _ _ _ Hl). unfold given in E. now rewrite E. }
  split; [| split].
  - intros E. unfold withinBox.
    now rewrite (bind_Ret _ _ _ _ _ (Hbad _ E)).
  - intros lb eb -> Hb E Hu. unfold withinBox.
    rewrite (bind_Ret _ _ _ _ _ (bad_pair_array _ _ _ Hb)).
    unfold given in E. rewrite E. cbn [negb]. cbv iota.
    now rewrite (bind_Ret _ _ _ _ _ (Hbad _ Hu)).
  - intros q lf ps lb lu b0 b1 bs u0 u1 us Hq Hf Hlf Hn Hord -> -> Hb Hu Hne
      Ht Ho.
    assert (Lt : this < length h) by eauto using lookup_lt_Some.
    assert (Ll : lf < length h) by eauto using lookup_lt_Some.
    assert (Lb : lb < length h) by eauto using lookup_lt_Some.
    assert (Lu : lu < length h) by eauto using lookup_lt_Some.
    assert (Htl : this <> lf) by (intros ->; congruence).
    assert (Htb : this <> lb) by (intros ->; congruence).
    assert (Htu : this <> lu) by (intros ->; congruence).
    assert (Hfb : lf <> lb) by (intros ->; congruence).
    assert (Hfu : lf <> lu) by (intros ->; congruence).
    apply andb_prop in Ht as [Ht Ht3]. apply andb_prop in Ht as [Ht Ht2].
    apply andb_prop in Ht as [Ht0 Ht1].
    apply orb_false_elim in Ho as [Ho Ho3].
    apply orb_false_elim in Ho as [Ho Ho2].
    apply orb_false_elim in Ho as [Ho0 Ho1].
    unfold withinBox.
    rewrite (bind_Ret _ _ _ _ _ (bad_pair_array _ _ _ Hb)).
    cbn [lookup list_lookup or_undefined]. rewrite Ht0, Ht1.
    cbn [andb negb]. cbv iota.
    rewrite (bind_Ret _ _ _ _ _ (bad_pair_array _ _ _ Hu)).
    cbn [lookup list_lookup or_undefined]. rewrite Ht2, Ht3.
    cbn [andb negb]. cbv iota.
    repeat js_step.
    rewrite (addFilter_new_field this q lf ps field "$within" _ _)
      by first [ exact Hf | exact Hn | exact Hord | at_loc ].
    rewrite (parseFloat_primitive (<[_ := _]> _) h b1 Ho1).
    rewrite (parseFloat_primitive (<[_ := _]> _) h u0 Ho2).
    rewrite (parseFloat_primitive (<[_ := _]> _) h u1 Ho3).
    js_done.
Qed.

End Box.

Lemma withinBox_checks_truthiness_witness :
  let h := snd (exec [New VUndefined;
                      Array_literal [num 0; num 1];
                      Array_literal [VStr "2.5"; num 3];
                      Array_literal [num 4; VStr "5"]]) in
  withinBox parseFloat_decimal 0 "loc" (VRef 5) (VRef 6) h
  = (Throw (QueryError "bottomLeftCoord must be a [number, number]"), h)
  /\ withinBox parseFloat_decimal 0 "loc" (num 1) (VRef 6) h
     = (Throw (QueryError "bottomLeftCoord must be a [number, number]"), h)
  /\ withinBox parseFloat_decimal 0 "loc" (VRef 6) (VRef 5) h
     = (Throw (QueryError "upperRightCoord must be a [number, number]"), h)
  /\ withinBox parseFloat_decimal 0 "loc" (VRef 6) (VRef 7) h
     = (Ret (VRef 0),
        <[2 := OObject [("loc", VRef 12)]]>
          (<[7 := OArray [num 4; num 5]]>
             (<[6 := OArray [VNum (Finite (5 # 2)); num 3]]> h))
          ++ [OArray [VNum (Finite (5 # 2)); num 3]; OArray [num 4; num 5];
              OArray [VRef 8; VRef 9];
              OObject [("$box", VRef 10)];
              OObject [("$within", VRef 11)]]).
Proof.
  intros h.
  assert (P : forall h h' v,
            isObject v = false -> parseFloat_decimal h v = parseFloat_decimal h' v)
    by (intros ? ? v _; now destruct v).
  split; [| split; [| split]].
  - destruct (withinBox_checks_truthiness parseFloat_decimal P 0 "loc"
                (VRef 5) (VRef 6) h) as (H & _).
    apply H. right. exists 5, [num 0; num 1]. now repeat split.
  - destruct (withinBox_checks_truthiness parseFloat_decimal P 0 "loc"
                (num 1) (VRef 6) h) as (H & _).
    apply H. now left.
  - destruct (withinBox_checks_truthiness parseFloat_decimal P 0 "loc"
                (VRef 6) (VRef 5) h) as (_ & H & _).
    apply (H 6 [VStr "2.5"; num 3] eq_refl eq_refl eq_refl).
    right. exists 5, [num 0; num 1]. now repeat split.
  - destruct (withinBox_checks_truthiness parseFloat_decimal P 0 "loc"
                (VRef 6) (VRef 7) h) as (_ & _ & H).
    rewrite (H (mkQuery (VRef 1) (VRef 2) (VRef 3) VNull (num 0) VNull VUndefined)
               2 [] 6 7 (VStr "2.5") (num 3) [] (num 4) (VStr "5") []
               eq_refl eq_refl eq_refl eq_refl eq_refl eq_refl eq_refl
               eq_refl eq_refl ltac:(discriminate) eq_refl eq_refl).
    vm_compute. reflexivity.
Defined.

Lemma raises_only_bind msg {A B} (m : M A) (f : A -> M B) :
  raises_only msg m -> (forall a, raises_only msg (f a)) ->
  raises_only msg (bind m f).
Proof.
  intros Hm Hf h msg'. unfold bind. specialize (Hm h msg').
  destruct (m h) as [[a | e | s] h1]; cbn [fst] in *.
  - apply Hf.
  - intros K. injection K as ->. now apply Hm.
  - discriminate.
Qed.

Lemma raises_only_quiet msg {A} (m : M A) : quiet m -> raises_only msg m.
Proof. intros Hq h msg' E. now apply Hq in E. Qed.

Lemma raises_only_throw msg {A} : raises_only msg (@throw A (QueryError msg)).
Proof. intros h msg' E. cbn in E. congruence. Qed.

Lemma raises_only_mapM msg {A B} (f : A -> M B) (l : list A) :
  (forall x, raises_only msg (f x)) -> raises_only msg (mapM f l).
Proof.
  intros Hf. induction l as [| x l IH]; cbn [mapM].
  - apply raises_only_quiet, quiet_ret.
  - apply raises_only_bind; [apply Hf |]. intros y.
    apply raises_only_bind; [exact IH |]. intros ys.
    apply raises_only_quiet, quiet_ret.
Qed.

Section Polygon.

Variable parseFloat : heap -> value -> number.

Lemma polygon_corner_raises coord :
  raises_only "coords argument must be [number, number]"
    (c0 <- get_prop coord "0" ;;
     c1 <- (if truthy c0 then get_prop coord "1" else ret VUndefined) ;;
     if negb (truthy c0) || negb (truthy c1)
     then throw (QueryError "coords argument must be [number, number]")
     else
       c0 <- get_prop coord "0" ;; p0 <- parse_float parseFloat c0 ;;
       c1 <- get_prop coord "1" ;; p1 <- parse_float parseFloat c1 ;;
       l <- alloc (OArray [p0; p1]) ;;
       ret (VRef l)).
Proof.
  apply raises_only_bind; [apply raises_only_quiet; auto with js |].
  intros c0.
  apply raises_only_bind;
    [apply raises_only_quiet; destruct (truthy c0); auto with js |].
  intros c1.
  destruct (negb (truthy c0) || negb (truthy c1)).
  - apply raises_only_throw.
  - apply raises_only_quiet. through.
Qed.

(** X9: [withinPolygon] refuses, with the message
    [coords must be [[number, number]]], what is not an array and an array
    of more than three members, and nothing else: a polygon of four corners
    is refused, and the empty array is a polygon, stored as it is under
    [$within.$polygon] (on a filter that is a plain object, for a field
    with an ordinary name and no operator mapping yet). *)
Theorem polygons_have_at_most_three_corners this field coords (h : heap) :
  let refused := Throw (QueryError "coords must be [[number, number]]") in
  (fst (withinPolygon parseFloat this field coords h) = refused
   <-> fst (isArray coords h) = Ret false
       \/ exists l es, coords = VRef l /\ h !! l = Some (OArray es)
                       /\ 3 < length es)
  /\ (fst (withinPolygon parseFloat this field coords h) = refused ->
      snd (withinPolygon parseFloat this field coords h) = h)
  /\ (forall q lf ps l,
        h !! this = Some (OQuery q) ->
        _filter q = VRef lf ->
        h !! lf = Some (OObject ps) ->
        isObject (or_undefined (lookup_own field ps)) = false ->
        inherited field = false ->
        coords = VRef l -> h !! l = Some (OArray []) ->
        withinPolygon parseFloat this field coords h
        = (Ret (VRef this),
           <[lf := OObject (set_own field (VRef (length h + 2)) ps)]> h
             ++ [OArray []; OObject [("$polygon", VRef (length h))];
                 OObject [("$within", VRef (length h + 1))]])).
Proof.
  intros refused. unfold refused.
  assert (Hno : forall l es,
            h !! l = Some (OArray es) -> length es <= 3 ->
            fst (withinPolygon parseFloat this field (VRef l) h)
            <> Throw (QueryError "coords must be [[number, number]]")).
  { intros l es Hl Hle E. unfold withinPolygon in E.
    rewrite (bind_Ret _ _ _ _ _ (isArray_array _ _ _ Hl)) in E.
    rewrite (bind_Ret _ _ _ _ _ (array_elems_array _ _ _ Hl)) in E.
    cbn [negb orb] in E.
    assert (El : (3 <? length es) = false) by (apply Nat.ltb_ge; lia).
    rewrite El in E.
    enough (R : raises_only "coords argument must be [number, number]"
                  (pairs <- mapM (fun coord =>
                     c0 <- get_prop coord "0" ;;
                     c1 <- (if truthy c0 then get_prop coord "1"
                            else ret VUndefined) ;;
                     if negb (truthy c0) || negb (truthy c1)
                     then throw (QueryError
                                   "coords argument must be [number, number]")
                     else
                       c0 <- get_prop coord "0" ;;
                       p0 <- parse_float parseFloat c0 ;;
                       c1 <- get_prop coord "1" ;;
                       p1 <- parse_float parseFloat c1 ;;
                       l <- alloc (OArray [p0; p1]) ;;
                       ret (VRef l)) es ;;
                   coords <- alloc (OArray pairs) ;;
                   polygon <- alloc (OObject [("$polygon", VRef coords)]) ;;
                   addFilter this field "$within" (VRef polygon)))
      by (apply R in E; discriminate).
    apply raises_only_bind.
    - apply raises_only_mapM. intros coord. apply polygon_corner_raises.
    - intros pairs. apply raises_only_quiet. through. }
  split; [split |]; [| | split].
  - intros E.
    destruct (isArray coords h) as [[[] | e | s] h1] eqn:Ea; cbn [fst].
    + right. apply isArray_true in Ea as (-> & l & es & -> & Hl).
      exists l, es. repeat split; try assumption.
      destruct (Nat.le_gt_cases (length es) 3) as [Hle | Hgt]; [| exact Hgt].
      now apply (Hno l es Hl Hle) in E.
    + now left.
    + unfold withinPolygon in E. rewrite (bind_Throw _ _ _ _ _ Ea) in E.
      cbn [fst] in E. exfalso. revert E.
      pose proof (quiet_isArray coords h) as Q. rewrite Ea in Q.
      cbn [fst] in Q. intros E. injection E as ->.
      now apply (Q "coords must be [[number, number]]").
    + unfold withinPolygon in E. rewrite (bind_Stuck _ _ _ _ _ Ea) in E.
      discriminate.
  - intros [E | (l & es & -> & Hl & Hlen)]; unfold withinPolygon.
    + rewrite (bind_Ret _ _ _ _ _ (isArray_false _ _ E)).
      now rewrite bind_ret.
    + rewrite (bind_Ret _ _ _ _ _ (isArray_array _ _ _ Hl)).
      rewrite (bind_Ret _ _ _ _ _ (array_elems_array _ _ _ Hl)).
      cbn [negb orb].
      assert (El : (3 <? length es) = true) by (apply Nat.ltb_lt; lia).
      now rewrite El.
  - intros E.
    destruct (isArray coords h) as [[[] | e | s] h1] eqn:Ea.
    + apply isArray_true in Ea as (-> & l & es & -> & Hl).
      destruct (Nat.le_gt_cases (length es) 3) as [Hle | Hgt].
      * now apply (Hno l es Hl Hle) in E.
      * unfold withinPolygon.
        rewrite (bind_Ret _ _ _ _ _ (isArray_array _ _ _ Hl)).
        rewrite (bind_Ret _ _ _ _ _ (array_elems_array _ _ _ Hl)).
        cbn [negb orb].
        assert (El : (3 <? length es) = true) by (apply Nat.ltb_lt; lia).
        now rewrite El.
    + assert (Ef : fst (isArray coords h) = Ret false) by now rewrite Ea.
      unfold withinPolygon.
      rewrite (bind_Ret _ _ _ _ _ (isArray_false _ _ Ef)).
      now rewrite bind_ret.
    + unfold withinPolygon. rewrite (bind_Throw _ _ _ _ _ Ea).
      cbn [snd]. pose proof (pure_isArray coords h) as P.
      now rewrite Ea in P.
    + unfold withinPolygon. rewrite (bind_Stuck _ _ _ _ _ Ea).
      cbn [snd]. pose proof (pure_isArray coords h) as P.
      now rewrite Ea in P.
  - intros q lf ps l Hq Hf Hlf Hn Hord -> Hl.
    assert (Lt : this < length h) by eauto using lookup_lt_Some.
    assert (Ll : lf < length h) by eauto using lookup_lt_Some.
    assert (Htl : this <> lf) by (intros ->; congruence).
    unfold withinPolygon. repeat js_step. cbn [mapM length Nat.ltb Nat.leb].
    repeat js_step.
    rewrite (addFilter_new_field this q lf ps field "$within" _ _)
      by first [ exact Hf | exact Hn | exact Hord | at_loc ].
    js_done.
Qed.

End Polygon.

(** ** The setters *)

Section Setters.

Variable parseFloat : heap -> value -> number.

(** X10: what the four validating setters do on a query whose [_parent]
    is falsy.  [fields] takes an array as it is, replaces a falsy value by a
    new empty array and refuses any other value; [sort] takes an object,
    replaces a falsy value by a new empty object and refuses a truthy
    primitive; [limit] and [skip] first parse a string with [parseFloat];
    [limit] then refuses what is truthy and not a number, so [null] and
    [undefined] are stored as they are, while [skip] takes [undefined] for 0
    and refuses everything else that is not a number, [null] included.  A
    refusal leaves the store as it was. *)
Theorem setters_validate fuel this q (h : heap) :
  h !! this = Some (OQuery q) ->
  truthy (_parent q) = false ->
  (forall v, truthy v = false ->
     set_fields (S fuel) this v h
     = (Ret tt, <[this := OQuery (with_fields (VRef (length h)) q)]> h
                  ++ [OArray []]))
  /\ (forall l es, h !! l = Some (OArray es) ->
        set_fields (S fuel) this (VRef l) h
        = (Ret tt, <[this := OQuery (with_fields (VRef l) q)]> h))
  /\ (forall v, truthy v = true -> fst (isArray v h) = Ret false ->
        set_fields (S fuel) this v h
        = (Throw (QueryError "fields must be an Array"), h))
  /\ (forall v, truthy v = false ->
        set_sort this v h
        = (Ret tt, <[this := OQuery (with_sort (VRef (length h)) q)]> h
                     ++ [OObject []]))
  /\ (forall l,
        set_sort this (VRef l) h
        = (Ret tt, <[this := OQuery (with_sort (VRef l) q)]> h))
  /\ (forall v, truthy v = true -> isObject v = false ->
        set_sort this v h = (Throw (QueryError "sort must an Object"), h))
  /\ (forall v,
        let limit := coerce parseFloat h v in
        set_limit parseFloat (S fuel) this v h
        = if truthy limit && negb (isNumber limit)
          then (Throw (QueryError "limit must be a number"), h)
          else (Ret tt, <[this := OQuery (with_limit limit q)]> h))
  /\ (forall v,
        let skip := coerce parseFloat h (or_zero v) in
        set_skip parseFloat this v h
        = if isNumber skip
          then (Ret tt, <[this := OQuery (with_skip skip q)]> h)
          else (Throw (QueryError "skip must be a number"), h)).
Proof.
  intros Hq Hp.
  assert (Lt : this < length h) by eauto using lookup_lt_Some.
  repeat split.
  - intros v Hv. cbn [set_fields]. rewrite Hv. repeat js_step.
    rewrite Hp. js_leaf.
  - intros l es Hl. cbn [set_fields]. js_simp. repeat js_step.
    rewrite Hp. js_leaf.
  - intros v Hv Ha. cbn [set_fields]. rewrite Hv. js_step.
    now rewrite (bind_Ret _ _ _ _ _ (isArray_false _ _ Ha)).
  - intros v Hv. unfold set_sort. rewrite Hv. js_simp. js_step.
    rewrite Hp. repeat js_step. js_leaf.
  - intros l. unfold set_sort. js_simp. js_step. rewrite Hp.
    repeat js_step. js_leaf.
  - intros v Hv Ho. unfold set_sort. now rewrite Hv, Ho.
  - intros v limit. cbn [set_limit].
    rewrite (bind_Ret _ _ _ _ _ (coerce_run parseFloat v h)). fold limit.
    destruct (truthy limit && negb (isNumber limit)); [reflexivity |].
    js_step. rewrite Hp. js_leaf.
  - intros v skip. unfold set_skip. cbv zeta.
    change (match v with VUndefined => num 0 | _ => v end) with (or_zero v).
    rewrite (bind_Ret _ _ _ _ _ (coerce_run parseFloat (or_zero v) h)).
    fold skip. destruct (isNumber skip); cbn [negb]; [| reflexivity].
    js_step. rewrite Hp. js_leaf.
Qed.

End Setters.

Lemma setters_validate_witness :
  let h := snd (exec [New VUndefined]) in
  let q := mkQuery (VRef 1) (VRef 2) (VRef 3) VNull (num 0) VNull VUndefined in
  set_skip parseFloat_decimal 0 VNull h
  = (Throw (QueryError "skip must be a number"), h)
  /\ set_limit parseFloat_decimal 8 0 VNull h
     = (Ret tt, <[0 := OQuery (with_limit VNull q)]> h)
  /\ set_limit parseFloat_decimal 8 0 (VStr "10") h
     = (Ret tt, <[0 := OQuery (with_limit (num 10) q)]> h)
  /\ set_fields 8 0 VNull h
     = (Ret tt, <[0 := OQuery (with_fields (VRef 5) q)]> h ++ [OArray []]).
Proof.
  intros h q.
  destruct (setters_validate parseFloat_decimal 7 0 q h eq_refl eq_refl)
    as (Hf & _ & _ & _ & _ & _ & Hl & Hs).
  split; [| split; [| split]].
  - exact (Hs VNull).
  - exact (Hl VNull).
  - exact (Hl (VStr "10")).
  - exact (Hf VNull eq_refl).
Defined.

(** ** The constructor with options *)

Lemma lookup_assigned_keys sps k (ks : list string) :
  forall tps,
    lookup_own k (fold_left
                    (fun acc k' => set_own k' (or_undefined (lookup_own k' sps)) acc)
                    ks tps)
    = if existsb (String.eqb k) ks
      then Some (or_undefined (lookup_own k sps))
      else lookup_own k tps.
Proof.
  induction ks as [| k' ks IH]; intros tps; [reflexivity |].
  cbn [fold_left existsb]. rewrite IH.
  destruct (existsb (String.eqb k) ks).
  - now rewrite orb_true_r.
  - rewrite orb_false_r. destruct (String.eqb_spec k k') as [-> | Hne].
    + now rewrite lookup_set_own.
    + now apply lookup_set_own_ne.
Qed.

Lemma existsb_keys k (ps : list (string * value)) :
  existsb (String.eqb k) (map fst ps)
  = match lookup_own k ps with Some _ => true | None => false end.
Proof.
  induction ps as [| [k' v] ps IH]; [reflexivity |].
  cbn [map fst existsb lookup_own]. destruct (String.eqb k k'); [reflexivity |].
  exact IH.
Qed.

(** [assign(defaults, options)]: an own property of the options wins. *)
Lemma lookup_assigned_props sps tps k :
  lookup_own k (assigned_props sps tps)
  = match lookup_own k sps with
    | Some v => Some v
    | None => lookup_own k tps
    end.
Proof.
  unfold assigned_props. rewrite lookup_assigned_keys, existsb_keys.
  now destruct (lookup_own k sps).
Qed.

Lemma is_array_in_app (h sfx : heap) v :
  is_array_in h v -> is_array_in (h ++ sfx) v.
Proof.
  intros (l & es & -> & Hl). exists l, es. split; [reflexivity |].
  now apply lookup_app_l_Some.
Qed.

Section Options.

Variable parseFloat : heap -> value -> number.

Lemma Query_new_options fuel lo ops (h : heap) :
  h !! lo = Some (OObject ops) ->
  valid_options h ops ->
  Query_new parseFloat (S fuel) (VRef lo) h
  = (Ret (length h),
     h ++ [OQuery (query_of_options ops (length h));
           OArray []; OObject []; OObject [];
           OObject (assigned_props ops (default_options (length h)))]).
Proof.
  intros Ho (Vf & Vs & Vl & Vk).
  assert (Lo : lo < length h) by eauto using lookup_lt_Some.
  unfold Query_new. rewrite !bind_alloc. allocated. tail_norm.
  fold (default_options (length h)).
  erewrite bind_Ret
    by (eapply assign_objects with (s := lo); [ lia | at_loc | at_loc ]).
  js_simp.
  set (merged := assigned_props ops (default_options (length h))).
  assert (Em : forall k d,
            lookup_own k (default_options (length h)) = Some d ->
            or_undefined (lookup_own k merged) = option_or ops k d).
  { intros k d Hd. unfold merged, option_or.
    rewrite lookup_assigned_props, Hd. now destruct (lookup_own k ops). }
  (* fields *)
  js_step. rewrite (Em "fields" _ eq_refl).
  erewrite bind_Ret.
  2:{ eapply set_fields_array; [ at_loc | reflexivity | ].
      unfold option_or. destruct (lookup_own "fields" ops) as [v |] eqn:E.
      - apply is_array_in_app. now apply Vf.
      - exists (length h + 1), []. split; [reflexivity | at_loc]. }
  js_simp.
  (* filter *)
  js_step. rewrite (Em "filter" _ eq_refl). unfold set_filter. js_step.
  (* sort *)
  js_step. rewrite (Em "sort" _ eq_refl).
  erewrite bind_Ret.
  2:{ eapply set_sort_object; [ at_loc | reflexivity | ].
      unfold option_or. destruct (lookup_own "sort" ops) as [v |] eqn:E;
        [now apply Vs | reflexivity]. }
  js_simp.
  (* limit *)
  js_step. rewrite (Em "limit" _ eq_refl).
  erewrite bind_Ret.
  2:{ eapply set_limit_checked; [ at_loc | reflexivity | ].
      unfold option_or. destruct (lookup_own "limit" ops) as [v |] eqn:E;
        [now apply Vl | now split]. }
  js_simp.
  (* skip *)
  js_step. rewrite (Em "skip" _ eq_refl).
  erewrite bind_Ret.
  2:{ eapply set_skip_number; [ at_loc | reflexivity | ].
      unfold option_or. destruct (lookup_own "skip" ops) as [v |] eqn:E;
        [now apply Vk | reflexivity]. }
  js_simp. repeat js_step. reflexivity.
Qed.

(** X11: the constructor, given a plain object whose [fields], [sort],
    [limit] and [skip], where present, are what the setters take as they
    are, returns a new query whose five components are the own properties of
    the options where present, the very same values and objects, and
    new defaults (an empty array, two empty objects, [null] and 0)
    otherwise.  Other properties of the options are ignored, and no object
    that existed before, the options object included, is changed. *)
Theorem constructor_takes_options fuel lo ops (h : heap) :
  h !! lo = Some (OObject ops) ->
  valid_options h ops ->
  let n := length h in
  exists h',
    Query_new parseFloat (S fuel) (VRef lo) h = (Ret n, h')
    /\ h' !! n = Some (OQuery (query_of_options ops n))
    /\ h' !! (n + 1) = Some (OArray [])
    /\ h' !! (n + 2) = Some (OObject [])
    /\ h' !! (n + 3) = Some (OObject [])
    /\ length h' = n + 5
    /\ forall l, l < n -> h' !! l = h !! l.
Proof.
  intros Ho Hv n. eexists. split.
  { apply Query_new_options with (ops := ops); assumption. }
  unfold n. repeat split; try (now tail_norm).
  - rewrite length_app. cbn [length]. lia.
  - intros l Hl. now rewrite lookup_app_l.
Qed.




End Options.

Lemma constructor_takes_options_witness :
  let h := snd (exec [Object_literal [("name", VStr "x")];
                      Object_literal [("filter", VRef 0); ("limit", num 5);
                                      ("verbose", VBool true)]]) in
  exists h',
    Query_new parseFloat_decimal 8 (VRef 1) h = (Ret 2, h')
    /\ h' !! 2 = Some (OQuery (mkQuery (VRef 3) (VRef 0) (VRef 5) (num 5)
                                 (num 0) VNull VUndefined))
    /\ h' !! 3 = Some (OArray [])
    /\ h' !! 4 = Some (OObject [])
    /\ h' !! 5 = Some (OObject [])
    /\ length h' = 7
    /\ forall l, l < 2 -> h' !! l = h !! l.
Proof.
  intros h.
  apply (constructor_takes_options parseFloat_decimal 7 1
           [("filter", VRef 0); ("limit", num 5); ("verbose", VBool true)] h).
  - reflexivity.
  - split; [| split; [| split]]; intros v E; try discriminate.
    injection E as <-. split; [reflexivity | intros _; reflexivity].
Defined.


(** ** After a join *)

Section AfterJoin.

Variable parseFloat : heap -> value -> number.

Lemma joined_store_length (h : heap) lf ps operator subs :
  length (joined_store h lf ps operator subs) = length h + length subs + 2.
Proof.
  unfold joined_store, plain_objects.
  rewrite length_insert, length_app. cbn [length].
  rewrite length_app, length_map. cbn [length]. lia.
Qed.

Lemma joined_store_old (h : heap) lf ps operator subs l :
  l < length h -> l <> lf ->
  joined_store h lf ps operator subs !! l = h !! l.
Proof.
  intros Hl Hne. unfold joined_store.
  rewrite list_lookup_insert_ne by lia. now rewrite lookup_app_l.
Qed.

Lemma joined_store_filter (h : heap) lf ps operator subs :
  lf < length h ->
  joined_store h lf ps operator subs !! lf
  = Some (OObject [(operator, VRef (S (length h + length subs)))]).
Proof.
  intros Hl. unfold joined_store. apply list_lookup_insert_eq.
  rewrite length_app. lia.
Qed.


(** X13: a condition added after a join with operands goes beside the
    combinator, at the top of the filter: after [or(q2)], [equalTo(field,
    v)] leaves [{$or: [...], field: {$eq: v}}], which asks for the field
    whichever operand of the [$or] matches.  The same holds of [and] and of
    every condition, for a field with an ordinary name that is not an array
    index, on a filter that is a plain object with no entry named by an
    index or [__proto__]. *)
Theorem conditions_after_a_join fuel this q lf ps (subs : list loc) field
  condition v (h : heap) :
  h !! this = Some (OQuery q) ->
  truthy (_parent q) = false ->
  _filter q = VRef lf ->
  h !! lf = Some (OObject ps) ->
  NoDup (map fst ps) ->
  Forall (fun k => parse_index k = None) (map fst ps) ->
  Forall (fun k => assignable k = true) (map fst ps) ->
  subs <> [] ->
  Forall (unscoped_query h) subs ->
  parse_index field = None ->
  inherited field = false ->
  assignable condition = true ->
  let j := S (length h + length subs) in
  let after operator :=
    (Ret (VRef this),
     <[lf := OObject [(operator, VRef j); (field, VRef (S j))]]>
       (h ++ OObject ps :: plain_objects h subs
          ++ [OArray (VRef (length h) :: sub_filters h subs);
              OObject [(condition, v)]])) in
  (field <> "$or" ->
   (Query_or parseFloat (S fuel) this (map VRef subs) ;;;
    addFilter this field condition v) h = after "$or")
  /\ (field <> "$and" ->
      (Query_and parseFloat (S fuel) this (map VRef subs) ;;;
       addFilter this field condition v) h = after "$and").
Proof.
  intros Hq Hp Hf Hlf Hnd Hix _ Hsubs Hun Hi Hord _ j after.
  assert (Lt : this < length h) by eauto using lookup_lt_Some.
  assert (Ll : lf < length h) by eauto using lookup_lt_Some.
  assert (Htl : this <> lf) by (intros ->; congruence).
  assert (Hj : forall operator,
            field <> operator ->
            (join parseFloat (S fuel) this operator (map VRef subs) ;;;
             addFilter this field condition v) h = after operator).
  { intros operator Hne.
    rewrite (bind_Ret _ _ _ _ _
               (join_explicit parseFloat fuel this q lf ps operator subs h
                  Hq Hf Hlf Hnd Hix Hsubs Hun)).
    assert (Hn : isObject (or_undefined
                   (lookup_own field [(operator, VRef j)])) = false).
    { cbn [lookup_own].
      destruct (String.eqb_spec field operator); [contradiction |].
      reflexivity. }
    rewrite (addFilter_new_field this q lf [(operator, VRef j)] field
               condition v (joined_store h lf ps operator subs));
      [ | rewrite joined_store_old by lia; exact Hq | exact Hf
        | now apply joined_store_filter | exact Hn | exact Hord ].
    unfold after. f_equal. rewrite joined_store_length.
    replace (length h + length subs + 2) with (S j) by (unfold j; lia).
    assert (Es : set_own field (VRef (S j)) [(operator, VRef j)]
                 = [(operator, VRef j); (field, VRef (S j))]).
    { unfold set_own. cbn [lookup_own].
      destruct (String.eqb_spec field operator); [contradiction |].
      now rewrite Hi. }
    rewrite Es. unfold joined_store. rewrite list_insert_insert_eq.
    rewrite <- insert_app_l by (rewrite length_app; lia).
    rewrite <- !app_assoc. cbn [app]. rewrite <- app_assoc. reflexivity. }
  split; intros Hne.
  - cbn [Query_or]. rewrite bind_assoc.
    rewrite (bind_Ret _ _ _ _ _ (get__parent_at _ _ _ Hq)), Hp.
    now apply Hj.
  - now apply Hj.
Qed.

(** X14: [join] stores the filter object of an operand, not a copy of
    it.  A condition added to the operand after the join (for a field with
    an ordinary name and no operator mapping yet) is therefore part of the
    filter of the query it was joined with.  The filters are plain objects,
    and no entry of the receiver's is named by an index or [__proto__]. *)
Theorem operands_are_joined_by_reference fuel this q lf ps s q2 lf2 ps2 field
  condition v (h : heap) :
  h !! this = Some (OQuery q) ->
  _filter q = VRef lf ->
  h !! lf = Some (OObject ps) ->
  NoDup (map fst ps) ->
  Forall (fun k => parse_index k = None) (map fst ps) ->
  Forall (fun k => assignable k = true) (map fst ps) ->
  h !! s = Some (OQuery q2) ->
  truthy (_parent q2) = false ->
  _filter q2 = VRef lf2 ->
  h !! lf2 = Some (OObject ps2) ->
  lf2 <> lf ->
  isObject (or_undefined (lookup_own field ps2)) = false ->
  inherited field = false ->
  assignable condition = true ->
  let n := length h in
  exists h',
    (Query_and parseFloat (S fuel) this [VRef s] ;;;
     addFilter s field condition v) h = (Ret (VRef s), h')
    /\ h' !! lf = Some (OObject [("$and", VRef (n + 2))])
    /\ h' !! (n + 2) = Some (OArray [VRef n; VRef lf2])
    /\ h' !! n = Some (OObject ps)
    /\ h' !! lf2 = Some (OObject (set_own field (VRef (n + 3)) ps2))
    /\ h' !! (n + 3) = Some (OObject [(condition, v)]).
Proof.
  intros Hq Hf Hlf Hnd Hix _ Hs Hp2 Hf2 Hlf2 Hne Hn Hord _ n.
  assert (Lt : this < length h) by eauto using lookup_lt_Some.
  assert (Ll : lf < length h) by eauto using lookup_lt_Some.
  assert (Ls : s < length h) by eauto using lookup_lt_Some.
  assert (Ll2 : lf2 < length h) by eauto using lookup_lt_Some.
  assert (Hsl : s <> lf) by (intros ->; congruence).
  assert (Hun : Forall (unscoped_query h) [s]).
  { repeat constructor. exists q2. now split. }
  unfold Query_and.
  rewrite (bind_Ret _ _ _ _ _
             (join_explicit parseFloat fuel this q lf ps "$and" [s] h
                Hq Hf Hlf Hnd Hix ltac:(discriminate) Hun)).
  set (st := joined_store h lf ps "$and" [s]).
  assert (Est : st = <[lf := OObject [("$and", VRef (n + 2))]]>
                       (h ++ [OObject ps;
                              OObject [("fields", _fields q2);
                                       ("filter", _filter q2);
                                       ("sort", _sort q2); ("skip", _skip q2);
                                       ("limit", _limit q2)];
                              OArray [VRef n; VRef lf2]])).
  { unfold st, joined_store, plain_objects, sub_filters. cbn [map length app].
    rewrite Hs, Hf2. unfold n.
    now replace (S (length h + 1)) with (length h + 2) by lia. }
  rewrite Est.
  rewrite (addFilter_new_field s q2 lf2 ps2 field condition v _)
    by first [ exact Hf2 | exact Hn | exact Hord | at_loc ].
  eexists. split; [reflexivity |].
  allocated. fold n.
  repeat split.
  - apply lookup_app_l_Some. rewrite list_lookup_insert_ne by lia.
    apply list_lookup_insert_eq. rewrite length_app. lia.
  - apply lookup_app_l_Some. rewrite !list_lookup_insert_ne by (unfold n; lia).
    unfold n. now rewrite lookup_tail.
  - apply lookup_app_l_Some. rewrite !list_lookup_insert_ne by (unfold n; lia).
    unfold n. now rewrite lookup_tail0.
  - apply lookup_app_l_Some. apply list_lookup_insert_eq.
    rewrite length_insert, length_app. lia.
  - rewrite lookup_app_r
      by (rewrite !length_insert, length_app; cbn [length]; unfold n; lia).
    rewrite !length_insert, length_app. cbn [length]. fold n.
    now replace (n + 3 - (n + 3)) with 0 by lia.
Qed.


End AfterJoin.

Lemma conditions_after_a_join_witness :
  let h := snd (exec [New VUndefined; New VUndefined;
                      EqualTo 5 "b" (num 2); EqualTo 0 "a" (num 1)]) in
  filter_tree
    (snd ((Query_or parseFloat_decimal 8 0 [VRef 5] ;;;
           addFilter 0 "x" "$eq" (num 3)) h)) 0
  = TObject [("$or", TArray [TObject [("a", TObject [("$eq", tnum 1)])];
                             TObject [("b", TObject [("$eq", tnum 2)])]]);
             ("x", TObject [("$eq", tnum 3)])].
Proof.
  intros h.
  destruct (conditions_after_a_join parseFloat_decimal 7 0
              (mkQuery (VRef 1) (VRef 2) (VRef 3) VNull (num 0) VNull VUndefined)
              2 [("a", VRef 11)] [5] "x" "$eq" (num 3) h) as (Ho & _).
  - reflexivity.
  - reflexivity.
  - reflexivity.
  - reflexivity.
  - repeat constructor. rewrite list_elem_of_In. simpl. tauto.
  - repeat constructor.
  - repeat constructor.
  - discriminate.
  - repeat constructor. eexists. split; reflexivity.
  - reflexivity.
  - reflexivity.
  - reflexivity.
  - change (map VRef [5]) with [VRef 5] in Ho.
    rewrite (Ho ltac:(discriminate)). vm_compute. reflexivity.
Defined.

Lemma operands_are_joined_by_reference_witness :
  let h := snd (exec [New VUndefined; New VUndefined;
                      EqualTo 5 "b" (num 2); EqualTo 0 "a" (num 1)]) in
  exists h',
    (Query_and parseFloat_decimal 8 0 [VRef 5] ;;;
     addFilter 5 "c" "$eq" (num 3)) h = (Ret (VRef 5), h')
    /\ h' !! 2 = Some (OObject [("$and", VRef 14)])
    /\ h' !! 14 = Some (OArray [VRef 12; VRef 7])
    /\ h' !! 12 = Some (OObject [("a", VRef 11)])
    /\ h' !! 7 = Some (OObject [("b", VRef 10); ("c", VRef 15)])
    /\ h' !! 15 = Some (OObject [("$eq", num 3)]).
Proof.
  intros h.
  apply (operands_are_joined_by_reference parseFloat_decimal 7 0
           (mkQuery (VRef 1) (VRef 2) (VRef 3) VNull (num 0) VNull VUndefined)
           2 [("a", VRef 11)] 5
           (mkQuery (VRef 6) (VRef 7) (VRef 8) VNull (num 0) VNull VUndefined)
           7 [("b", VRef 10)] "c" "$eq" (num 3) h).
  - reflexivity.
  - reflexivity.
  - reflexivity.
  - repeat constructor. rewrite list_elem_of_In. simpl. tauto.
  - repeat constructor.
  - repeat constructor.
  - reflexivity.
  - reflexivity.
  - reflexivity.
  - reflexivity.
  - discriminate.
  - reflexivity.
  - reflexivity.
  - reflexivity.
Defined.


(** ** Local evaluation *)

Lemma sort_list_unmoved (cmp : value -> value -> M number) (h : heap) :
  (forall a b, cmp a b h = (Ret (Finite 0), h)) ->
  forall l, sort_list cmp l h = (Ret l, h).
Proof.
  intros Hc. induction l as [| x l IH]; [reflexivity |].
  cbn [sort_list]. rewrite (bind_Ret _ _ _ _ _ IH).
  destruct l as [| y l]; [reflexivity |].
  cbn [insert_sorted]. now rewrite (bind_Ret _ _ _ _ _ (Hc x y)).
Qed.

Lemma Array_sort_unmoved (cmp : value -> value -> M number) l es (h : heap) :
  h !! l = Some (OArray es) ->
  (forall a b, cmp a b h = (Ret (Finite 0), h)) ->
  Array_sort cmp (VRef l) h
  = (Ret (VRef l), <[l := OArray (undefined_last es)]> h).
Proof.
  intros Hl Hc. unfold Array_sort. js_step.
  rewrite (bind_Ret _ _ _ _ _ (sort_list_unmoved cmp h Hc _)).
  reflexivity.
Qed.

Lemma Array_slice_numbers l es k to (h : heap) :
  h !! l = Some (OArray es) ->
  Array_slice (VRef l) (VNum k) to h
  = match to with
    | VNum n =>
        (Ret (VRef (length h)),
         h ++ [OArray (firstn (relative_index (length es) n
                               - relative_index (length es) k)
                         (skipn (relative_index (length es) k) es))])
    | VUndefined =>
        (Ret (VRef (length h)),
         h ++ [OArray (firstn (length es - relative_index (length es) k)
                         (skipn (relative_index (length es) k) es))])
    | _ => (Stuck Unmodelled, h)
    end.
Proof.
  intros Hl. unfold Array_slice. js_step. rewrite bind_ret.
  destruct to; reflexivity.
Qed.

Section Paging.

Variable less_than : heap -> value -> value -> bool.
Variable toNumber : heap -> value -> number.
Variable sift : heap -> value -> list value -> outcome (list value).
Variable nested : heap -> value -> string -> value.

Lemma comparator_zero (h : heap) lj pj ls ps a b :
  h !! lj = Some (OObject pj) ->
  lookup_own "sort" pj = Some (VRef ls) ->
  h !! ls = Some (OObject ps) ->
  comparator less_than toNumber nested (VRef lj) a b h = (Ret (Finite 0), h).
Proof.
  intros Hj Hs Hps. unfold comparator.
  rewrite (bind_Ret _ _ _ _ _ (get_prop_own _ _ "sort" _ _ Hj Hs)).
  rewrite (bind_Ret _ _ _ _ _ (Object_keys_object _ _ _ Hps)).
  erewrite bind_Ret; [reflexivity |].
  apply (forEach_results_unused
           (fun field => r <- compare_field less_than toNumber nested
                               (VRef lj) a b field ;; ret (tt, r))).
  intros field Hin.
  destruct (compare_field_returns less_than toNumber nested h lj pj ls ps a b
              field Hj Hs Hps Hin) as [v E].
  exists v. now rewrite (bind_Ret _ _ _ _ _ E).
Qed.

(** X16: [process] on a query that is not supported offline throws the
    [QueryError] that names the unsupported filters, whatever [data] is,
    [null] and [undefined] included, and leaves the store as it is. *)
Theorem process_refuses_unsupported fuel this data (h : heap) :
  isSupportedOffline this h = (Ret false, h) ->
  process less_than toNumber sift nested fuel this data h
  = (Throw (QueryError not_supported_locally), h).
Proof.
  intros E. unfold process. now rewrite (bind_Ret _ _ _ _ _ E).
Qed.

(** X17: [process] on an array [data], for a query that is supported
    offline and selects no fields, leaves [data] as it is and returns a new
    array: of the records that [sift] keeps, in the order [sift] gives
    them with the [undefined] ones last, those from [skip] up to [skip +
    limit], or to the end when the limit is falsy.  [skip] and [limit] are
    read as [slice] reads its bounds, a negative [skip] from the end; the
    sum is taken where binary64 has it exactly, as for integers up to
    2^53. *)
Theorem process_pages_the_matches fuel this q lfi ls pss ld es kept k
  (h : heap) :
  h !! this = Some (OQuery q) ->
  truthy (_parent q) = false ->
  isSupportedOffline this h = (Ret true, h) ->
  _fields q = VRef lfi ->
  h !! lfi = Some (OArray []) ->
  _sort q = VRef ls ->
  h !! ls = Some (OObject pss) ->
  _skip q = VNum k ->
  limit_ok (_limit q) ->
  exact_page k (_limit q) ->
  h !! ld = Some (OArray es) ->
  sift (h ++ [plain_object_of q]) (_filter q) es = Ret kept ->
  process less_than toNumber sift nested (S fuel) this (VRef ld) h
  = (Ret (VRef (length h + 2)),
     h ++ [plain_object_of q;
           OArray (undefined_last kept);
           OArray (page_of k (_limit q) (undefined_last kept))]).
Proof.
  intros Hq Hp Hsup Hfi Hlfi Hs Hls Hk [Hl1 Hl2] Hex Hd Hsift.
  assert (Lt : this < length h) by eauto using lookup_lt_Some.
  unfold process. rewrite (bind_Ret _ _ _ _ _ Hsup). js_simp.
  js_step. unfold toJSON. js_step. fold (plain_object_of q).
  assert (Hj : (h ++ [plain_object_of q]) !! length h
               = Some (OObject [("fields", _fields q); ("filter", _filter q);
                                ("sort", _sort q); ("skip", _skip q);
                                ("limit", _limit q)]))
    by (now rewrite lookup_tail0).
  repeat js_step. rewrite Hsift.
  change (lift (Ret kept)) with (ret kept).
  repeat js_step. rewrite Hfi. js_simp. repeat js_step.
  erewrite bind_Ret.
  2:{ eapply Array_sort_unmoved; [at_loc |].
      intros a b. eapply comparator_zero with (ls := ls);
        [ at_loc | cbn [lookup_own String.eqb Ascii.eqb Bool.eqb]; now rewrite Hs
        | at_loc ]. }
  js_simp. js_step.
  destruct (truthy (_limit q)) eqn:Et.
  - destruct (_limit q) as [| | | n | |] eqn:El;
      try (specialize (Hl2 eq_refl); discriminate).
    repeat js_step. rewrite Hk, El. cbn [plus].
    cbn [truthy] in Et. cbn [exact_page] in Hex. specialize (Hex Et).
    destruct (number_add k n) as [sum |] eqn:Es; [| contradiction].
    rewrite bind_ret.
    erewrite Array_slice_numbers by at_loc.
    unfold page_of. rewrite Et, Es. js_done.
  - repeat js_step. rewrite Hk.
    erewrite Array_slice_numbers by at_loc.
    unfold page_of.
    assert (E : match _limit q with
                | VNum n =>
                    if number_truthy n
                    then match number_add k n with
                         | Some sum =>
                             relative_index (length (undefined_last kept)) sum
                         | None => length (undefined_last kept)
                         end
                    else length (undefined_last kept)
                | _ => length (undefined_last kept)
                end = length (undefined_last kept)).
    { destruct (_limit q); try reflexivity. cbn [truthy] in Et.
      now rewrite Et. }
    rewrite E. js_done.
Qed.

End Paging.

(** ** Selected fields *)

Lemma filter_all {A} (f : A -> bool) (l : list A) :
  (forall x, In x l -> f x = true) -> List.filter f l = l.
Proof.
  induction l as [| x l IH]; intros H; [reflexivity |].
  cbn [List.filter]. rewrite (H x (or_introl eq_refl)).
  f_equal. apply IH. intros y Hy. apply H. now right.
Qed.

Lemma filter_twice {A} (f g : A -> bool) (l : list A) :
  List.filter f (List.filter g l) = List.filter (fun x => g x && f x) l.
Proof.
  induction l as [| x l IH]; [reflexivity |].
  cbn [List.filter]. destruct (g x); cbn [andb List.filter].
  - destruct (f x); now rewrite IH.
  - exact IH.
Qed.

Lemma In_filter_keys (f : string * value -> bool) k (l : list (string * value)) :
  In k (map fst (List.filter f l)) -> In k (map fst l).
Proof.
  induction l as [| x l IH]; [exact id |].
  cbn [List.filter]. destruct (f x); cbn [map In]; tauto.
Qed.

Lemma NoDup_filter_keys (f : string * value -> bool) (l : list (string * value)) :
  List.NoDup (map fst l) -> List.NoDup (map fst (List.filter f l)).
Proof.
  induction l as [| x l IH]; intros H; [exact H |].
  cbn [map] in H. apply List.NoDup_cons_iff in H as [Hx Hl].
  cbn [List.filter]. destruct (f x); [| now apply IH].
  cbn [map]. apply List.NoDup_cons; [| now apply IH].
  intros K. apply Hx. now apply In_filter_keys in K.
Qed.

Lemma remove_own_filter k (l : list (string * value)) :
  List.NoDup (map fst l) ->
  remove_own k l = List.filter (fun kv => negb (String.eqb k (fst kv))) l.
Proof.
  induction l as [| [k' v] l IH]; intros H; [reflexivity |].
  cbn [map fst] in H. apply List.NoDup_cons_iff in H as [Hx Hl].
  cbn [remove_own List.filter fst].
  destruct (String.eqb_spec k k') as [-> | Hne]; cbn [negb].
  - symmetry. apply filter_all. intros [k0 v0] Hin. cbn [fst].
    destruct (String.eqb_spec k' k0) as [-> | _]; [| reflexivity].
    exfalso. apply Hx. now apply (in_map fst) in Hin.
  - now rewrite IH.
Qed.

Lemma existsb_key_In k (ks : list string) :
  existsb (String.eqb k) ks = true <-> In k ks.
Proof.
  rewrite existsb_exists. split.
  - intros (x & Hx & E). apply String.eqb_eq in E. now subst.
  - intros H. exists k. split; [exact H | apply String.eqb_refl].
Qed.

Lemma not_listed_array l fs key (h : heap) :
  h !! l = Some (OArray fs) ->
  not_listed (VRef l) key h
  = (Ret (negb (existsb (strict_eqb (VStr key)) fs)), h).
Proof. intros Hl. unfold not_listed. now js_step. Qed.

(** The loop of [remove_fields] over the keys [ks] of a record. *)
Lemma forEach_remove_fields lj pj lfi fs li :
  li <> lj ->
  lookup_own "fields" pj = Some (VRef lfi) ->
  forall ks cur (h : heap),
    h !! lj = Some (OObject pj) ->
    h !! lfi = Some (OArray fs) ->
    h !! li = Some (OObject cur) ->
    List.NoDup (map fst cur) ->
    forEach ks tt (fun _ key =>
      fields <- get_prop (VRef lj) "fields" ;;
      absent <- not_listed fields key ;;
      (if absent then delete_prop (VRef li) key else ret tt) ;;;
      ret (tt, VUndefined)) h
    = (Ret tt,
       <[li := OObject
                 (List.filter
                    (fun kv => listed fs kv
                               || negb (existsb (String.eqb (fst kv)) ks))
                    cur)]> h).
Proof.
  intros Hne Hfs ks. induction ks as [| k ks IH]; intros cur h Hj Hf Hi Hnd.
  - cbn [forEach existsb]. unfold ret. f_equal.
    rewrite filter_all by (intros; now rewrite orb_true_r).
    symmetry. now apply list_insert_id.
  - assert (Li : li < length h) by eauto using lookup_lt_Some.
    assert (Hil : li <> lfi) by (intros ->; congruence).
    cbn [forEach]. rewrite !bind_assoc. js_step. rewrite Hfs.
    cbn [or_undefined]. rewrite !bind_assoc.
    rewrite (bind_Ret _ _ _ _ _ (not_listed_array lfi fs k h Hf)).
    destruct (existsb (strict_eqb (VStr k)) fs) eqn:El; cbn [negb]; cbv iota.
    + repeat js_step.
      rewrite (IH cur h Hj Hf Hi Hnd). f_equal. f_equal. f_equal.
      apply filter_ext. intros [k0 v0]. unfold listed. cbn [fst existsb].
      destruct (String.eqb_spec k0 k) as [-> | _]; [| reflexivity].
      now rewrite El.
    + repeat js_step.
      rewrite (IH (remove_own k cur) (<[li := OObject (remove_own k cur)]> h));
        [ | rewrite list_lookup_insert_ne by lia; exact Hj
          | rewrite list_lookup_insert_ne by lia; exact Hf
          | now apply list_lookup_insert_eq
          | rewrite remove_own_filter by exact Hnd;
            now apply NoDup_filter_keys ].
      rewrite list_insert_insert_eq. f_equal. f_equal. f_equal.
      rewrite remove_own_filter by exact Hnd. rewrite filter_twice.
      apply filter_ext. intros [k0 v0]. unfold listed. cbn [fst existsb].
      destruct (String.eqb_spec k k0) as [<- | Hk0]; cbn [negb andb].
      * rewrite El. now rewrite String.eqb_refl.
      * destruct (String.eqb_spec k0 k) as [-> | _]; [contradiction |].
        reflexivity.
Qed.

Lemma remove_fields_record lj pj lfi fs li ps (h : heap) :
  li <> lj ->
  h !! lj = Some (OObject pj) ->
  lookup_own "fields" pj = Some (VRef lfi) ->
  h !! lfi = Some (OArray fs) ->
  h !! li = Some (OObject ps) ->
  List.NoDup (map fst ps) ->
  remove_fields (VRef lj) (VRef li) h
  = (Ret (VRef li), <[li := OObject (List.filter (listed fs) ps)]> h).
Proof.
  intros Hne Hj Hfs Hf Hi Hnd. unfold remove_fields. js_step.
  rewrite (bind_Ret _ _ _ _ _
             (forEach_remove_fields lj pj lfi fs li Hne Hfs (map fst ps) ps h
                Hj Hf Hi Hnd)).
  unfold ret. f_equal. f_equal. f_equal.
  apply filter_ext_in. intros [k0 v0] Hin. cbn [fst].
  assert (E : existsb (String.eqb k0) (map fst ps) = true).
  { apply existsb_key_In. now apply (in_map fst) in Hin. }
  rewrite E. now rewrite orb_false_r.
Qed.

Lemma project_store_cons fs v kept (h : heap) :
  project_store fs (v :: kept) h
  = project_store fs kept
      match v with
      | VRef l =>
          match h !! l with
          | Some (OObject ps) => <[l := OObject (List.filter (listed fs) ps)]> h
          | _ => h
          end
      | _ => h
      end.
Proof. reflexivity. Qed.

Lemma mapM_remove_fields lj pj lfi fs :
  lookup_own "fields" pj = Some (VRef lfi) ->
  forall kept (h : heap),
    h !! lj = Some (OObject pj) ->
    h !! lfi = Some (OArray fs) ->
    Forall (fun v => plain_record h v /\ v <> VRef lj) kept ->
    mapM (remove_fields (VRef lj)) kept h = (Ret kept, project_store fs kept h).
Proof.
  intros Hfs kept. induction kept as [| v kept IH]; intros h Hj Hf Hk.
  - reflexivity.
  - apply Forall_cons in Hk as [[(l & ps & -> & Hl & Hnd) Hne] Hk].
    assert (Hlj : l <> lj) by congruence.
    assert (Hlf : l <> lfi) by (intros ->; congruence).
    assert (Ll : l < length h) by eauto using lookup_lt_Some.
    cbn [mapM].
    rewrite (bind_Ret _ _ _ _ _
               (remove_fields_record lj pj lfi fs l ps h Hlj Hj Hfs Hf Hl
                  (proj1 (NoDup_ListNoDup _) Hnd))).
    rewrite project_store_cons, Hl.
    set (h1 := <[l := OObject (List.filter (listed fs) ps)]> h).
    assert (Hj1 : h1 !! lj = Some (OObject pj))
      by (unfold h1; now rewrite list_lookup_insert_ne).
    assert (Hf1 : h1 !! lfi = Some (OArray fs))
      by (unfold h1; now rewrite list_lookup_insert_ne).
    assert (Hk1 : Forall (fun v => plain_record h1 v /\ v <> VRef lj) kept);
      [| now rewrite (bind_Ret _ _ _ _ _ (IH h1 Hj1 Hf1 Hk1))].
    unfold h1.
    { eapply Forall_impl; [exact Hk |].
      intros v' [(l' & ps' & -> & Hl' & Hnd') Hne']. split; [| exact Hne'].
      destruct (Nat.eq_dec l' l) as [-> | Hd].
      * exists l, (List.filter (listed fs) ps). split; [reflexivity |].
        split; [now apply list_lookup_insert_eq |].
        apply NoDup_ListNoDup. apply NoDup_filter_keys.
        now apply NoDup_ListNoDup.
      * exists l', ps'. split; [reflexivity |].
        split; [now rewrite list_lookup_insert_ne | exact Hnd']. }
Qed.

Lemma project_store_length fs kept :
  forall h : heap, length (project_store fs kept h) = length h.
Proof.
  induction kept as [| v kept IH]; intros h; [reflexivity |].
  rewrite project_store_cons.
  destruct v as [| | | | | l]; try apply IH.
  destruct (h !! l) as [[ps | es | q] |]; try apply IH.
  rewrite IH. apply length_insert.
Qed.

Lemma project_store_app fs sfx kept :
  forall h : heap,
    Forall (plain_record h) kept ->
    project_store fs kept (h ++ sfx) = project_store fs kept h ++ sfx.
Proof.
  induction kept as [| v kept IH]; intros h Hk; [reflexivity |].
  apply Forall_cons in Hk as [(l & ps & -> & Hl & Hnd) Hk].
  assert (Ll : l < length h) by eauto using lookup_lt_Some.
  rewrite !project_store_cons.
  rewrite (lookup_app_l_Some _ _ _ _ Hl), Hl.
  rewrite insert_app_l by exact Ll.
  apply IH. eapply Forall_impl; [exact Hk |].
  intros v' (l' & ps' & -> & Hl' & Hnd').
  destruct (Nat.eq_dec l' l) as [-> | Hd].
  - exists l, (List.filter (listed fs) ps). split; [reflexivity |].
    split; [now apply list_lookup_insert_eq |].
    apply NoDup_ListNoDup. apply NoDup_filter_keys.
    now apply NoDup_ListNoDup.
  - exists l', ps'. split; [reflexivity |].
    split; [now rewrite list_lookup_insert_ne | exact Hnd'].
Qed.

(** Projection changes plain objects only, into plain objects. *)
Lemma project_store_lookup fs kept :
  forall (h : heap) l,
    match h !! l with
    | Some (OObject ps) => exists ps', project_store fs kept h !! l
                                       = Some (OObject ps')
    | o => project_store fs kept h !! l = o
    end.
Proof.
  induction kept as [| v kept IH]; intros h l.
  - cbn. destruct (h !! l) as [[ps | es | q] |]; eauto.
  - rewrite project_store_cons.
    destruct v as [| | | | | l0]; try apply IH.
    destruct (h !! l0) as [[ps0 | es0 | q0] |] eqn:E0; try apply IH.
    specialize (IH (<[l0 := OObject (List.filter (listed fs) ps0)]> h) l).
    destruct (Nat.eq_dec l0 l) as [-> | Hd].
    + rewrite E0. rewrite list_lookup_insert_eq in IH
        by eauto using lookup_lt_Some.
      exact IH.
    + now rewrite list_lookup_insert_ne in IH by exact Hd.
Qed.

Lemma undefined_last_refs (l : list value) :
  Forall (fun v => is_undefined v = false) l -> undefined_last l = l.
Proof.
  intros H. unfold undefined_last.
  assert (E1 : List.filter (fun v => negb (is_undefined v)) l = l).
  { apply filter_all. intros x Hx. rewrite Forall_forall in H.
    rewrite (H x); [reflexivity |]. now apply list_elem_of_In. }
  assert (E2 : List.filter is_undefined l = []).
  { induction H as [| x l Hx Hl IH]; [reflexivity |].
    cbn [List.filter]. rewrite Hx. apply IH.
    apply filter_all. intros y Hy. rewrite Forall_forall in Hl.
    rewrite (Hl y); [reflexivity |]. now apply list_elem_of_In. }
  rewrite E1, E2. apply app_nil_r.
Qed.

Lemma positive_length {A} (l : list A) :
  l <> [] -> number_positive (Finite (inject_Z (Z.of_nat (length l)))) = true.
Proof.
  intros H. destruct l as [| x l]; [contradiction |].
  unfold number_positive, Qle_bool, inject_Z. cbn [Qnum Qden length].
  apply negb_true_iff. apply Z.leb_gt. lia.
Qed.

Section Projection.

Variable less_than : heap -> value -> value -> bool.
Variable toNumber : heap -> value -> number.
Variable sift : heap -> value -> list value -> outcome (list value).
Variable nested : heap -> value -> string -> value.

(** X18: [process] for a query that selects fields deletes, from every
    record that [sift] keeps, the properties that are not selected.  The
    records are the caller's objects, changed in place; [data] itself and
    the array that [sift] returns are left as they are, and the page is cut
    from a further array of the same records (the sum [skip + limit] is
    taken where binary64 has it exactly). *)
Theorem process_projects_in_place fuel this q lfi fs ls pss ld es kept k
  (h : heap) :
  h !! this = Some (OQuery q) ->
  truthy (_parent q) = false ->
  isSupportedOffline this h = (Ret true, h) ->
  _fields q = VRef lfi ->
  h !! lfi = Some (OArray fs) ->
  fs <> [] ->
  _sort q = VRef ls ->
  h !! ls = Some (OObject pss) ->
  _skip q = VNum k ->
  limit_ok (_limit q) ->
  exact_page k (_limit q) ->
  h !! ld = Some (OArray es) ->
  sift (h ++ [plain_object_of q]) (_filter q) es = Ret kept ->
  Forall (plain_record h) kept ->
  process less_than toNumber sift nested (S fuel) this (VRef ld) h
  = (Ret (VRef (length h + 3)),
     project_store fs kept h
       ++ [plain_object_of q; OArray kept; OArray kept;
           OArray (page_of k (_limit q) kept)]).
Proof.
  intros Hq Hp Hsup Hfi Hlfi Hne Hs Hls Hk [Hl1 Hl2] Hex Hd Hsift Hrec.
  assert (Lt : this < length h) by eauto using lookup_lt_Some.
  unfold process. rewrite (bind_Ret _ _ _ _ _ Hsup). js_simp.
  js_step. unfold toJSON. js_step. fold (plain_object_of q).
  assert (Hj : (h ++ [plain_object_of q]) !! length h
               = Some (OObject [("fields", _fields q); ("filter", _filter q);
                                ("sort", _sort q); ("skip", _skip q);
                                ("limit", _limit q)]))
    by (now rewrite lookup_tail0).
  repeat js_step. rewrite Hsift.
  change (lift (Ret kept)) with (ret kept).
  repeat js_step. rewrite Hfi. js_simp. js_step. js_step.
  change (array_own fs "length") with (Some (num (Z.of_nat (length fs)))).
  cbn [or_undefined num greater_than_zero]. rewrite bind_ret.
  rewrite (positive_length fs Hne). cbv iota.
  repeat js_step.
  erewrite bind_Ret.
  2:{ eapply (mapM_remove_fields (length h) _ lfi fs);
        [ | at_loc | at_loc | ].
      - cbn [lookup_own String.eqb Ascii.eqb Bool.eqb]. now rewrite Hfi.
      - eapply Forall_impl; [exact Hrec |].
        intros v (l & ps & -> & Hl & Hnd).
        assert (Ll : l < length h) by eauto using lookup_lt_Some.
        split; [| intros K; injection K; lia].
        exists l, ps. split; [reflexivity |].
        split; [now apply lookup_app_l_Some | exact Hnd]. }
  rewrite (project_store_app fs _ kept h Hrec).
  set (hp := project_store fs kept h).
  assert (Lp : length hp = length h) by apply project_store_length.
  rewrite <- !Lp. js_simp. repeat js_step.
  assert (Hls' : exists pss', hp !! ls = Some (OObject pss')).
  { pose proof (project_store_lookup fs kept h ls) as P.
    now rewrite Hls in P. }
  destruct Hls' as [pss' Hls'].
  assert (Eu : undefined_last kept = kept).
  { apply undefined_last_refs. eapply Forall_impl; [exact Hrec |].
    now intros v (l & ps & -> & _). }
  erewrite bind_Ret.
  2:{ eapply Array_sort_unmoved; [at_loc |].
      intros a b. eapply (comparator_zero less_than toNumber nested)
                    with (ls := ls) (ps := pss');
        [ at_loc | cbn [lookup_own String.eqb Ascii.eqb Bool.eqb]; now rewrite Hs
        | at_loc ]. }
  rewrite Eu. js_simp. js_step.
  destruct (truthy (_limit q)) eqn:Et.
  - destruct (_limit q) as [| | | n | |] eqn:El;
      try (specialize (Hl2 eq_refl); discriminate).
    repeat js_step. rewrite Hk, El. cbn [plus].
    cbn [truthy] in Et. cbn [exact_page] in Hex. specialize (Hex Et).
    destruct (number_add k n) as [sum |] eqn:Es; [| contradiction].
    rewrite bind_ret.
    erewrite Array_slice_numbers by at_loc.
    unfold page_of. rewrite Et, Es. js_done.
  - repeat js_step. rewrite Hk.
    erewrite Array_slice_numbers by at_loc.
    unfold page_of.
    assert (E : match _limit q with
                | VNum n =>
                    if number_truthy n
                    then match number_add k n with
                         | Some sum => relative_index (length kept) sum
                         | None => length kept
                         end
                    else length kept
                | _ => length kept
                end = length kept).
    { destruct (_limit q); try reflexivity. cbn [truthy] in Et.
      now rewrite Et. }
    rewrite E. js_done.
Qed.

End Projection.

Lemma process_refuses_unsupported_witness :
  let h := snd (exec [New VUndefined; Array_literal [num 1; num 2];
                      Near 0 "loc" (VRef 5) VUndefined]) in
  process less_than_number toNumber_primitive sift_all nested_own 8 0 VNull h
  = (Throw (QueryError not_supported_locally), h).
Proof.
  intros h.
  apply (process_refuses_unsupported less_than_number toNumber_primitive
           sift_all nested_own 8 0 VNull h).
  reflexivity.
Defined.

Lemma process_pages_the_matches_witness :
  let h := snd (exec [Object_literal [("x", num 1)];
                      Object_literal [("x", num 2)];
                      Object_literal [("x", num 3)];
                      Array_literal [VRef 0; VRef 1; VRef 2];
                      New VUndefined; Descending 4 "x";
                      SetSkip 4 (num 1); SetLimit 4 (num 1)]) in
  let q := mkQuery (VRef 5) (VRef 6) (VRef 7) (num 1) (num 1) VNull VUndefined in
  process less_than_number toNumber_primitive sift_all nested_own 8 4 (VRef 3) h
  = (Ret (VRef 11),
     h ++ [plain_object_of q; OArray [VRef 0; VRef 1; VRef 2];
           OArray [VRef 1]]).
Proof.
  intros h q.
  apply (process_pages_the_matches less_than_number toNumber_primitive
           sift_all nested_own 7 4 q 5 7 [("x", num (-1))] 3
           [VRef 0; VRef 1; VRef 2] [VRef 0; VRef 1; VRef 2]
           (Finite (inject_Z 1)) h);
    try reflexivity.
  - split; [reflexivity | intros _; reflexivity].
  - intros _. vm_compute. discriminate.
Defined.

Lemma process_projects_in_place_witness :
  let h := snd (exec [Object_literal [("x", num 1); ("y", num 2)];
                      Object_literal [("y", num 3); ("z", num 4)];
                      Array_literal [VRef 0; VRef 1];
                      Array_literal [VStr "y"];
                      New VUndefined; SetFields 4 (VRef 3)]) in
  let q := mkQuery (VRef 3) (VRef 6) (VRef 7) VNull (num 0) VNull VUndefined in
  process less_than_number toNumber_primitive sift_all nested_own 8 4 (VRef 2) h
  = (Ret (VRef 12),
     <[1 := OObject [("y", num 3)]]> (<[0 := OObject [("y", num 2)]]> h)
       ++ [plain_object_of q; OArray [VRef 0; VRef 1]; OArray [VRef 0; VRef 1];
           OArray [VRef 0; VRef 1]]).
Proof.
  intros h q.
  apply (process_projects_in_place less_than_number toNumber_primitive
           sift_all nested_own 7 4 q 3 [VStr "y"] 7 [] 2
           [VRef 0; VRef 1] [VRef 0; VRef 1] (Finite (inject_Z 0)) h);
    try reflexivity.
  - discriminate.
  - split; [reflexivity | intros K; discriminate K].
  - repeat constructor.
    + exists 0, [("x", num 1); ("y", num 2)].
      split; [reflexivity |]. split; [reflexivity |].
      repeat constructor; rewrite list_elem_of_In; simpl; intuition discriminate.
    + exists 1, [("y", num 3); ("z", num 4)].
      split; [reflexivity |]. split; [reflexivity |].
      repeat constructor; rewrite list_elem_of_In; simpl; intuition discriminate.
Defined.

(** ** Methods that refuse nothing *)

(** X19: [equalTo], [notEqualTo], [exists] and [addFilter] check nothing:
    on a query whose filter is a plain object with no object under [field]
    (a name that plain objects do not inherit), they store every value as it
    is given under [$eq], [$ne], [$exists] or the condition, in a new
    mapping, and return the query.  [exists] stores [true] for an absent
    flag and [false] for every other falsy one.  The setter of [filter]
    stores whatever it is given. *)
Theorem unvalidated_methods_are_quiet this q lf ps field (h : heap) :
  h !! this = Some (OQuery q) ->
  _filter q = VRef lf ->
  h !! lf = Some (OObject ps) ->
  isObject (or_undefined (lookup_own field ps)) = false ->
  inherited field = false ->
  let stored condition v :=
    (Ret (VRef this),
     <[lf := OObject (set_own field (VRef (length h)) ps)]> h
       ++ [OObject [(condition, v)]]) in
  (forall v, equalTo this field v h = stored "$eq" v)
  /\ (forall v, notEqualTo this field v h = stored "$ne" v)
  /\ (forall v,
        Query_exists this field v h
        = stored "$exists"
            (match v with
             | VUndefined => VBool true
             | _ => if truthy v then v else VBool false
             end))
  /\ (forall condition v,
        assignable condition = true ->
        addFilter this field condition v h = stored condition v)
  /\ (forall v,
        set_filter this v h = (Ret tt, <[this := OQuery (with_filter v q)]> h)).
Proof.
  intros Hq Hf Hlf Hn Hord stored.
  pose proof (fun c v => addFilter_new_field this q lf ps field c v h
                Hq Hf Hlf Hn Hord) as A.
  repeat split.
  - intros v. apply A.
  - intros v. apply A.
  - intros v. apply A.
  - intros condition v _. apply A.
  - intros v. unfold set_filter, update_query.
    rewrite (bind_Ret _ _ _ _ _ (this_query_Some _ _ _ Hq)).
    reflexivity.
Qed.

Lemma unvalidated_methods_are_quiet_witness :
  let h := snd (exec [New VUndefined]) in
  equalTo 0 "a" VNull h
  = (Ret (VRef 0),
     <[2 := OObject [("a", VRef 5)]]> h ++ [OObject [("$eq", VNull)]])
  /\ Query_exists 0 "a" (num 0) h
     = (Ret (VRef 0),
        <[2 := OObject [("a", VRef 5)]]> h
          ++ [OObject [("$exists", VBool false)]]).
Proof.
  intros h.
  destruct (unvalidated_methods_are_quiet 0
              (mkQuery (VRef 1) (VRef 2) (VRef 3) VNull (num 0) VNull VUndefined)
              2 [] "a" h) as (He & _ & Hx & _);
    [reflexivity | reflexivity | reflexivity | reflexivity | reflexivity |].
  split; [exact (He VNull) | exact (Hx (num 0))].
Defined.

(** ** The query string *)

Lemma isEmpty_object l ps (h : heap) :
  h !! l = Some (OObject ps) -> isEmpty (VRef l) h = (Ret (length ps =? 0), h).
Proof. intros E. unfold isEmpty. now js_step. Qed.

Lemma isEmpty_array l es (h : heap) :
  h !! l = Some (OArray es) -> isEmpty (VRef l) h = (Ret (length es =? 0), h).
Proof. intros E. unfold isEmpty. now js_step. Qed.

Lemma Array_join_strings l es names separator (h : heap) :
  h !! l = Some (OArray es) ->
  join_members es = Some names ->
  Array_join separator (VRef l) h
  = (Ret (VStr (String.concat separator names)), h).
Proof. intros E J. unfold Array_join. js_step. now rewrite J. Qed.

Lemma lookup_own_middle k x (done todo : list (string * value)) :
  lookup_own k done = None ->
  lookup_own k (done ++ (k, x) :: todo) = Some x.
Proof.
  intros H. rewrite lookup_own_app by exact H.
  cbn [lookup_own]. now rewrite String.eqb_refl.
Qed.

Lemma replace_own_middle k x y (done todo : list (string * value)) :
  lookup_own k done = None ->
  replace_own k y (done ++ (k, x) :: todo) = done ++ (k, y) :: todo.
Proof.
  induction done as [| [k0 v0] done IH]; intros H.
  - cbn [app replace_own]. now rewrite String.eqb_refl.
  - cbn [lookup_own] in H. destruct (String.eqb_spec k k0); [discriminate |].
    cbn [app replace_own]. destruct (String.eqb_spec k k0); [contradiction |].
    now rewrite IH.
Qed.

Lemma set_own_middle k x y (done todo : list (string * value)) :
  lookup_own k done = None ->
  set_own k y (done ++ (k, x) :: todo) = done ++ (k, y) :: todo.
Proof.
  intros H. unfold set_own. rewrite lookup_own_middle by exact H.
  now apply replace_own_middle.
Qed.

Lemma lookup_own_not_In k (ps : list (string * value)) :
  ~ In k (map fst ps) -> lookup_own k ps = None.
Proof.
  induction ps as [| [k0 v0] ps IH]; intros H; [reflexivity |].
  cbn [lookup_own]. destruct (String.eqb_spec k k0) as [-> | _].
  - exfalso. apply H. now left.
  - apply IH. intros K. apply H. now right.
Qed.

(** One entry of the query string: set when [c] holds. *)
Lemma if_entry (c : bool) (m : M unit) acc k v (h : heap) :
  (c = true -> m (h ++ [OObject acc])
               = (Ret tt, h ++ [OObject (acc ++ [(k, v)])])) ->
  (if c then m else ret tt) (h ++ [OObject acc])
  = (Ret tt, h ++ [OObject (acc ++ if c then [(k, v)] else [])]).
Proof.
  destruct c; intros H; [now apply H |]. now rewrite app_nil_r.
Qed.

Lemma set_new_entry k v acc (h : heap) :
  lookup_own k acc = None -> parse_index k = None ->
  set_prop (VRef (length h)) k v (h ++ [OObject acc])
  = (Ret tt, h ++ [OObject (acc ++ [(k, v)])]).
Proof.
  intros Hk Hi.
  erewrite set_prop_object by (now rewrite lookup_tail0).
  rewrite insert_tail0. cbn [insert list_insert].
  now rewrite set_own_fresh.
Qed.

Section QueryStrings.

Variable JSON_stringify : heap -> value -> outcome value.

(** The loop that turns the entries into text. *)
Lemma forEach_stringify (h : heap) :
  forall todo done,
    List.NoDup (map fst (done ++ todo)) ->
    (forall kv, In kv todo ->
       isString (snd kv) = true
       \/ forall o, exists s,
            JSON_stringify (h ++ [o]) (snd kv) = Ret (VStr s)) ->
    exists todo',
      forEach (map fst todo) tt (fun _ key =>
        stringify_entry JSON_stringify (VRef (length h)) key ;;;
        ret (tt, VUndefined)) (h ++ [OObject (done ++ todo)])
      = (Ret tt, h ++ [OObject (done ++ todo')])
      /\ map fst todo' = map fst todo
      /\ Forall (fun kv => isString (snd kv) = true) todo'
      /\ (forall k s, In (k, VStr s) todo -> In (k, VStr s) todo')
      /\ forall k x, In (k, x) todo -> isString x = false ->
           exists o s, JSON_stringify (h ++ [o]) x = Ret (VStr s)
                       /\ In (k, VStr s) todo'.
Proof.
  induction todo as [| [k x] todo IH]; intros done Hnd Hs.
  - exists []. split; [reflexivity |]. split; [reflexivity |].
    split; [constructor |]. split; [intros k s [] | intros k x []].
  - assert (Hk : lookup_own k done = None).
    { apply lookup_own_not_In. intros K.
      rewrite map_app in Hnd. cbn [map fst] in Hnd.
      apply List.NoDup_remove_2 in Hnd. apply Hnd.
      apply in_or_app. now left. }
    assert (Ey : exists y,
              (isString x = true -> y = x) /\ isString y = true
              /\ (isString x = false ->
                  exists o, JSON_stringify (h ++ [o]) x = Ret y)
              /\ (stringify_entry JSON_stringify (VRef (length h)) k)
                   (h ++ [OObject (done ++ (k, x) :: todo)])
                 = (Ret tt, h ++ [OObject (done ++ (k, y) :: todo)])).
    { unfold stringify_entry.
      assert (Eg : get_prop (VRef (length h)) k
                     (h ++ [OObject (done ++ (k, x) :: todo)])
                   = (Ret x, h ++ [OObject (done ++ (k, x) :: todo)])).
      { apply get_prop_own with (ps := done ++ (k, x) :: todo);
          [now rewrite lookup_tail0 | now apply lookup_own_middle]. }
      destruct (isString x) eqn:Ex.
      - exists x. split; [reflexivity |]. split; [exact Ex |].
        split; [discriminate |].
        rewrite (bind_Ret _ _ _ _ _ Eg), Ex.
        rewrite (bind_Ret _ _ _ _ _ Eg).
        erewrite set_prop_object by (now rewrite lookup_tail0).
        rewrite insert_tail0. cbn [insert list_insert].
        now rewrite set_own_middle.
      - destruct (Hs (k, x) (or_introl eq_refl)) as [K | K];
          [cbn [snd] in K; congruence |].
        destruct (K (OObject (done ++ (k, x) :: todo))) as [s Es].
        cbn [snd] in Es.
        exists (VStr s). split; [discriminate |]. split; [reflexivity |].
        split; [intros _; eexists; exact Es |].
        rewrite (bind_Ret _ _ _ _ _ Eg), Ex. rewrite bind_assoc.
        rewrite (bind_Ret _ _ _ _ _ Eg). rewrite bind_assoc.
        rewrite bind_get_heap. rewrite Es.
        change (lift (Ret (VStr s))) with (ret (VStr s)). rewrite bind_ret.
        erewrite set_prop_object by (now rewrite lookup_tail0).
        rewrite insert_tail0. cbn [insert list_insert].
        now rewrite set_own_middle. }
    destruct Ey as (y & Hyx & Hy & Hyo & Ey).
    destruct (IH (done ++ [(k, y)]))
      as (todo' & E & Hkeys & Hstr & Hin & Hout).
    { rewrite <- app_assoc. cbn [app].
      rewrite map_app in *. cbn [map fst] in *. exact Hnd. }
    { intros kv Hkv. apply Hs. now right. }
    exists ((k, y) :: todo').
    split; [| split; [| split; [| split]]].
    + cbn [map fst forEach]. rewrite bind_assoc.
      rewrite (bind_Ret _ _ _ _ _ Ey). rewrite !bind_ret. cbn [snd fst].
      rewrite <- app_assoc in E. cbn [app] in E. rewrite E.
      now rewrite <- app_assoc.
    + cbn [map fst]. now rewrite Hkeys.
    + constructor; [exact Hy | exact Hstr].
    + intros k' s [K | K].
      * injection K as <- ->. left. now rewrite (Hyx eq_refl).
      * right. now apply Hin.
    + intros k' x' [K | K] Hx'.
      * injection K as <- <-. destruct (Hyo Hx') as [o Eo].
        destruct y as [| | | | s |]; try discriminate Hy.
        exists o, s. split; [exact Eo | now left].
      * destruct (Hout k' x' K Hx') as (o & s & Eo & Hi).
        exists o, s. split; [exact Eo | now right].
Qed.

(** X20: [toQueryString] returns a new object and changes no other.
    The object has the key [query] when the filter has an entry, [fields]
    when an array of fields has a member, [limit] when the limit is truthy,
    [skip] when the skip is above 0 and [sort] when the sort has an entry,
    in this order and no other key: the components that are as the
    constructor leaves them are absent.  Every value is a string: the fields
    joined with commas, a component that is a string as it is, and for
    the others what [JSON.stringify] returns for them, provided it returns
    a string. *)
Theorem query_string_omits_defaults this q lf psf lfi fs names ls pss k
  (h : heap) :
  h !! this = Some (OQuery q) ->
  _filter q = VRef lf ->
  h !! lf = Some (OObject psf) ->
  _fields q = VRef lfi ->
  h !! lfi = Some (OArray fs) ->
  join_members fs = Some names ->
  _sort q = VRef ls ->
  h !! ls = Some (OObject pss) ->
  _skip q = VNum k ->
  (forall o v, In v [_filter q; _limit q; _skip q; _sort q] ->
               exists s, JSON_stringify (h ++ [o]) v = Ret (VStr s)) ->
  exists entries,
    toQueryString JSON_stringify this h
    = (Ret (VRef (length h)), h ++ [OObject entries])
    /\ map fst entries = map fst (query_string_entries q psf names pss)
    /\ Forall (fun kv => isString (snd kv) = true) entries
    /\ (forall key s,
          In (key, VStr s) (query_string_entries q psf names pss) ->
          In (key, VStr s) entries)
    /\ forall key v,
         In (key, v) (query_string_entries q psf names pss) ->
         isString v = false ->
         exists o s, JSON_stringify (h ++ [o]) v = Ret (VStr s)
                     /\ In (key, VStr s) entries.
Proof.
  intros Hq Hf Hlf Hfi Hlfi Hj Hs Hls Hk Hstr.
  assert (Lt : this < length h) by eauto using lookup_lt_Some.
  assert (Ln : length names = length fs).
  { clear - Hj. revert names Hj.
    induction fs as [| v fs' IH]; intros names Hj.
    - now injection Hj as <-.
    - cbn [join_members] in Hj. destruct (join_member v); [| discriminate].
      destruct (join_members fs') as [l |]; [| discriminate].
      injection Hj as <-. cbn [length]. now rewrite (IH l eq_refl). }
  set (c1 := negb (length psf =? 0)).
  set (c2 := negb (length fs =? 0)).
  set (c3 := truthy (_limit q)).
  set (c4 := number_positive k).
  set (c5 := negb (length pss =? 0)).
  set (e1 := if c1 then [("query", _filter q)] else []).
  set (e2 := if c2 then [("fields", VStr (String.concat "," names))] else []).
  set (e3 := if c3 then [("limit", _limit q)] else []).
  set (e4 := if c4 then [("skip", _skip q)] else []).
  set (e5 := if c5 then [("sort", _sort q)] else []).
  assert (Hent : query_string_entries q psf names pss
                 = e1 ++ e2 ++ e3 ++ e4 ++ e5).
  { unfold query_string_entries, e1, e2, e3, e4, e5, c1, c2, c3, c4, c5.
    rewrite Hk, Ln.
    destruct (length psf =? 0), (length fs =? 0), (length pss =? 0);
      reflexivity. }
  set (entries0 := e1 ++ e2 ++ e3 ++ e4 ++ e5) in *.
  assert (Hnd : List.NoDup (map fst ([] ++ entries0))).
  { unfold entries0, e1, e2, e3, e4, e5.
    destruct c1, c2, c3, c4, c5; cbn [app map fst];
      repeat constructor; cbn [In]; intuition discriminate. }
  assert (Hval : forall key v, In (key, v) entries0 ->
            key <> "fields" -> In v [_filter q; _limit q; _skip q; _sort q]).
  { intros key v Hin Hkey. unfold entries0 in Hin.
    repeat (apply in_app_or in Hin as [Hin | Hin]).
    - unfold e1 in Hin. destruct c1; [| contradiction].
      destruct Hin as [[= <- <-] | []]. cbn. tauto.
    - unfold e2 in Hin. destruct c2; [| contradiction].
      destruct Hin as [[= <- <-] | []]. contradiction.
    - unfold e3 in Hin. destruct c3; [| contradiction].
      destruct Hin as [[= <- <-] | []]. cbn. tauto.
    - unfold e4 in Hin. destruct c4; [| contradiction].
      destruct Hin as [[= <- <-] | []]. cbn. tauto.
    - unfold e5 in Hin. destruct c5; [| contradiction].
      destruct Hin as [[= <- <-] | []]. cbn. tauto. }
  assert (Hfields : forall v, In ("fields", v) entries0 ->
            v = VStr (String.concat "," names)).
  { intros v Hin. unfold entries0 in Hin.
    repeat (apply in_app_or in Hin as [Hin | Hin]).
    - unfold e1 in Hin. destruct c1; [| contradiction].
      destruct Hin as [[=] | []].
    - unfold e2 in Hin. destruct c2; [| contradiction].
      now destruct Hin as [[= <-] | []].
    - unfold e3 in Hin. destruct c3; [| contradiction].
      destruct Hin as [[=] | []].
    - unfold e4 in Hin. destruct c4; [| contradiction].
      destruct Hin as [[=] | []].
    - unfold e5 in Hin. destruct c5; [| contradiction].
      destruct Hin as [[=] | []]. }
  assert (Hok : forall kv, In kv entries0 ->
            isString (snd kv) = true
            \/ forall o, exists s,
                 JSON_stringify (h ++ [o]) (snd kv) = Ret (VStr s)).
  { intros [key v] Hin. cbn [snd].
    destruct (String.eqb_spec key "fields") as [-> | Hkey].
    - left. now rewrite (Hfields v Hin).
    - right. intros o. apply Hstr. now apply (Hval key). }
  destruct (forEach_stringify h entries0 [] Hnd Hok)
    as (entries & E & Hkeys & Hall & Hin & Hout).
  exists entries. split; [| split; [| split; [| split]]].
  - unfold toQueryString. rewrite bind_alloc. cbv zeta.
    (* query *)
    js_step. rewrite Hf.
    erewrite bind_Ret by (eapply isEmpty_object; at_loc).
    fold c1.
    erewrite bind_Ret.
    2:{ apply (if_entry c1 _ [] "query" (_filter q)). intros _.
        js_step. now apply set_new_entry. }
    cbn [app]. fold e1.
    (* fields *)
    js_step. rewrite Hfi.
    erewrite bind_Ret by (eapply isEmpty_array; at_loc).
    fold c2.
    erewrite bind_Ret.
    2:{ apply (if_entry c2 _ e1 "fields" (VStr (String.concat "," names))).
        intros _. js_step. rewrite Hfi.
        erewrite bind_Ret
          by (eapply Array_join_strings; [at_loc | exact Hj]).
        rewrite ?app_assoc. apply set_new_entry; [| reflexivity].
        unfold e1. now destruct c1. }
    fold e2.
    (* limit *)
    js_step. fold c3.
    erewrite bind_Ret.
    2:{ apply (if_entry c3 _ (e1 ++ e2) "limit" (_limit q)). intros _.
        js_step. rewrite ?app_assoc. apply set_new_entry; [| reflexivity].
        unfold e1, e2. now destruct c1, c2. }
    fold e3.
    (* skip *)
    js_step. rewrite Hk. cbn [greater_than_zero]. rewrite bind_ret.
    fold c4.
    erewrite bind_Ret.
    2:{ apply (if_entry c4 _ (e1 ++ e2 ++ e3) "skip" (_skip q)). intros _.
        js_step. rewrite ?app_assoc. apply set_new_entry; [| reflexivity].
        unfold e1, e2, e3. now destruct c1, c2, c3. }
    fold e4.
    (* sort *)
    js_step. rewrite Hs.
    erewrite bind_Ret by (eapply isEmpty_object; at_loc).
    fold c5.
    erewrite bind_Ret.
    2:{ apply (if_entry c5 _ (e1 ++ e2 ++ e3 ++ e4) "sort" (_sort q)).
        intros _. js_step. rewrite ?app_assoc.
        apply set_new_entry; [| reflexivity].
        unfold e1, e2, e3, e4. now destruct c1, c2, c3, c4. }
    fold e5. rewrite <- !app_assoc. fold entries0.
    erewrite bind_Ret by (eapply Object_keys_object; now rewrite lookup_tail0).
    cbn [app] in E. rewrite (bind_Ret _ _ _ _ _ E). reflexivity.
  - now rewrite Hkeys, Hent.
  - exact Hall.
  - intros key s. rewrite Hent. apply Hin.
  - intros key v. rewrite Hent. apply Hout.
Qed.

End QueryStrings.

Lemma query_string_omits_defaults_witness :
  let h := snd (exec [Array_literal [VStr "a"; VStr "b"]; New VUndefined;
                      SetFields 1 (VRef 0); SetLimit 1 (num 5);
                      SetSkip 1 (num 2)]) in
  let q := mkQuery (VRef 0) (VRef 3) (VRef 4) (num 5) (num 2) VNull VUndefined in
  exists entries,
    toQueryString JSON_stringify_plain 1 h
    = (Ret (VRef (length h)), h ++ [OObject entries])
    /\ map fst entries = map fst (query_string_entries q [] ["a"; "b"] [])
    /\ Forall (fun kv => isString (snd kv) = true) entries
    /\ (forall key s,
          In (key, VStr s) (query_string_entries q [] ["a"; "b"] []) ->
          In (key, VStr s) entries)
    /\ forall key v,
         In (key, v) (query_string_entries q [] ["a"; "b"] []) ->
         isString v = false ->
         exists o s, JSON_stringify_plain (h ++ [o]) v = Ret (VStr s)
                     /\ In (key, VStr s) entries.
Proof.
  intros h q.
  apply (query_string_omits_defaults JSON_stringify_plain 1 q 3 [] 0
           [VStr "a"; VStr "b"] ["a"; "b"] 4 [] (Finite (inject_Z 2)) h);
    [reflexivity | reflexivity | reflexivity | reflexivity | reflexivity
    | reflexivity | reflexivity | reflexivity | reflexivity |].
  intros o v [<- | [<- | [<- | [<- | []]]]]; eexists; reflexivity.
Defined.
